(** * The Eisenhower todo-matrix store and its display identifiers

    A shallow embedding of the store half of [src/lib/todo-tui.js]
    (the functions from [getQuadrantKey] to [resolveUserFriendlyId]) and
    the properties of it that the specification states.

    Conventions of the embedding:
    - JavaScript strings are [string]s holding ASCII text; the helpers of
      module [JS] give [toUpperCase], [trim], [parseInt] and the regular
      expression of [isUserFriendlyId] their meaning on such text.
    - A matrix is the typed document of the [TodoMatrix] typedef: four
      arrays of [TodoItem] records, the statistics and a timestamp.
    - The file system, the console and the wall clock are threaded
      explicitly through a small state-and-exception monad [M]. *)

From Stdlib Require Import ZArith String Ascii.
From stdpp Require Import base option list strings pretty.

Open Scope string_scope.
Open Scope list_scope.
Open Scope nat_scope.

(** ** JavaScript string primitives *)

Module JS.

(** Decimal digits, [0-9], also the class [\d] of a regular expression. *)
Definition is_digit (c : ascii) : bool :=
  let n := N_of_ascii c in ((48 <=? n) && (n <=? 57))%N.

Definition digit_value (c : ascii) : N := (N_of_ascii c - 48)%N.

(** White space and line terminators that [trim] and [parseInt] skip:
    TAB, LF, VT, FF, CR and SPACE. *)
Definition is_white (c : ascii) : bool :=
  let n := N_of_ascii c in (((9 <=? n) && (n <=? 13)) || (n =? 32))%N.

Fixpoint skip_white (s : string) : string :=
  match s with
  | String c r => if is_white c then skip_white r else s
  | EmptyString => EmptyString
  end.

(** [s.trim()] *)
Definition trim (s : string) : string :=
  String.rev (skip_white (String.rev (skip_white s))).

Definition upper_ascii (c : ascii) : ascii :=
  let n := N_of_ascii c in
  if ((97 <=? n) && (n <=? 122))%N then ascii_of_N (n - 32) else c.

(** [s.toUpperCase()] *)
Fixpoint toUpperCase (s : string) : string :=
  match s with
  | String c r => String (upper_ascii c) (toUpperCase r)
  | EmptyString => EmptyString
  end.

(** [s.charAt(0)]: the first character as a string, or the empty string. *)
Definition charAt0 (s : string) : string :=
  match s with
  | String c _ => String c EmptyString
  | EmptyString => EmptyString
  end.

(** [s.substring(1)] *)
Definition substring1 (s : string) : string :=
  match s with
  | String _ r => r
  | EmptyString => EmptyString
  end.

(** [s.substring(0, 8)] *)
Definition substring_0_8 (s : string) : string := String.substring 0 8 s.

(** The value of the longest prefix of decimal digits, read left to right. *)
Fixpoint digits_acc (s : string) (acc : N) : N :=
  match s with
  | String c r =>
      if is_digit c then digits_acc r (acc * 10 + digit_value c)%N else acc
  | EmptyString => acc
  end.

Definition starts_with_digit (s : string) : bool :=
  match s with
  | String c _ => is_digit c
  | EmptyString => false
  end.

(** [parseInt(s, 10)].  [None] is [NaN].  Leading white space is skipped,
    one sign is accepted, then the longest run of digits is read and
    whatever follows is ignored.  The result is kept exact: the store only
    compares it with array lengths and uses it as an array index. *)
Definition parseInt (s : string) : option Z :=
  let s1 := skip_white s in
  let '(sign, s2) :=
    match s1 with
    | String "-"%char r => ((-1)%Z, r)
    | String "+"%char r => (1%Z, r)
    | _ => (1%Z, s1)
    end in
  if starts_with_digit s2
  then Some (sign * Z.of_N (digits_acc s2 0))%Z
  else None.

Fixpoint all_digits (s : string) : bool :=
  match s with
  | String c r => is_digit c && all_digits r
  | EmptyString => true
  end.

(** The class [[A-D]] under the flag [i]. *)
Definition is_A_to_D (c : ascii) : bool :=
  let n := N_of_ascii (upper_ascii c) in ((65 <=? n) && (n <=? 68))%N.

(** The template literal [`${n}`] of a non-negative integer. *)
Definition number_to_string (n : nat) : string := pretty n.

End JS.

(** ** Data model *)

(** A timestamp is the string that [new Date().toISOString()] returns;
    such strings are ordered as text. *)
Definition Timestamp := string.

Definition ts_le (a b : Timestamp) : Prop := String.leb a b = true.

Record TodoItem := mkTodo {
  id : string;
  title : string;
  description : string;
  priority : string;        (* 'high' | 'low' *)
  urgency : string;         (* 'urgent' | 'not-urgent' *)
  completed : bool;
  createdAt : Timestamp;
  completedAt : option Timestamp;   (* [None] is [null] *)
  tags : list string;
  links : list string;
  metadata : list (string * string)
}.

Record Stats := mkStats {
  stats_total : nat;
  stats_completed : nat;
  stats_active : nat
}.

Record TodoMatrix := mkMatrix {
  important_urgent : list TodoItem;
  important_not_urgent : list TodoItem;
  not_important_urgent : list TodoItem;
  not_important_not_urgent : list TodoItem;
  stats : Stats;
  lastUpdated : Timestamp
}.

(** The four property names under which a matrix holds its arrays. *)
Inductive QuadrantKey :=
  | key_important_urgent
  | key_important_not_urgent
  | key_not_important_urgent
  | key_not_important_not_urgent.

#[global] Instance QuadrantKey_eq_dec : EqDecision QuadrantKey.
Proof. solve_decision. Defined.

#[global] Instance TodoItem_eq_dec : EqDecision TodoItem.
Proof. solve_decision. Defined.

(** [matrix[quadrant]] *)
Definition getQ (matrix : TodoMatrix) (quadrant : QuadrantKey) : list TodoItem :=
  match quadrant with
  | key_important_urgent => important_urgent matrix
  | key_important_not_urgent => important_not_urgent matrix
  | key_not_important_urgent => not_important_urgent matrix
  | key_not_important_not_urgent => not_important_not_urgent matrix
  end.

(** [matrix[quadrant] = l], also the effect of mutating that array in place. *)
Definition setQ (matrix : TodoMatrix) (quadrant : QuadrantKey)
    (l : list TodoItem) : TodoMatrix :=
  match quadrant with
  | key_important_urgent =>
      mkMatrix l (important_not_urgent matrix) (not_important_urgent matrix)
        (not_important_not_urgent matrix) (stats matrix) (lastUpdated matrix)
  | key_important_not_urgent =>
      mkMatrix (important_urgent matrix) l (not_important_urgent matrix)
        (not_important_not_urgent matrix) (stats matrix) (lastUpdated matrix)
  | key_not_important_urgent =>
      mkMatrix (important_urgent matrix) (important_not_urgent matrix) l
        (not_important_not_urgent matrix) (stats matrix) (lastUpdated matrix)
  | key_not_important_not_urgent =>
      mkMatrix (important_urgent matrix) (important_not_urgent matrix)
        (not_important_urgent matrix) l (stats matrix) (lastUpdated matrix)
  end.

(** The spread of the four arrays, in quadrant order. *)
Definition allTodos (matrix : TodoMatrix) : list TodoItem :=
  important_urgent matrix ++ important_not_urgent matrix ++
  not_important_urgent matrix ++ not_important_not_urgent matrix.

(** ** Quadrants *)

Definition getQuadrantKey (todo : TodoItem) : QuadrantKey :=
  let isImportant := String.eqb (priority todo) "high" in
  let isUrgent := String.eqb (urgency todo) "urgent" in
  if isImportant && isUrgent then key_important_urgent
  else if isImportant && negb isUrgent then key_important_not_urgent
  else if negb isImportant && isUrgent then key_not_important_urgent
  else key_not_important_not_urgent.

Definition QUADRANT_PREFIX_MAP (quadrant : QuadrantKey) : string :=
  match quadrant with
  | key_important_urgent => "A"
  | key_important_not_urgent => "B"
  | key_not_important_urgent => "C"
  | key_not_important_not_urgent => "D"
  end.

(** Looked up with a string of at most one character; [None] is
    [undefined]. *)
Definition QUADRANT_KEY_MAP (prefix : string) : option QuadrantKey :=
  if String.eqb prefix "A" then Some key_important_urgent
  else if String.eqb prefix "B" then Some key_important_not_urgent
  else if String.eqb prefix "C" then Some key_not_important_urgent
  else if String.eqb prefix "D" then Some key_not_important_not_urgent
  else None.

(** ** Creating an item *)

(** The [options] argument of [createTodo]: every property may be absent. *)
Record TodoOptions := mkOptions {
  opt_id : option string;
  opt_description : option string;
  opt_priority : option string;
  opt_urgency : option string;
  opt_completed : option bool;
  opt_createdAt : option Timestamp;
  opt_completedAt : option Timestamp;
  opt_tags : option (list string);
  opt_links : option (list string);
  opt_metadata : option (list (string * string))
}.

Definition no_options : TodoOptions :=
  mkOptions None None None None None None None None None None.

(** [x || d] on a string: absent and empty are both falsy. *)
Definition or_string (x : option string) (d : string) : string :=
  match x with
  | Some s => if String.eqb s "" then d else s
  | None => d
  end.

(** [x || null] on a string *)
Definition or_null (x : option string) : option string :=
  match x with
  | Some s => if String.eqb s "" then None else Some s
  | None => None
  end.

(** [createTodo(title, options)].  [now] is the reading of the clock the
    function takes first and [uuid] the value that [uuidv4()] yields when it
    is asked.  The function has no failing path. *)
Definition createTodo (now : Timestamp) (uuid : string)
    (title0 : string) (options : TodoOptions) : TodoItem :=
  {| id := or_string (opt_id options) uuid;
     title := JS.trim title0;
     description := or_string (opt_description options) "";
     priority := or_string (opt_priority options) "low";
     urgency := or_string (opt_urgency options) "not-urgent";
     completed := default false (opt_completed options);
     createdAt := or_string (opt_createdAt options) now;
     completedAt := or_null (opt_completedAt options);
     tags := default [] (opt_tags options);
     links := default [] (opt_links options);
     metadata := default [] (opt_metadata options) |}.

(** ** Display identifiers *)

(** [/^[A-D]\d+$/i.test(id)] *)
Definition isUserFriendlyId (ident : string) : bool :=
  match ident with
  | String c r => JS.is_A_to_D c && JS.starts_with_digit r && JS.all_digits r
  | EmptyString => false
  end.

(** [array.findIndex(t => t.id === todoId)], with the element found. *)
Definition findIndex (todoId : string) (l : list TodoItem) : option (nat * TodoItem) :=
  list_find (λ t, id t = todoId) l.

Definition generateDisplayId (matrix : TodoMatrix) (todo : TodoItem) : string :=
  let quadrant := getQuadrantKey todo in
  let prefix := QUADRANT_PREFIX_MAP quadrant in
  if String.eqb prefix "" then JS.substring_0_8 (id todo)
  else
    match findIndex (id todo) (getQ matrix quadrant) with
    | Some (position, _) => prefix +:+ JS.number_to_string (position + 1)
    | None => JS.substring_0_8 (id todo)
    end.

(** What a call can do: return a value or throw. *)
Inductive Error :=
  | TypeError                     (* a property read on [undefined] *)
  | SyntaxError                   (* thrown by [JSON.parse] *)
  | SystemError                   (* a file that is not there is read *)
  | NotFoundError (todoId : string).   (* [Error(`Todo with ID ${todoId} not found`)] *)

Inductive Outcome (A : Type) :=
  | Returned (a : A)
  | Thrown (e : Error).
Arguments Returned {A} a.
Arguments Thrown {A} e.

(** [resolveUserFriendlyId(matrix, userFriendlyId)]; [Returned None] is the
    [null] result.  A [NaN] index passes both comparisons, the array read
    gives [undefined] and the read of its [id] throws.  The test
    [!matrix[quadrant]] is never true of a typed matrix. *)
Definition resolveUserFriendlyId (matrix : TodoMatrix) (userFriendlyId : string)
    : Outcome (option string) :=
  let userFriendlyId := JS.toUpperCase userFriendlyId in
  let prefix := JS.charAt0 userFriendlyId in
  let index := (λ n, n - 1)%Z <$> JS.parseInt (JS.substring1 userFriendlyId) in
  if match index with Some i => (i <? 0)%Z | None => false end
  then Returned None
  else
    match QUADRANT_KEY_MAP prefix with
    | None => Returned None
    | Some quadrant =>
        if match index with
           | Some i => (Z.of_nat (length (getQ matrix quadrant)) <=? i)%Z
           | None => false
           end
        then Returned None
        else
          match index ≫= (λ i, getQ matrix quadrant !! Z.to_nat i) with
          | Some todo => Returned (Some (id todo))
          | None => Thrown TypeError
          end
    end.

(** The block that opens [updateTodo], [toggleTodo] and [deleteTodo]: a
    display identifier is replaced by the stable one it resolves to; a
    [null] or empty result is falsy and reported as not found. *)
Definition resolveIfFriendly (matrix : TodoMatrix) (todoId : string) : Outcome string :=
  if isUserFriendlyId todoId then
    match resolveUserFriendlyId matrix todoId with
    | Returned (Some uuid) =>
        if String.eqb uuid "" then Thrown (NotFoundError todoId) else Returned uuid
    | Returned None => Thrown (NotFoundError todoId)
    | Thrown e => Thrown e
    end
  else Returned todoId.

(** ** The world outside: one thoughts directory, the console, the clock *)

(** The file [.todos/todo-matrix.json] of the directory: missing, holding
    text that [JSON.parse] rejects, or holding the JSON text of a matrix,
    which stands for the matrix it parses to. *)
Inductive FileState :=
  | Absent
  | Unparsable (raw : string)
  | Stored (matrix : TodoMatrix).

Record World := mkWorld {
  todoFile : FileState;
  console : list string;   (* the warnings logged so far *)
  ticks : nat;             (* how often the clock has been read *)
  writes : nat             (* how often the file has been written *)
}.

(** Computations that read and change the world and may throw. *)
Definition M (A : Type) : Type := World → Outcome A * World.

#[global] Instance M_ret : MRet M := λ A a w, (Returned a, w).

#[global] Instance M_bind : MBind M := λ A B f m w,
  match m w with
  | (Returned a, w') => f a w'
  | (Thrown e, w') => (Thrown e, w')
  end.

Definition throw {A} (e : Error) : M A := λ w, (Thrown e, w).

(** A call of a function that leaves the world alone. *)
Definition call {A} (o : Outcome A) : M A := λ w, (o, w).

(** [try { body } catch (error) { handler }] *)
Definition try_catch {A} (body : M A) (handler : Error → M A) : M A := λ w,
  match body w with
  | (Returned a, w') => (Returned a, w')
  | (Thrown e, w') => handler e w'
  end.

(** [await fs.pathExists(todoFile)] *)
Definition pathExists : M bool := λ w,
  (Returned match todoFile w with Absent => false | _ => true end, w).

(** [JSON.parse(await fs.readFile(todoFile, "utf8"))] *)
Definition readJSON : M TodoMatrix := λ w,
  match todoFile w with
  | Stored matrix => (Returned matrix, w)
  | Unparsable _ => (Thrown SyntaxError, w)
  | Absent => (Thrown SystemError, w)
  end.

(** [await fs.writeFile(todoFile, JSON.stringify(matrix, null, 2))] *)
Definition writeJSON (matrix : TodoMatrix) : M unit := λ w,
  (Returned (), mkWorld (Stored matrix) (console w) (ticks w) (S (writes w))).

(** [console.warn(...)] *)
Definition console_warn (line : string) : M unit := λ w,
  (Returned (), mkWorld (todoFile w) (console w ++ [line]) (ticks w) (writes w)).

Definition emptyMatrix (ts : Timestamp) : TodoMatrix :=
  mkMatrix [] [] [] [] (mkStats 0 0 0) ts.

(** The [updates] argument of [updateTodo]: a partial item.  For
    [completedAt] a present key may hold [null]. *)
Record Updates := mkUpdates {
  upd_id : option string;
  upd_title : option string;
  upd_description : option string;
  upd_priority : option string;
  upd_urgency : option string;
  upd_completed : option bool;
  upd_createdAt : option Timestamp;
  upd_completedAt : option (option Timestamp);
  upd_tags : option (list string);
  upd_links : option (list string);
  upd_metadata : option (list (string * string))
}.

Definition no_updates : Updates :=
  mkUpdates None None None None None None None None None None None.

(** [{ ...oldTodo, ...updates }] *)
Definition spread (oldTodo : TodoItem) (updates : Updates) : TodoItem :=
  {| id := default (id oldTodo) (upd_id updates);
     title := default (title oldTodo) (upd_title updates);
     description := default (description oldTodo) (upd_description updates);
     priority := default (priority oldTodo) (upd_priority updates);
     urgency := default (urgency oldTodo) (upd_urgency updates);
     completed := default (completed oldTodo) (upd_completed updates);
     createdAt := default (createdAt oldTodo) (upd_createdAt updates);
     completedAt := default (completedAt oldTodo) (upd_completedAt updates);
     tags := default (tags oldTodo) (upd_tags updates);
     links := default (links oldTodo) (upd_links updates);
     metadata := default (metadata oldTodo) (upd_metadata updates) |}.

(** [todo.completedAt = v] *)
Definition set_completedAt (v : option Timestamp) (todo : TodoItem) : TodoItem :=
  mkTodo (id todo) (title todo) (description todo) (priority todo) (urgency todo)
    (completed todo) (createdAt todo) v (tags todo) (links todo) (metadata todo).

(** [todo.completed = v] *)
Definition set_completed (v : bool) (todo : TodoItem) : TodoItem :=
  mkTodo (id todo) (title todo) (description todo) (priority todo) (urgency todo)
    v (createdAt todo) (completedAt todo) (tags todo) (links todo) (metadata todo).

(** What [saveTodoMatrix] assigns to the matrix before it writes it. *)
Definition computeStats (matrix : TodoMatrix) : Stats :=
  let all := allTodos matrix in
  {| stats_total := length all;
     stats_completed := length (filter (λ todo, completed todo = true) all);
     stats_active := length (filter (λ todo, completed todo = false) all) |}.

Definition set_stats (s : Stats) (ts : Timestamp) (matrix : TodoMatrix) : TodoMatrix :=
  mkMatrix (important_urgent matrix) (important_not_urgent matrix)
    (not_important_urgent matrix) (not_important_not_urgent matrix) s ts.

(** [updates.completed === true && !oldTodo.completed] *)
Definition becomes_completed (oldTodo : TodoItem) (updates : Updates) : bool :=
  bool_decide (upd_completed updates = Some true) && negb (completed oldTodo).

Section Store.

(** The wall clock: its [n]-th reading. *)
Variable clock : nat → Timestamp.

(** [new Date().toISOString()] *)
Definition now : M Timestamp := λ w,
  (Returned (clock (ticks w)),
   mkWorld (todoFile w) (console w) (S (ticks w)) (writes w)).

Definition loadTodoMatrix : M TodoMatrix :=
  ts ← now;
  let defaultMatrix := emptyMatrix ts in
  loaded ← try_catch
    (there ← pathExists;
     if there : bool then matrix ← readJSON; mret (Some matrix) else mret None)
    (λ error,
       console_warn "Error loading todo matrix, creating new one:";;
       mret None);
  match loaded with
  | Some matrix => mret matrix
  | None => writeJSON defaultMatrix;; mret defaultMatrix
  end.

(** Returns the matrix as the call leaves it, since the callers go on to
    return that same object. *)
Definition saveTodoMatrix (matrix : TodoMatrix) : M TodoMatrix :=
  let s := computeStats matrix in
  ts ← now;
  let matrix := set_stats s ts matrix in
  writeJSON matrix;;
  mret matrix.

Definition addTodo (todo : TodoItem) : M TodoMatrix :=
  matrix ← loadTodoMatrix;
  let quadrant := getQuadrantKey todo in
  let matrix := setQ matrix quadrant (getQ matrix quadrant ++ [todo]) in
  saveTodoMatrix matrix.

(** The closures of the three operations act on the matrix and on the
    flag [found]. *)
Definition updateInQuadrant (todoId : string) (updates : Updates)
    (quadrant : QuadrantKey) (st : TodoMatrix * bool) : M (TodoMatrix * bool) :=
  let '(matrix, found) := st in
  match findIndex todoId (getQ matrix quadrant) with
  | Some (index, oldTodo) =>
      let updatedTodo := spread oldTodo updates in
      updatedTodo ←
        (if becomes_completed oldTodo updates
         then ts ← now; mret (set_completedAt (Some ts) updatedTodo)
         else if bool_decide (upd_completed updates = Some false)
              then mret (set_completedAt None updatedTodo)
              else mret updatedTodo);
      let newQuadrant := getQuadrantKey updatedTodo in
      if decide (newQuadrant ≠ quadrant) then
        let matrix := setQ matrix quadrant (delete index (getQ matrix quadrant)) in
        let matrix := setQ matrix newQuadrant (getQ matrix newQuadrant ++ [updatedTodo]) in
        mret (matrix, true)
      else
        mret (setQ matrix quadrant (<[index:=updatedTodo]> (getQ matrix quadrant)), true)
  | None => mret (matrix, found)
  end.

Definition updateTodo (todoId : string) (updates : Updates) : M TodoMatrix :=
  matrix ← loadTodoMatrix;
  todoId ← call (resolveIfFriendly matrix todoId);
  st ← updateInQuadrant todoId updates key_important_urgent (matrix, false);
  st ← updateInQuadrant todoId updates key_important_not_urgent st;
  st ← updateInQuadrant todoId updates key_not_important_urgent st;
  st ← updateInQuadrant todoId updates key_not_important_not_urgent st;
  let '(matrix, found) := st in
  if negb found then throw (NotFoundError todoId)
  else saveTodoMatrix matrix.

Definition toggleInQuadrant (todoId : string) (quadrant : QuadrantKey)
    (st : TodoMatrix * bool) : M (TodoMatrix * bool) :=
  let '(matrix, found) := st in
  match findIndex todoId (getQ matrix quadrant) with
  | Some (index, todo) =>
      let todo := set_completed (negb (completed todo)) todo in
      todo ←
        (if completed todo
         then ts ← now; mret (set_completedAt (Some ts) todo)
         else mret (set_completedAt None todo));
      mret (setQ matrix quadrant (<[index:=todo]> (getQ matrix quadrant)), true)
  | None => mret (matrix, found)
  end.

Definition toggleTodo (todoId : string) : M TodoMatrix :=
  matrix ← loadTodoMatrix;
  todoId ← call (resolveIfFriendly matrix todoId);
  st ← toggleInQuadrant todoId key_important_urgent (matrix, false);
  st ← toggleInQuadrant todoId key_important_not_urgent st;
  st ← toggleInQuadrant todoId key_not_important_urgent st;
  st ← toggleInQuadrant todoId key_not_important_not_urgent st;
  let '(matrix, found) := st in
  if negb found then throw (NotFoundError todoId)
  else saveTodoMatrix matrix.

Definition deleteFromQuadrant (todoId : string) (quadrant : QuadrantKey)
    (st : TodoMatrix * bool) : TodoMatrix * bool :=
  let '(matrix, found) := st in
  match findIndex todoId (getQ matrix quadrant) with
  | Some (index, _) =>
      (setQ matrix quadrant (delete index (getQ matrix quadrant)), true)
  | None => (matrix, found)
  end.

Definition deleteTodo (todoId : string) : M TodoMatrix :=
  matrix ← loadTodoMatrix;
  todoId ← call (resolveIfFriendly matrix todoId);
  let st := deleteFromQuadrant todoId key_important_urgent (matrix, false) in
  let st := deleteFromQuadrant todoId key_important_not_urgent st in
  let st := deleteFromQuadrant todoId key_not_important_urgent st in
  let st := deleteFromQuadrant todoId key_not_important_not_urgent st in
  let '(matrix, found) := st in
  if negb found then throw (NotFoundError todoId)
  else saveTodoMatrix matrix.

(** A run of store operations, as the command line and the terminal
    interface issue them one after the other. *)
Inductive Op :=
  | OpAdd (todo : TodoItem)
  | OpUpdate (todoId : string) (updates : Updates)
  | OpToggle (todoId : string)
  | OpDelete (todoId : string).

Definition perform (op : Op) : M TodoMatrix :=
  match op with
  | OpAdd todo => addTodo todo
  | OpUpdate todoId updates => updateTodo todoId updates
  | OpToggle todoId => toggleTodo todoId
  | OpDelete todoId => deleteTodo todoId
  end.

(** The world after the operations, whether each returned or threw. *)
Fixpoint run (ops : list Op) (w : World) : World :=
  match ops with
  | [] => w
  | op :: rest => run rest (perform op w).2
  end.

End Store.

(** ** Notions used to state the properties *)

(** The item a pass of [updateInQuadrant] stores in place of [oldTodo] when
    the clock reads [ts]: the spread followed by the completion rule. *)
Definition mergeTodo (ts : Timestamp) (oldTodo : TodoItem) (updates : Updates) : TodoItem :=
  let updatedTodo := spread oldTodo updates in
  if becomes_completed oldTodo updates then set_completedAt (Some ts) updatedTodo
  else if bool_decide (upd_completed updates = Some false)
       then set_completedAt None updatedTodo
       else updatedTodo.

(** The item a pass of [toggleInQuadrant] leaves in place of [todo] when the
    clock reads [ts]. *)
Definition toggleItem (ts : Timestamp) (todo : TodoItem) : TodoItem :=
  let todo := set_completed (negb (completed todo)) todo in
  if completed todo then set_completedAt (Some ts) todo
  else set_completedAt None todo.

(** Every item sits in the array of the quadrant computed from its fields. *)
Definition quadrant_consistent (matrix : TodoMatrix) : Prop :=
  ∀ quadrant todo, todo ∈ getQ matrix quadrant → getQuadrantKey todo = quadrant.

(** No two items of the matrix share an [id]. *)
Definition unique_ids (matrix : TodoMatrix) : Prop := NoDup (id <$> allTodos matrix).

(** An identifier that names nothing: a display identifier that resolves to
    [null], or another string that is the [id] of no item. *)
Definition resolves_to_nothing (matrix : TodoMatrix) (todoId : string) : Prop :=
  if isUserFriendlyId todoId
  then resolveUserFriendlyId matrix todoId = Returned None
  else Forall (λ todo, id todo ≠ todoId) (allTodos matrix).

(** One pass of [updateInQuadrant] as a function of the clock reading [ts]
    it would take. *)
Definition updatePass (ts : Timestamp) (todoId : string) (updates : Updates)
    (quadrant : QuadrantKey) (st : TodoMatrix * bool) : TodoMatrix * bool :=
  let '(matrix, found) := st in
  match findIndex todoId (getQ matrix quadrant) with
  | Some (index, oldTodo) =>
      let updatedTodo := mergeTodo ts oldTodo updates in
      let newQuadrant := getQuadrantKey updatedTodo in
      if decide (newQuadrant ≠ quadrant) then
        let matrix := setQ matrix quadrant (delete index (getQ matrix quadrant)) in
        (setQ matrix newQuadrant (getQ matrix newQuadrant ++ [updatedTodo]), true)
      else
        (setQ matrix quadrant (<[index:=updatedTodo]> (getQ matrix quadrant)), true)
  | None => (matrix, found)
  end.

(** One pass of [toggleInQuadrant], likewise. *)
Definition togglePass (ts : Timestamp) (todoId : string)
    (quadrant : QuadrantKey) (st : TodoMatrix * bool) : TodoMatrix * bool :=
  let '(matrix, found) := st in
  match findIndex todoId (getQ matrix quadrant) with
  | Some (index, todo) =>
      (setQ matrix quadrant (<[index:=toggleItem ts todo]> (getQ matrix quadrant)), true)
  | None => (matrix, found)
  end.

(** The worlds a computation can lead to that only reads the clock. *)
Definition only_ticked (w w' : World) : Prop :=
  todoFile w' = todoFile w ∧ console w' = console w ∧ writes w' = writes w ∧
  (ticks w ≤ ticks w')%nat.

(** The letter and the 1-based index that [resolveUserFriendlyId] reads from
    its argument; [None] is a [NaN] index. *)
Definition parsed_letter (userFriendlyId : string) : string :=
  JS.charAt0 (JS.toUpperCase userFriendlyId).

Definition parsed_index (userFriendlyId : string) : option Z :=
  JS.parseInt (JS.substring1 (JS.toUpperCase userFriendlyId)).

(** The four passes of [updateTodo] and of [toggleTodo], in the order of the
    source, with the clock readings [ts] that the passes would take. *)
Definition updatePasses (ts : QuadrantKey → Timestamp) (todoId : string)
    (updates : Updates) (matrix : TodoMatrix) : TodoMatrix * bool :=
  let st := updatePass (ts key_important_urgent) todoId updates
              key_important_urgent (matrix, false) in
  let st := updatePass (ts key_important_not_urgent) todoId updates
              key_important_not_urgent st in
  let st := updatePass (ts key_not_important_urgent) todoId updates
              key_not_important_urgent st in
  updatePass (ts key_not_important_not_urgent) todoId updates
    key_not_important_not_urgent st.

Definition togglePasses (ts : QuadrantKey → Timestamp) (todoId : string)
    (matrix : TodoMatrix) : TodoMatrix * bool :=
  let st := togglePass (ts key_important_urgent) todoId key_important_urgent
              (matrix, false) in
  let st := togglePass (ts key_important_not_urgent) todoId
              key_important_not_urgent st in
  let st := togglePass (ts key_not_important_urgent) todoId
              key_not_important_urgent st in
  togglePass (ts key_not_important_not_urgent) todoId
    key_not_important_not_urgent st.

Definition deletePasses (todoId : string) (matrix : TodoMatrix) : TodoMatrix * bool :=
  let st := deleteFromQuadrant todoId key_important_urgent (matrix, false) in
  let st := deleteFromQuadrant todoId key_important_not_urgent st in
  let st := deleteFromQuadrant todoId key_not_important_urgent st in
  deleteFromQuadrant todoId key_not_important_not_urgent st.

(** The end of the three operations: throw when nothing was found, save
    otherwise. *)
Definition finish (clock : nat → Timestamp) (todoId : string)
    (st : TodoMatrix * bool) : M TodoMatrix :=
  if negb st.2 then throw (NotFoundError todoId)
  else saveTodoMatrix clock st.1.

(** The readings [ts] were taken from the clock while the operation that
    started in the world [w] ran. *)
Definition read_during (clock : nat → Timestamp) (w : World)
    (ts : QuadrantKey → Timestamp) : Prop :=
  ∀ quadrant, ∃ n, (ticks w < n)%nat ∧ ts quadrant = clock n.

(** [loadTodoMatrix] returned [matrix] and left the world [w']: the file
    then holds [matrix], which was stored before or is a fresh empty one. *)
Definition loaded (clock : nat → Timestamp) (w : World) (matrix : TodoMatrix)
    (w' : World) : Prop :=
  loadTodoMatrix clock w = (Returned matrix, w') ∧
  todoFile w' = Stored matrix ∧
  ticks w' = S (ticks w) ∧
  (todoFile w = Stored matrix ∨ ∃ ts, matrix = emptyMatrix ts).

(** The file, when it holds a matrix, holds a quadrant-consistent one. *)
Definition world_consistent (w : World) : Prop :=
  ∀ matrix, todoFile w = Stored matrix → quadrant_consistent matrix.

(** Creation as the specification words it, for comparison with
    [createTodo]: the title is trimmed and an empty one is rejected with a
    validation error before anything is built. *)
Inductive Created :=
  | ValidationError
  | Created_item (todo : TodoItem).

Definition create_as_specified (now : Timestamp) (uuid : string)
    (title0 : string) (options : TodoOptions) : Created :=
  if String.eqb (JS.trim title0) "" then ValidationError
  else Created_item (createTodo now uuid title0 options).





(** The matrix one pass of [updateInQuadrant] leaves when it stores [item]
    for the item it found at [index] of [quadrant]: moved to the end of the
    array of the quadrant of [item], or put back in place. *)
Definition reclassified (matrix : TodoMatrix) (quadrant : QuadrantKey)
    (index : nat) (item : TodoItem) : TodoMatrix :=
  if decide (getQuadrantKey item ≠ quadrant) then
    let matrix := setQ matrix quadrant (delete index (getQ matrix quadrant)) in
    setQ matrix (getQuadrantKey item) (getQ matrix (getQuadrantKey item) ++ [item])
  else setQ matrix quadrant (<[index:=item]> (getQ matrix quadrant)).

(** [matrix'] is [matrix] after the item at [index] of [quadrant] made way
    for [item]: when [item] computes to another quadrant, the old item is
    gone from its array, where the items behind it have moved down one
    position, and [item] is the last one of the array of its quadrant; when
    it computes to the same quadrant, [item] sits at [index].  Nothing else
    differs. *)
Definition moved_or_replaced (matrix : TodoMatrix) (quadrant : QuadrantKey)
    (index : nat) (item : TodoItem) (matrix' : TodoMatrix) : Prop :=
  let newQuadrant := getQuadrantKey item in
  (newQuadrant ≠ quadrant →
     length (getQ matrix' quadrant) = length (getQ matrix quadrant) - 1 ∧
     (∀ j, j < index → getQ matrix' quadrant !! j = getQ matrix quadrant !! j) ∧
     (∀ j, index ≤ j → getQ matrix' quadrant !! j = getQ matrix quadrant !! S j) ∧
     getQ matrix' newQuadrant = getQ matrix newQuadrant ++ [item] ∧
     (∀ other, other ≠ quadrant → other ≠ newQuadrant →
               getQ matrix' other = getQ matrix other)) ∧
  (newQuadrant = quadrant →
     length (getQ matrix' quadrant) = length (getQ matrix quadrant) ∧
     getQ matrix' quadrant !! index = Some item ∧
     (∀ j, j ≠ index → getQ matrix' quadrant !! j = getQ matrix quadrant !! j) ∧
     (∀ other, other ≠ quadrant → getQ matrix' other = getQ matrix other)).

(** The result of an operation that threw the not-found error for [todoId]
    and left the file holding [matrix], unwritten, and the console as in
    [w]. *)
Definition fails_untouched (w : World) (matrix : TodoMatrix) (todoId : string)
    (result : Outcome TodoMatrix * World) : Prop :=
  result.1 = Thrown (NotFoundError todoId) ∧
  todoFile result.2 = Stored matrix ∧
  writes result.2 = writes w ∧
  console result.2 = console w.

(** The result of an operation that ended as the store means it to: with a
    matrix, or with the not-found error. *)
Definition returns_or_not_found (result : Outcome TodoMatrix * World) : Prop :=
  (∃ matrix, result.1 = Returned matrix) ∨
  (∃ todoId, result.1 = Thrown (NotFoundError todoId)).

(** ** Sample data for the concrete checks *)

Module Sample.

(** A clock that reads the successive milliseconds of one second. *)
Definition clock (n : nat) : Timestamp :=
  "2026-03-01T10:00:00." +:+ pretty (100 + n) +:+ "Z".

Definition item (todoId priority0 urgency0 : string) (done : bool)
    (doneAt : option Timestamp) : TodoItem :=
  mkTodo todoId ("Task " +:+ todoId) "" priority0 urgency0 done
    "2026-02-01T08:00:00.000Z" doneAt [] [] [].

Definition alpha : TodoItem := item "alpha" "high" "urgent" false None.
Definition beta : TodoItem := item "beta" "high" "urgent" false None.
Definition gamma : TodoItem := item "gamma" "high" "urgent" false None.
Definition delta : TodoItem :=
  item "delta" "low" "urgent" true (Some "2026-02-02T09:00:00.000Z").

(** Created with a [createdAt] in the future of the clock. *)
Definition omega : TodoItem :=
  mkTodo "omega" "Task omega" "" "low" "not-urgent" false
    "2031-01-01T00:00:00.000Z" None [] [] [].

Definition matrix : TodoMatrix :=
  mkMatrix [alpha; beta; gamma] [] [delta] [omega] (mkStats 5 1 4)
    "2026-02-02T09:00:00.000Z".

Definition world : World := mkWorld (Stored matrix) [] 0 0.

Definition fresh : World := mkWorld Absent [] 0 0.

End Sample.


(** * The rest of the store, and its callers

    The functions of [src/lib/todo-tui.js] that read the store
    ([getTodoById], [getActiveTodos], [searchTodos]), the conversion between
    todos and thoughts ([todoToThought], [thoughtToTodo] with
    [extractDescription] and [extractLinks]), and the places of the terminal
    interface and of the command line ([src/unnamed/part_001]) that label
    rows, filter the listing and add items. *)

(** ** Reading the store: lookup, active items, search *)

(** More string primitives, on ASCII text as before.  On such text
    [toLowerCase], like [JS.toUpperCase], is the method of the code; beyond
    it the code also folds the letters of other alphabets, sometimes into
    more than one character, which these functions leave alone.  What is
    stated of letter case below is therefore stated of [ascii_text]. *)
Module JSText.

Definition lower_ascii (c : ascii) : ascii :=
  let n := N_of_ascii c in
  if ((65 <=? n) && (n <=? 90))%N then ascii_of_N (n + 32) else c.

(** [s.toLowerCase()], for a string of ASCII characters *)
Fixpoint toLowerCase (s : string) : string :=
  match s with
  | String c r => String (lower_ascii c) (toLowerCase r)
  | EmptyString => EmptyString
  end.

(** [s.includes(sub)] *)
Fixpoint includes (s sub : string) : bool :=
  String.prefix sub s ||
  match s with
  | String _ r => includes r sub
  | EmptyString => false
  end.

End JSText.

(** [Object.keys(matrix)] without ["stats"] and ["lastUpdated"], for a
    matrix whose keys stand in the order in which [loadTodoMatrix] creates
    them and in which [saveTodoMatrix] writes them back. *)
Definition quadrants : list QuadrantKey :=
  [key_important_urgent; key_important_not_urgent;
   key_not_important_urgent; key_not_important_not_urgent].

(** The loop of [getTodoById]: the first array, in the order [keys], that
    holds an item with the identifier gives the result. *)
Fixpoint findFirst (todoId : string) (matrix : TodoMatrix)
    (keys : list QuadrantKey) : option TodoItem :=
  match keys with
  | [] => None
  | quadrant :: keys =>
      match findIndex todoId (getQ matrix quadrant) with
      | Some (_, todo) => Some todo
      | None => findFirst todoId matrix keys
      end
  end.

(** The [searchOptions] argument of [searchTodos]: every property may be
    absent. *)
Record SearchOptions := mkSearch {
  search_text : option string;
  search_tags : option (list string);
  search_completed : option bool;
  search_priority : option string;
  search_urgency : option string
}.

Definition no_search : SearchOptions := mkSearch None None None None None.

(** [todo.title.toLowerCase().includes(searchText) ||
     todo.description.toLowerCase().includes(searchText)] *)
Definition matchesText (searchText : string) (todo : TodoItem) : bool :=
  JSText.includes (JSText.toLowerCase (title todo)) searchText ||
  JSText.includes (JSText.toLowerCase (description todo)) searchText.

(** [wanted.some((tag) => todo.tags.includes(tag))] *)
Definition matchesTags (wanted : list string) (todo : TodoItem) : bool :=
  existsb (λ tag, bool_decide (tag ∈ tags todo)) wanted.

(** The five filters of [searchTodos], applied one after the other. *)
Definition searchFilter (searchOptions : SearchOptions)
    (results : list TodoItem) : list TodoItem :=
  let results :=
    match or_null (search_text searchOptions) with
    | Some text =>
        let searchText := JSText.toLowerCase text in
        filter (λ todo, matchesText searchText todo = true) results
    | None => results
    end in
  let results :=
    match search_tags searchOptions with
    | Some (tag :: rest) =>
        filter (λ todo, matchesTags (tag :: rest) todo = true) results
    | _ => results
    end in
  let results :=
    match search_completed searchOptions with
    | Some wanted => filter (λ todo, completed todo = wanted) results
    | None => results
    end in
  let results :=
    match or_null (search_priority searchOptions) with
    | Some wanted => filter (λ todo, priority todo = wanted) results
    | None => results
    end in
  match or_null (search_urgency searchOptions) with
  | Some wanted => filter (λ todo, urgency todo = wanted) results
  | None => results
  end.

(** The options of the [todo --list] command that filter the listing. *)
Record ListOptions := mkList {
  list_completed : bool;             (* [--completed] *)
  list_active : bool;                (* [--active] *)
  list_priority : option string;
  list_urgency : option string;
  list_search : option string
}.

(** The filters that [todo --list] applies to the array of one quadrant. *)
Definition listQuadrant (options : ListOptions) (todos : list TodoItem)
    : list TodoItem :=
  let todos :=
    if list_completed options then filter (λ todo, completed todo = true) todos
    else if list_active options then filter (λ todo, completed todo = false) todos
    else todos in
  let todos :=
    match or_null (list_priority options) with
    | Some wanted => filter (λ todo, priority todo = wanted) todos
    | None => todos
    end in
  let todos :=
    match or_null (list_urgency options) with
    | Some wanted => filter (λ todo, urgency todo = wanted) todos
    | None => todos
    end in
  match or_null (list_search options) with
  | Some text =>
      let searchText := JSText.toLowerCase text in
      filter (λ todo, matchesText searchText todo = true) todos
  | None => todos
  end.

(** The groups that [todo --list] prints: the quadrants, in its fixed order,
    that keep an item, each with the items it keeps. *)
Definition listGroups (options : ListOptions) (matrix : TodoMatrix)
    : list (QuadrantKey * list TodoItem) :=
  filter (λ group, 0 < length group.2)
    ((λ quadrant, (quadrant, listQuadrant options (getQ matrix quadrant))) <$>
     [key_important_urgent; key_important_not_urgent;
      key_not_important_urgent; key_not_important_not_urgent]).

(** The search options that ask for what the listing options ask for. *)
Definition search_of_list (options : ListOptions) : SearchOptions :=
  {| search_text := list_search options;
     search_tags := None;
     search_completed :=
       if list_completed options then Some true
       else if list_active options then Some false
       else None;
     search_priority := list_priority options;
     search_urgency := list_urgency options |}.

(** The label that [updateQuadrant] of the terminal interface gives the row
    at [index] of the list of a quadrant. *)
Definition rowDisplayId (quadrant : QuadrantKey) (index : nat) : string :=
  QUADRANT_PREFIX_MAP quadrant +:+ JS.number_to_string (index + 1).

(** [getDisplayIdForTodo] of the terminal interface, on the matrix it
    shows. *)
Definition getDisplayIdForTodo (matrix : TodoMatrix) (todo : TodoItem) : string :=
  let quadrantKey := getQuadrantKey todo in
  let quadrantPrefix := QUADRANT_PREFIX_MAP quadrantKey in
  match findIndex (id todo) (getQ matrix quadrantKey) with
  | Some (position, _) => quadrantPrefix +:+ JS.number_to_string (position + 1)
  | None => String.substring 0 6 (id todo)
  end.

Section Queries.

Variable clock : nat → Timestamp.

Definition getTodoById (todoId : string) : M (option TodoItem) :=
  matrix ← loadTodoMatrix clock;
  todoId ←
    (if isUserFriendlyId todoId then
       uuid ← call (resolveUserFriendlyId matrix todoId);
       mret (default todoId (or_null uuid))
     else mret todoId);
  mret (findFirst todoId matrix quadrants).

Definition getActiveTodos : M (TodoMatrix * list TodoItem) :=
  matrix ← loadTodoMatrix clock;
  let activeTodos :=
    mjoin ((λ quadrant, filter (λ todo, completed todo = false) (getQ matrix quadrant))
           <$> quadrants) in
  mret (matrix, activeTodos).

Definition searchTodos (searchOptions : SearchOptions) : M (list TodoItem) :=
  matrix ← loadTodoMatrix clock;
  let results := mjoin (getQ matrix <$> quadrants) in
  mret (searchFilter searchOptions results).

End Queries.

(** ** Thoughts: a todo rendered as a note, a note read as a todo *)

(** The string primitives and the regular expressions of the conversion.
    None of the expressions needs backtracking: each repetition takes the
    longest run of a class of characters, and what must follow the run is
    not in the class. *)
Module Text.

(** The line feed, written [\n] in the source. *)
Definition LF : string := String "010"%char EmptyString.

(** The line terminators, which [.] does not match: LF and CR. *)
Definition is_line_terminator (c : ascii) : bool :=
  let n := N_of_ascii c in ((n =? 10) || (n =? 13))%N.

(** What the group of any characters, [.] starred, matches at the head
    of [s]: the rest of the line. *)
Fixpoint take_line (s : string) : string :=
  match s with
  | String c r => if is_line_terminator c then EmptyString else String c (take_line r)
  | EmptyString => EmptyString
  end.

(** [s.split(sep)] for a separator of one character: never the empty
    list. *)
Fixpoint split (sep : ascii) (s : string) : list string :=
  match s with
  | EmptyString => [EmptyString]
  | String c r =>
      if Ascii.eqb c sep then EmptyString :: split sep r
      else match split sep r with
           | piece :: pieces => String c piece :: pieces
           | [] => [String c EmptyString]
           end
  end.

(** [pieces.join(sep)] *)
Fixpoint join (sep : string) (pieces : list string) : string :=
  match pieces with
  | [] => EmptyString
  | [piece] => piece
  | piece :: pieces => piece +:+ sep +:+ join sep pieces
  end.

(** [lines.slice(first, last)] *)
Definition slice {A} (first last : nat) (l : list A) : list A :=
  take (last - first) (drop first l).

(** [s.startsWith(prefix)] *)
Definition startsWith (s prefix : string) : bool := String.prefix prefix s.

(** The longest run of characters of the class [p] at the head of [s], and
    what follows it. *)
Fixpoint span (p : ascii → bool) (s : string) : string * string :=
  match s with
  | String c r =>
      if p c then let '(run, rest) := span p r in (String c run, rest)
      else (EmptyString, s)
  | EmptyString => (EmptyString, EmptyString)
  end.

(** A literal matched under the flag [i] at the head of [s]: what follows
    it. *)
Fixpoint literal_i (literal s : string) : option string :=
  match literal, s with
  | EmptyString, _ => Some s
  | String k literal, String c r =>
      if Ascii.eqb (JS.upper_ascii k) (JS.upper_ascii c) then literal_i literal r
      else None
  | String _ _, EmptyString => None
  end.

(** A literal matched as it is written. *)
Fixpoint literal (lit s : string) : option string :=
  match lit, s with
  | EmptyString, _ => Some s
  | String k lit, String c r => if Ascii.eqb k c then literal lit r else None
  | String _ _, EmptyString => None
  end.

(** [line.match] of the expression that reads [#] at the start, white
    space ([\s+]) and then the group of any characters: the group, or
    [None]. *)
Definition match_heading (line : string) : option string :=
  match line with
  | String "#"%char (String c r) =>
      if JS.is_white c then Some (take_line (JS.skip_white r)) else None
  | _ => None
  end.

(** The expressions of the metadata, under the flag [i]: [>], white space
    ([\s*]), a literal [key] such as [Priority:], white space again and the
    group of any characters.  Matched at the head of [s]: the group, or
    [None]. *)
Definition match_meta_here (key s : string) : option string :=
  match s with
  | String ">"%char r =>
      match literal_i key (JS.skip_white r) with
      | Some rest => Some (take_line (JS.skip_white rest))
      | None => None
      end
  | _ => None
  end.

(** [content.match] of such an expression: the group of the leftmost
    match. *)
Fixpoint match_meta (key s : string) : option string :=
  match match_meta_here key s with
  | Some group => Some group
  | None =>
      match s with
      | String _ r => match_meta key r
      | EmptyString => None
      end
  end.

(** [/\[([^\]]+)\]\(([^)]+)\)/] at the head of [s]: the two groups and the
    number of characters matched. *)
Definition match_markdown_here (s : string) : option (string * string * nat) :=
  match s with
  | String "["%char r =>
      let '(label, r) := span (λ c, negb (Ascii.eqb c "]")) r in
      match label, r with
      | String _ _, String "]"%char (String "("%char r) =>
          let '(target, r) := span (λ c, negb (Ascii.eqb c ")")) r in
          match target, r with
          | String _ _, String ")"%char _ =>
              Some (label, target, String.length label + String.length target + 4)
          | _, _ => None
          end
      | _, _ => None
      end
  | _ => None
  end.

(** [/(?<!\()(https?:\/\/[^\s)]+)/] at the head of [s], which the
    character [previous] precedes: the group. *)
Definition match_url_here (previous : option ascii) (s : string) : option string :=
  if bool_decide (previous = Some "("%char) then None
  else
    match literal "http" s with
    | Some r =>
        let '(scheme, r) :=
          match r with
          | String "s"%char r' => ("https", r')
          | _ => ("http", r)
          end in
        match literal "://" r with
        | Some r =>
            let '(run, _) := span (λ c, negb (JS.is_white c || Ascii.eqb c ")")) r in
            match run with
            | String _ _ => Some (scheme +:+ "://" +:+ run)
            | EmptyString => None
            end
        | None => None
        end
    | None => None
    end.

End Text.

(** The first loop of [extractDescription] from the line at index [i] on:
    the value of [startLine] when the loop ends. *)
Fixpoint metadataEnd (lines : list string) (i startLine : nat) : nat :=
  match lines with
  | [] => startLine
  | line :: lines =>
      if Text.startsWith line ">" then metadataEnd lines (S i) i
      else if (0 <? startLine) && String.eqb (JS.trim line) "" then i
      else metadataEnd lines (S i) startLine
  end.

(** The second loop: the index of the first line from [first] on that
    starts a heading, or the number of lines. *)
Definition headingFrom (lines : list string) (first : nat) : nat :=
  match list_find (λ line, Text.startsWith line "#" = true) (drop first lines) with
  | Some (k, _) => first + k
  | None => length lines
  end.

Definition extractDescription (content : string) : string :=
  let lines := Text.split "010" content in
  let startLine := metadataEnd lines 0 0 in
  let endLine := headingFrom lines (startLine + 1) in
  JS.trim (Text.join Text.LF (Text.slice (startLine + 1) endLine lines)).

(** The loop over the matches of the first expression of [extractLinks]:
    [skip] characters are still part of the last match. *)
Fixpoint markdownLinks (s : string) (skip : nat) : list string :=
  match s with
  | EmptyString => []
  | String _ r =>
      match skip with
      | S skip => markdownLinks r skip
      | 0 =>
          match Text.match_markdown_here s with
          | Some (label, target, matched) =>
              (label +:+ ": " +:+ target) :: markdownLinks r (matched - 1)
          | None => markdownLinks r 0
          end
      end
  end.

(** The loop over the matches of the second expression, which pushes onto
    [links]. *)
Fixpoint urlLinks (previous : option ascii) (s : string) (skip : nat)
    (links : list string) : list string :=
  match s with
  | EmptyString => links
  | String c r =>
      match skip with
      | S skip => urlLinks (Some c) r skip links
      | 0 =>
          match Text.match_url_here previous s with
          | Some url =>
              let links :=
                if existsb (λ link, JSText.includes link url) links then links
                else links ++ [url] in
              urlLinks (Some c) r (String.length url - 1) links
          | None => urlLinks (Some c) r 0 links
          end
      end
  end.

Definition extractLinks (content : string) : list string :=
  urlLinks None content 0 (markdownLinks content 0).

(** The text that [todoToThought] writes for [todo]; [created] is
    [new Date(todo.createdAt).toLocaleString()]. *)
Definition thoughtContent (created : string) (todo : TodoItem) : string :=
  let content := "# " +:+ title todo +:+ Text.LF +:+ Text.LF in
  let content :=
    content +:+ "> Priority: " +:+
    (if String.eqb (priority todo) "high" then "High" else "Low") +:+ Text.LF in
  let content :=
    content +:+ "> Urgency: " +:+
    (if String.eqb (urgency todo) "urgent" then "Urgent" else "Not Urgent") +:+ Text.LF in
  let content :=
    if 0 <? length (tags todo)
    then content +:+ "> Tags: " +:+ Text.join ", " (tags todo) +:+ Text.LF
    else content in
  let content := content +:+ "> Created: " +:+ created +:+ Text.LF +:+ Text.LF in
  let content :=
    if String.eqb (description todo) "" then content
    else content +:+ description todo +:+ Text.LF +:+ Text.LF in
  if 0 <? length (links todo)
  then
    let content := content +:+ "## Links & References" +:+ Text.LF +:+ Text.LF in
    let content :=
      foldl (λ content link, content +:+ "- " +:+ link +:+ Text.LF) content (links todo) in
    content +:+ Text.LF
  else content.

(** The options that [thoughtToTodo] reads from the text of a thought, over
    the [todoOptions] of its caller. *)
Definition thoughtOptions (content : string) (todoOptions : TodoOptions) : TodoOptions :=
  let priorityMatch := Text.match_meta "Priority:" content in
  let urgencyMatch := Text.match_meta "Urgency:" content in
  let tagsMatch := Text.match_meta "Tags:" content in
  {| opt_id := opt_id todoOptions;
     opt_description := Some (extractDescription content);
     opt_priority :=
       Some (if match priorityMatch with
                | Some group => JSText.includes (JSText.toLowerCase group) "high"
                | None => false
                end
             then "high" else "low");
     opt_urgency :=
       Some (if match urgencyMatch with
                | Some group => JSText.includes (JSText.toLowerCase group) "urgent"
                | None => false
                end
             then "urgent" else "not-urgent");
     opt_completed := opt_completed todoOptions;
     opt_createdAt := opt_createdAt todoOptions;
     opt_completedAt := opt_completedAt todoOptions;
     opt_tags :=
       Some (match tagsMatch with
             | Some group => JS.trim <$> Text.split "," group
             | None => []
             end);
     opt_links := Some (extractLinks content);
     opt_metadata := opt_metadata todoOptions |}.

(** The title that [thoughtToTodo] reads: the heading of the first line, or
    else [basename], which is [path.basename(thoughtPath, ".md")]. *)
Definition thoughtTitle (basename content : string) : string :=
  let lines := Text.split "010" content in
  match Text.match_heading (hd "" lines) with
  | Some group => group
  | None => basename
  end.

Section Thoughts.

Variable clock : nat → Timestamp.

(** The libraries of the conversion: [slugify] with its options,
    [path.join] and [Date.prototype.toLocaleString]. *)
Variable slugify : string → string.
Variable path_join : string → string → string.
Variable toLocaleString : Timestamp → string.

(** [todoToThought(thoughtsDir, todoId)].  The result is the path returned
    together with the text written there; the file of the store is not
    written. *)
Definition todoToThought (thoughtsDir todoId : string) : M (string * string) :=
  todo ← getTodoById clock todoId;
  match todo with
  | None => throw (NotFoundError todoId)
  | Some todo =>
      ts ← now clock;
      let timestamp :=
        hd "" (Text.split "." (Text.join "-" (Text.split ":" ts))) in
      let safeTitle := slugify (title todo) in
      let filename := timestamp +:+ "-" +:+ safeTitle +:+ ".md" in
      let filepath := path_join thoughtsDir filename in
      mret (filepath, thoughtContent (toLocaleString (createdAt todo)) todo)
  end.

(** [thoughtToTodo(thoughtsDir, thoughtPath, todoOptions)].  [file] is
    what the thought file holds, [None] when it cannot be read; [uuid] is
    the value that [uuidv4()] yields when it is asked. *)
Definition thoughtToTodo (uuid basename : string) (file : option string)
    (todoOptions : TodoOptions) : M TodoItem :=
  content ← (match file with
             | Some content => mret content
             | None => throw SystemError
             end);
  let title := thoughtTitle basename content in
  let options := thoughtOptions content todoOptions in
  ts ← now clock;
  let todo := createTodo ts uuid title options in
  addTodo clock todo;;
  mret todo.

End Thoughts.

(** ** Adding an item from the two interfaces *)

(** [value ? value.split(",").map((t) => t.trim()) : []] *)
Definition parseTags (value : string) : list string :=
  if String.eqb value "" then [] else JS.trim <$> Text.split "," value.

(** The validation of the title prompt of [todo --add]: [None] is [true],
    otherwise the message. *)
Definition validateTitle (input : string) : option string :=
  if String.eqb input "" then Some "Title is required" else None.

(** What pressing the submit button of the add form leads to: a message, or
    the matrix that the interface goes on to show. *)
Inductive Submitted :=
  | Refused (message : string)
  | Added (matrix : TodoMatrix).

Section Interfaces.

Variable clock : nat → Timestamp.

(** The handler of the submit button of the add form of the terminal
    interface, on the values of the form: the title, whether the radio
    buttons for a high priority and for urgent are checked, and the tags. *)
Definition submitAddForm (uuid title : string) (highChecked urgentChecked : bool)
    (tagsValue : string) : M Submitted :=
  if String.eqb title "" then mret (Refused "Title is required")
  else
    let priority := if highChecked then "high" else "low" in
    let urgency := if urgentChecked then "urgent" else "not-urgent" in
    let tags := parseTags tagsValue in
    ts ← now clock;
    let todo :=
      createTodo ts uuid title
        (mkOptions None None (Some priority) (Some urgency) None None None
           (Some tags) None None) in
    matrix ← addTodo clock todo;
    mret (Added matrix).

(** The part of [todo --add] that follows the prompts, on the answers. *)
Definition commandAdd (uuid title priority urgency tags description : string)
    : M TodoMatrix :=
  ts ← now clock;
  let todo :=
    createTodo ts uuid title
      (mkOptions None (Some description) (Some priority) (Some urgency) None None None
         (Some (parseTags tags)) None None) in
  addTodo clock todo.

End Interfaces.

(** ** Further notions *)

(** The statistics of the matrix are those of its content. *)
Definition stats_agree (matrix : TodoMatrix) : Prop :=
  stats matrix = computeStats matrix.

(** The file, when it holds a matrix, holds one whose statistics agree. *)
Definition world_counted (w : World) : Prop :=
  ∀ matrix, todoFile w = Stored matrix → stats_agree matrix.

(** An item without its completion state. *)
Definition forget_completion (todo : TodoItem) : TodoItem :=
  set_completed false (set_completedAt None todo).

(** Operations that cannot make two items share an identifier: an addition
    of an item whose identifier is new, an update that does not patch the
    identifier, a toggle or a deletion. *)
Definition keeps_ids_apart (matrix : TodoMatrix) (op : Op) : Prop :=
  match op with
  | OpAdd todo => id todo ∉ id <$> allTodos matrix
  | OpUpdate _ updates => upd_id updates = None
  | OpToggle _ | OpDelete _ => True
  end.

(** The identifier that [getTodoById] searches the arrays for: what a
    display identifier resolves to, unless that is [null] or empty. *)
Definition lookup_key (matrix : TodoMatrix) (todoId : string) : string :=
  if isUserFriendlyId todoId then
    match resolveUserFriendlyId matrix todoId with
    | Returned uuid => default todoId (or_null uuid)
    | Thrown _ => todoId
    end
  else todoId.

(** The conjunction of the criteria that [searchOptions] gives: a text that
    is not empty, a list of tags that is not empty, a completion state, a
    priority and an urgency that are not empty. *)
Definition meets (searchOptions : SearchOptions) (todo : TodoItem) : bool :=
  match or_null (search_text searchOptions) with
  | Some text => matchesText (JSText.toLowerCase text) todo
  | None => true
  end &&
  match search_tags searchOptions with
  | Some (tag :: rest) => matchesTags (tag :: rest) todo
  | _ => true
  end &&
  match search_completed searchOptions with
  | Some wanted => bool_decide (completed todo = wanted)
  | None => true
  end &&
  match or_null (search_priority searchOptions) with
  | Some wanted => bool_decide (priority todo = wanted)
  | None => true
  end &&
  match or_null (search_urgency searchOptions) with
  | Some wanted => bool_decide (urgency todo = wanted)
  | None => true
  end.

(** [searchOptions] with the text replaced. *)
Definition with_text (text : string) (searchOptions : SearchOptions) : SearchOptions :=
  mkSearch (Some text) (search_tags searchOptions) (search_completed searchOptions)
    (search_priority searchOptions) (search_urgency searchOptions).

(** Every character of [s] is of the class [p]. *)
Fixpoint all_chars (p : ascii → bool) (s : string) : bool :=
  match s with
  | String c r => p c && all_chars p r
  | EmptyString => true
  end.

(** [s] is made of ASCII characters: the strings on which [JS.toUpperCase]
    and [JSText.toLowerCase] are the methods of the code. *)
Definition ascii_text (s : string) : Prop :=
  all_chars (λ c, (N_of_ascii c <? 128)%N) s = true.

(** The character [c] does not occur in [s]. *)
Definition free_of (c : ascii) (s : string) : Prop :=
  all_chars (λ x, negb (Ascii.eqb x c)) s = true.

(** [s] holds no line terminator. *)
Definition one_line (s : string) : Prop :=
  all_chars (λ c, negb (Text.is_line_terminator c)) s = true.

(** The priority and the urgency as the rendering of a thought tells them
    apart: whether the field is the marked value or anything else. *)
Definition priority_class (todo : TodoItem) : string :=
  if String.eqb (priority todo) "high" then "high" else "low".

(** No line of [s] starts a heading. *)
Definition no_heading (s : string) : Prop :=
  Forall (λ line, Text.startsWith line "#" = false) (Text.split "010" s).

(** The lines of [s] in front of the first one that starts a heading,
    joined again; [s] itself when no line starts one. *)
Definition beforeHeading (s : string) : string :=
  let lines := Text.split "010" s in
  match list_find (λ line, Text.startsWith line "#" = true) lines with
  | Some (index, _) => Text.join Text.LF (take index lines)
  | None => s
  end.

(** The text of a thought in three parts: the heading with the metadata,
    one blank line, and the description with the links. *)
Definition thoughtHead (created : string) (todo : TodoItem) : list string :=
  ["# " +:+ title todo; "";
   "> Priority: " +:+ (if String.eqb (priority todo) "high" then "High" else "Low");
   "> Urgency: " +:+ (if String.eqb (urgency todo) "urgent" then "Urgent" else "Not Urgent")]
  ++ (if 0 <? length (tags todo) then ["> Tags: " +:+ Text.join ", " (tags todo)] else [])
  ++ ["> Created: " +:+ created].

Definition thoughtLinks (todo : TodoItem) : string :=
  if 0 <? length (links todo)
  then "## Links & References" +:+ Text.LF +:+ Text.LF +:+
       foldl (λ content link, content +:+ "- " +:+ link +:+ Text.LF) "" (links todo) +:+ Text.LF
  else "".

Definition thoughtTail (todo : TodoItem) : string :=
  (if String.eqb (description todo) "" then "" else description todo +:+ Text.LF +:+ Text.LF) +:+
  thoughtLinks todo.


(** A list of entries that the second loop of [extractLinks] can have
    pushed onto [links]: each one starts like a URL and is part of no entry
    in front of it. *)
Inductive pushed (links : list string) : list string → Prop :=
  | pushed_nil : pushed links []
  | pushed_cons url urls :
      Text.startsWith url "http" = true →
      Forall (λ link, JSText.includes link url = false) links →
      pushed (links ++ [url]) urls →
      pushed links (url :: urls).

(** A text written as stretches of plain text, each followed by a markdown
    link, and a last stretch [rest]; a part is a stretch, a label and a
    target. *)
Fixpoint linkedText (parts : list (string * string * string)) (rest : string) : string :=
  match parts with
  | [] => rest
  | (plain, label, target) :: parts =>
      plain +:+ "[" +:+ label +:+ "](" +:+ target +:+ ")" +:+ linkedText parts rest
  end.

(** The stretch opens no link, and the label and the target are such that
    the link closes where it is written to close. *)
Definition well_linked (part : string * string * string) : Prop :=
  let '(plain, label, target) := part in
  free_of "[" plain ∧ label ≠ "" ∧ target ≠ "" ∧ free_of "]" label ∧ free_of ")" target.

(** The entry of [extractLinks] for the link of a part. *)
Definition linkEntry (part : string * string * string) : string :=
  let '(_, label, target) := part in label +:+ ": " +:+ target.

(** The characters that the second expression of [extractLinks] takes for
    part of a URL: any but white space and [)]. *)
Definition url_char (c : ascii) : bool := negb (JS.is_white c || Ascii.eqb c ")").

(** [url] is a URL as that expression reads one: [http://] or [https://]
    and at least one more character, all of them [url_char]s. *)
Definition is_url (url : string) : Prop :=
  ∃ run, (url = "http://" +:+ run ∨ url = "https://" +:+ run) ∧
         run ≠ "" ∧ all_chars url_char run = true.

(** A URL in front of [s] ends there: [s] is empty or starts with white
    space or [)]. *)
Definition ends_url (s : string) : Prop :=
  match s with
  | String c _ => url_char c = false
  | EmptyString => True
  end.

(** [s] is empty or ends in white space. *)
Definition ends_white (s : string) : Prop :=
  s = "" ∨ ∃ front w, s = front +:+ String w "" ∧ JS.is_white w = true.

(** The next [skip] characters of [s] are [url_char]s: the second loop is
    inside a match. *)
Fixpoint url_ahead (skip : nat) (s : string) : Prop :=
  match skip, s with
  | 0, _ => True
  | S skip, String c r => url_char c = true ∧ url_ahead skip r
  | S _, EmptyString => False
  end.

(** The patch that sets the completion flag and nothing else. *)
Definition completion_patch (flag : bool) : Updates :=
  mkUpdates None None None None None (Some flag) None None None None None.

(** The identifiers that the file holds. *)
Definition stored_ids (w : World) : list string :=
  match todoFile w with
  | Stored matrix => id <$> allTodos matrix
  | _ => []
  end.

(** A run in which every addition brings an identifier that the file does
    not hold at that moment and no update patches the identifier, as in the
    runs that the two interfaces issue. *)
Fixpoint apart_run (clock : nat → Timestamp) (ops : list Op) (w : World) : Prop :=
  match ops with
  | [] => True
  | op :: rest =>
      match op with
      | OpAdd todo => id todo ∉ stored_ids w
      | OpUpdate _ updates => upd_id updates = None
      | OpToggle _ | OpDelete _ => True
      end ∧ apart_run clock rest (perform clock op w).2
  end.

(** The file, when it holds a matrix, holds one with unique identifiers. *)
Definition world_unique (w : World) : Prop :=
  ∀ matrix, todoFile w = Stored matrix → unique_ids matrix.

(** ** More sample data *)

Module Shadow.

(** An item whose [id] reads like the label of a row of the second
    quadrant, which is empty. *)
Definition item : TodoItem := Sample.item "B1" "high" "urgent" false None.

Definition matrix : TodoMatrix :=
  mkMatrix [Sample.alpha; item] [] [] [] (mkStats 2 0 2) "2026-02-02T09:00:00.000Z".

Definition world : World := mkWorld (Stored matrix) [] 0 0.

End Shadow.
(** * Properties *)

(** ** Reading and writing a quadrant *)

Lemma getQ_setQ_eq matrix quadrant l : getQ (setQ matrix quadrant l) quadrant = l.
Proof. by destruct quadrant. Qed.

Lemma getQ_setQ_ne matrix quadrant quadrant' l :
  quadrant ≠ quadrant' → getQ (setQ matrix quadrant l) quadrant' = getQ matrix quadrant'.
Proof. by destruct quadrant, quadrant'. Qed.

Lemma getQ_setQ matrix quadrant quadrant' l :
  getQ (setQ matrix quadrant l) quadrant' =
  if decide (quadrant = quadrant') then l else getQ matrix quadrant'.
Proof.
  case_decide as Hq; [subst; apply getQ_setQ_eq | by apply getQ_setQ_ne].
Qed.

Lemma getQ_set_stats s ts matrix quadrant :
  getQ (set_stats s ts matrix) quadrant = getQ matrix quadrant.
Proof. by destruct quadrant. Qed.

Lemma allTodos_set_stats s ts matrix : allTodos (set_stats s ts matrix) = allTodos matrix.
Proof. done. Qed.

Lemma elem_of_allTodos matrix todo :
  todo ∈ allTodos matrix ↔ ∃ quadrant, todo ∈ getQ matrix quadrant.
Proof.
  unfold allTodos. rewrite !elem_of_app. split.
  - intros [H|[H|[H|H]]];
      [by exists key_important_urgent | by exists key_important_not_urgent
      | by exists key_not_important_urgent | by exists key_not_important_not_urgent].
  - intros [[] H]; simpl in H; tauto.
Qed.

(** ** Running the monad *)

Lemma bind_run {A B} (m : M A) (f : A → M B) w :
  (m ≫= f) w =
  match m w with
  | (Returned a, w') => f a w'
  | (Thrown e, w') => (Thrown e, w')
  end.
Proof. done. Qed.

Ltac run_M :=
  unfold mbind, M_bind, mret, M_ret, throw, call, try_catch, pathExists,
    readJSON, writeJSON, console_warn, now in *; simpl in *.

Section LoadSave.

Variable clock : nat → Timestamp.

Lemma load_stored w matrix :
  todoFile w = Stored matrix →
  loadTodoMatrix clock w =
  (Returned matrix, mkWorld (Stored matrix) (console w) (S (ticks w)) (writes w)).
Proof. intros H. unfold loadTodoMatrix. run_M. by rewrite H. Qed.

Lemma load_absent w :
  todoFile w = Absent →
  let fresh := emptyMatrix (clock (ticks w)) in
  loadTodoMatrix clock w =
  (Returned fresh, mkWorld (Stored fresh) (console w) (S (ticks w)) (S (writes w))).
Proof. intros H. unfold loadTodoMatrix. run_M. by rewrite H. Qed.

Lemma load_unparsable w raw :
  todoFile w = Unparsable raw →
  let fresh := emptyMatrix (clock (ticks w)) in
  loadTodoMatrix clock w =
  (Returned fresh,
   mkWorld (Stored fresh)
     (console w ++ ["Error loading todo matrix, creating new one:"])
     (S (ticks w)) (S (writes w))).
Proof. intros H. unfold loadTodoMatrix. run_M. by rewrite H. Qed.

(** Loading always returns, leaves the file holding what it returned, and
    what it returns is the stored matrix or an empty one. *)
Lemma load_returns w : ∃ matrix w', loaded clock w matrix w'.
Proof.
  unfold loaded. destruct (todoFile w) as [|raw|matrix] eqn:Hf.
  - eexists _, _. rewrite (load_absent w Hf). simpl. eauto 6.
  - eexists _, _. rewrite (load_unparsable w raw Hf). simpl. eauto 6.
  - eexists _, _. rewrite (load_stored w matrix Hf). simpl. eauto 6.
Qed.

Lemma save_run matrix w :
  let saved := set_stats (computeStats matrix) (clock (ticks w)) matrix in
  saveTodoMatrix clock matrix w =
  (Returned saved, mkWorld (Stored saved) (console w) (S (ticks w)) (S (writes w))).
Proof. done. Qed.

End LoadSave.

(** ** Loading a malformed store *)

(** C9. When the file exists and its text does not parse, [loadTodoMatrix]
    returns the empty default matrix, overwrites the file with that default
    (one write) and logs one warning; when the file holds a matrix, that
    matrix is returned as parsed and the file is neither changed nor
    written. *)
Theorem load_malformed_overwrites (clock : nat → Timestamp) :
  (∀ raw lines k n,
     let fresh := emptyMatrix (clock k) in
     allTodos fresh = [] ∧ stats fresh = mkStats 0 0 0 ∧
     loadTodoMatrix clock (mkWorld (Unparsable raw) lines k n) =
     (Returned fresh,
      mkWorld (Stored fresh)
        (lines ++ ["Error loading todo matrix, creating new one:"]) (S k) (S n))) ∧
  (∀ matrix lines k n,
     loadTodoMatrix clock (mkWorld (Stored matrix) lines k n) =
     (Returned matrix, mkWorld (Stored matrix) lines (S k) n)).
Proof.
  split.
  - intros raw lines k n fresh. repeat split.
  - intros matrix lines k n. done.
Qed.

(** ** Identifiers that name nothing *)

Section NotFound.

Variable clock : nat → Timestamp.

Lemma updateInQuadrant_none todoId updates quadrant matrix found w :
  findIndex todoId (getQ matrix quadrant) = None →
  updateInQuadrant clock todoId updates quadrant (matrix, found) w =
  (Returned (matrix, found), w).
Proof. intros H. unfold updateInQuadrant. by rewrite H. Qed.

Lemma toggleInQuadrant_none todoId quadrant matrix found w :
  findIndex todoId (getQ matrix quadrant) = None →
  toggleInQuadrant clock todoId quadrant (matrix, found) w =
  (Returned (matrix, found), w).
Proof. intros H. unfold toggleInQuadrant. by rewrite H. Qed.

Lemma deleteFromQuadrant_none todoId quadrant matrix found :
  findIndex todoId (getQ matrix quadrant) = None →
  deleteFromQuadrant todoId quadrant (matrix, found) = (matrix, found).
Proof. intros H. unfold deleteFromQuadrant. by rewrite H. Qed.

Lemma findIndex_None_all matrix todoId :
  Forall (λ todo, id todo ≠ todoId) (allTodos matrix) →
  ∀ quadrant, findIndex todoId (getQ matrix quadrant) = None.
Proof.
  intros H quadrant. apply list_find_None, Forall_forall.
  intros todo Hin. rewrite Forall_forall in H. apply H.
  apply elem_of_allTodos. eauto.
Qed.

Lemma resolveIfFriendly_nothing matrix todoId :
  resolves_to_nothing matrix todoId →
  resolveIfFriendly matrix todoId = Thrown (NotFoundError todoId) ∨
  (resolveIfFriendly matrix todoId = Returned todoId ∧
   ∀ quadrant, findIndex todoId (getQ matrix quadrant) = None).
Proof.
  unfold resolves_to_nothing, resolveIfFriendly.
  destruct (isUserFriendlyId todoId).
  - intros ->. by left.
  - intros H. right. split; [done | by apply findIndex_None_all].
Qed.

Lemma not_found_cases w matrix todoId updates operation :
  todoFile w = Stored matrix →
  resolves_to_nothing matrix todoId →
  operation ∈ [updateTodo clock todoId updates; toggleTodo clock todoId;
               deleteTodo clock todoId] →
  operation w =
  (Thrown (NotFoundError todoId),
   mkWorld (Stored matrix) (console w) (S (ticks w)) (writes w)).
Proof.
  intros Hfile Hnone Hop.
  destruct (resolveIfFriendly_nothing matrix todoId Hnone) as [Hr|[Hr Hfind]].
  - apply elem_of_cons in Hop as [->|Hop];
      [|apply elem_of_cons in Hop as [->|Hop];
        [|apply list_elem_of_singleton in Hop as ->]];
      unfold updateTodo, toggleTodo, deleteTodo;
      rewrite bind_run, (load_stored clock w matrix Hfile), bind_run;
      unfold call; by rewrite Hr.
  - apply elem_of_cons in Hop as [->|Hop];
      [|apply elem_of_cons in Hop as [->|Hop];
        [|apply list_elem_of_singleton in Hop as ->]];
      unfold updateTodo, toggleTodo, deleteTodo;
      rewrite bind_run, (load_stored clock w matrix Hfile), bind_run;
      unfold call; rewrite Hr.
    + by repeat (rewrite bind_run, updateInQuadrant_none by apply Hfind).
    + by repeat (rewrite bind_run, toggleInQuadrant_none by apply Hfind).
    + by rewrite !deleteFromQuadrant_none by apply Hfind.
Qed.

(** C7. When the file holds a matrix in which the identifier names
    nothing, each of [updateTodo], [toggleTodo] and [deleteTodo] throws the
    not-found error for that identifier, and the file holds the same
    matrix as before, has not been written, and nothing was logged. *)
Theorem not_found_is_atomic w matrix todoId updates :
  todoFile w = Stored matrix →
  resolves_to_nothing matrix todoId →
  fails_untouched w matrix todoId (updateTodo clock todoId updates w) ∧
  fails_untouched w matrix todoId (toggleTodo clock todoId w) ∧
  fails_untouched w matrix todoId (deleteTodo clock todoId w).
Proof.
  intros Hfile Hnone. unfold fails_untouched.
  rewrite !(not_found_cases w matrix todoId updates _ Hfile Hnone).
  - done.
  - do 2 apply list_elem_of_further. apply list_elem_of_here.
  - apply list_elem_of_further, list_elem_of_here.
  - apply list_elem_of_here.
Qed.

End NotFound.

(** The atomicity above is relative to a stored matrix.  When the file is
    missing, the load at the start of the operation has already written the
    empty default by the time the identifier is found to name nothing. *)
Example not_found_on_missing_file :
  ∃ w', toggleTodo Sample.clock "A1" Sample.fresh = (Thrown (NotFoundError "A1"), w') ∧
        todoFile w' = Stored (emptyMatrix (Sample.clock 0)) ∧ writes w' = 1.
Proof. eexists. by vm_compute. Qed.

(** ** Facts about the string primitives *)

Module JSFacts.
Import JS.

Ltac by_cases_on c :=
  destruct c as [[] [] [] [] [] [] [] []]; try discriminate; try reflexivity.

Lemma digit_not_white c : is_digit c = true → is_white c = false.
Proof. by_cases_on c. Qed.

Lemma digit_upper c : is_digit c = true → upper_ascii c = c.
Proof. by_cases_on c. Qed.

Lemma digit_not_sign c : is_digit c = true → c ≠ "-"%char ∧ c ≠ "+"%char.
Proof. by_cases_on c; intros _; split; discriminate. Qed.


Lemma all_digits_upper s : all_digits s = true → toUpperCase s = s.
Proof.
  induction s as [|c r IH]; [done|]. simpl.
  intros [Hc Hr]%andb_prop. by rewrite (digit_upper c Hc), IH.
Qed.

Lemma parseInt_digits s :
  starts_with_digit s = true → parseInt s = Some (Z.of_N (digits_acc s 0)).
Proof.
  destruct s as [|c r]; [done|]. simpl. intros Hc.
  unfold parseInt. simpl. rewrite (digit_not_white c Hc).
  destruct (digit_not_sign c Hc) as [Hm Hp].
  assert (match String c r with
          | String "-"%char r' => ((-1)%Z, r')
          | String "+"%char r' => (1%Z, r')
          | _ => (1%Z, String c r)
          end = (1%Z, String c r)) as ->.
  { revert Hc. clear. by_cases_on c. }
  simpl. rewrite Hc. f_equal. lia.
Qed.

Lemma pretty_char_is_digit x : is_digit (pretty_N_char x) = true.
Proof. unfold pretty_N_char. by repeat case_match. Qed.

Lemma pretty_char_value x : (x < 10)%N → digit_value (pretty_N_char x) = x.
Proof.
  intros Hx.
  assert (x = 0 ∨ x = 1 ∨ x = 2 ∨ x = 3 ∨ x = 4 ∨ x = 5 ∨ x = 6 ∨ x = 7
          ∨ x = 8 ∨ x = 9)%N as Hcases by lia.
  repeat (destruct Hcases as [->|Hcases]; [done|]). by subst.
Qed.

(** Reading back the digits that [pretty_N_go] puts in front of [s]. *)
Lemma digits_acc_pretty_go x s :
  ∃ k, ∀ acc, digits_acc (pretty_N_go x s) acc = digits_acc s (acc * 10 ^ k + x)%N.
Proof.
  revert s. induction (N.lt_wf_0 x) as [x _ IH]; intros s.
  assert (x = 0 ∨ 0 < x)%N as [->|Hpos] by lia.
  - exists 0%N. intros acc. rewrite pretty_N_go_0. f_equal. lia.
  - rewrite pretty_N_go_step by done.
    destruct (IH (x `div` 10)%N (N.div_lt x 10 Hpos eq_refl)
                (String (pretty_N_char (x `mod` 10)) s)) as [k Hk].
    exists (N.succ k). intros acc. rewrite Hk. simpl.
    rewrite pretty_char_is_digit, pretty_char_value by (by apply N.mod_lt).
    f_equal. rewrite N.pow_succ_r'.
    pose proof (N.div_mod x 10 ltac:(done)). lia.
Qed.

Lemma all_digits_pretty_go x s :
  all_digits s = true → all_digits (pretty_N_go x s) = true.
Proof.
  revert s. induction (N.lt_wf_0 x) as [x _ IH]; intros s Hs.
  assert (x = 0 ∨ 0 < x)%N as [->|Hpos] by lia.
  - by rewrite pretty_N_go_0.
  - rewrite pretty_N_go_step by done.
    apply IH; [by apply N.div_lt|]. simpl.
    by rewrite pretty_char_is_digit, Hs.
Qed.

Lemma starts_with_digit_pretty_go x s :
  starts_with_digit s = true → starts_with_digit (pretty_N_go x s) = true.
Proof.
  revert s. induction (N.lt_wf_0 x) as [x _ IH]; intros s Hs.
  assert (x = 0 ∨ 0 < x)%N as [->|Hpos] by lia.
  - by rewrite pretty_N_go_0.
  - rewrite pretty_N_go_step by done.
    apply IH; [by apply N.div_lt|]. simpl. apply pretty_char_is_digit.
Qed.

Lemma number_to_string_digits n :
  all_digits (number_to_string n) = true ∧
  starts_with_digit (number_to_string n) = true ∧
  digits_acc (number_to_string n) 0 = N.of_nat n.
Proof.
  unfold number_to_string, pretty, pretty_nat, pretty, pretty_N.
  case_decide as Hz; [by rewrite Hz|].
  assert (0 < N.of_nat n)%N as Hpos by lia.
  split; [by apply all_digits_pretty_go|]. split.
  - rewrite pretty_N_go_step by done.
    apply starts_with_digit_pretty_go. simpl. apply pretty_char_is_digit.
  - destruct (digits_acc_pretty_go (N.of_nat n) "") as [k Hk].
    rewrite Hk. simpl. lia.
Qed.

(** [parseInt] reads back what the template literal printed. *)
Lemma parseInt_number_to_string n :
  parseInt (number_to_string n) = Some (Z.of_nat n).
Proof.
  destruct (number_to_string_digits n) as (_ & Hstart & Hval).
  rewrite (parseInt_digits _ Hstart), Hval. f_equal. lia.
Qed.

Lemma toUpperCase_number_to_string n :
  toUpperCase (number_to_string n) = number_to_string n.
Proof. apply all_digits_upper, number_to_string_digits. Qed.

(** The letters that the shape test accepts are the keys of the table,
    once in upper case. *)
Lemma A_to_D_key c :
  is_A_to_D c = true →
  ∃ quadrant, QUADRANT_KEY_MAP (String (upper_ascii c) "") = Some quadrant.
Proof. by_cases_on c; intros _; vm_compute; eauto. Qed.

End JSFacts.

(** ** The passes always return *)

Section Passes.

Variable clock : nat → Timestamp.

Lemma only_ticked_refl w : only_ticked w w.
Proof. by repeat split. Qed.

Lemma only_ticked_trans w1 w2 w3 :
  only_ticked w1 w2 → only_ticked w2 w3 → only_ticked w1 w3.
Proof. unfold only_ticked. intros (?&?&?&?) (?&?&?&?). repeat split; try congruence. lia. Qed.

Lemma updateInQuadrant_run todoId updates quadrant st w :
  ∃ w', updateInQuadrant clock todoId updates quadrant st w =
          (Returned (updatePass (clock (ticks w)) todoId updates quadrant st), w') ∧
        only_ticked w w'.
Proof.
  destruct st as [matrix found]. unfold updateInQuadrant, updatePass, mergeTodo.
  destruct (findIndex todoId (getQ matrix quadrant)) as [[index oldTodo]|];
    [|eexists; split; [done | apply only_ticked_refl]].
  rewrite bind_run.
  destruct (becomes_completed oldTodo updates).
  - run_M. eexists; split; [by case_decide|]. repeat split; simpl; lia.
  - destruct (bool_decide (upd_completed updates = Some false));
      run_M; (eexists; split; [by case_decide | apply only_ticked_refl]).
Qed.

Lemma toggleInQuadrant_run todoId quadrant st w :
  ∃ w', toggleInQuadrant clock todoId quadrant st w =
          (Returned (togglePass (clock (ticks w)) todoId quadrant st), w') ∧
        only_ticked w w'.
Proof.
  destruct st as [matrix found]. unfold toggleInQuadrant, togglePass, toggleItem.
  destruct (findIndex todoId (getQ matrix quadrant)) as [[index todo]|];
    [|eexists; split; [done | apply only_ticked_refl]].
  rewrite bind_run. simpl.
  destruct (negb (completed todo)).
  - run_M. eexists; split; [done|]. repeat split; simpl; lia.
  - run_M. eexists; split; [done | apply only_ticked_refl].
Qed.

End Passes.

(** ** Resolving a display identifier *)

Section Resolve.

Implicit Types (matrix : TodoMatrix) (s : string).

(** The decisions of [resolveUserFriendlyId], case by case. *)
Lemma resolve_cases matrix s :
  resolveUserFriendlyId matrix s =
  match parsed_index s, QUADRANT_KEY_MAP (parsed_letter s) with
  | Some n, Some quadrant =>
      if (n <=? 0)%Z then Returned None
      else if (Z.of_nat (length (getQ matrix quadrant)) <? n)%Z then Returned None
      else match getQ matrix quadrant !! Z.to_nat (n - 1) with
           | Some todo => Returned (Some (id todo))
           | None => Thrown TypeError
           end
  | Some n, None => Returned None
  | None, Some quadrant => Thrown TypeError
  | None, None => Returned None
  end.
Proof.
  unfold resolveUserFriendlyId, parsed_index, parsed_letter.
  destruct (JS.parseInt _) as [n|]; simpl;
    destruct (QUADRANT_KEY_MAP _) as [quadrant|]; simpl; try done.
  - destruct (Z.ltb_spec (n - 1) 0), (Z.leb_spec n 0); try lia; try done.
    destruct (Z.leb_spec (Z.of_nat (length (getQ matrix quadrant))) (n - 1)),
      (Z.ltb_spec (Z.of_nat (length (getQ matrix quadrant))) n); try lia; done.
  - by destruct (n - 1 <? 0)%Z.
Qed.



(** When no integer can be read after the first character, the result is
    [null] for an unknown letter; for a letter of the table the read of
    [id] on [undefined] throws. *)
Lemma resolve_NaN matrix s :
  parsed_index s = None →
  resolveUserFriendlyId matrix s =
  match QUADRANT_KEY_MAP (parsed_letter s) with
  | Some _ => Thrown TypeError
  | None => Returned None
  end.
Proof. intros H. rewrite resolve_cases, H. by destruct (QUADRANT_KEY_MAP _). Qed.


(** What the shape test accepts. *)
Lemma shape_parses s :
  isUserFriendlyId s = true →
  (∃ quadrant, QUADRANT_KEY_MAP (parsed_letter s) = Some quadrant) ∧
  ∃ n, parsed_index s = Some n ∧ (0 ≤ n)%Z.
Proof.
  destruct s as [|c r]; [done|]. simpl.
  intros [[Hc Hstart]%andb_prop Hdigits]%andb_prop.
  unfold parsed_letter, parsed_index. simpl.
  split; [by apply JSFacts.A_to_D_key|].
  rewrite (JSFacts.all_digits_upper r Hdigits), (JSFacts.parseInt_digits r Hstart).
  eexists; split; [done | lia].
Qed.

(** Under the shape test the resolver returns: [null] or the [id] of an
    item of the matrix. *)
Lemma resolve_shaped matrix s :
  isUserFriendlyId s = true →
  ∃ r, resolveUserFriendlyId matrix s = Returned r ∧
       (r = None ∨ ∃ todo, todo ∈ allTodos matrix ∧ r = Some (id todo)).
Proof.
  intros ([quadrant Hq] & n & Hn & Hpos)%shape_parses.
  rewrite resolve_cases, Hn, Hq.
  destruct (Z.leb_spec n 0); [by eauto|].
  destruct (Z.ltb_spec (Z.of_nat (length (getQ matrix quadrant))) n); [by eauto|].
  destruct (lookup_lt_is_Some_2 (getQ matrix quadrant) (Z.to_nat (n - 1)))
    as [todo Htodo]; [lia|].
  rewrite Htodo. eexists; split; [done|]. right. exists todo. split; [|done].
  apply elem_of_allTodos. exists quadrant. by eapply list_elem_of_lookup_2.
Qed.

Lemma resolveIfFriendly_returns_or_not_found matrix s :
  (∃ uuid, resolveIfFriendly matrix s = Returned uuid) ∨
  resolveIfFriendly matrix s = Thrown (NotFoundError s).
Proof.
  unfold resolveIfFriendly.
  destruct (isUserFriendlyId s) eqn:Hshape; [|by eauto].
  destruct (resolve_shaped matrix s Hshape) as (r & -> & _).
  destruct r as [uuid|]; [|by eauto]. destruct (String.eqb uuid ""); eauto.
Qed.

End Resolve.

(** ** The operations, step by step *)

Section Operations.

Variable clock : nat → Timestamp.

Lemma updateTodo_run todoId updates w :
  ∃ matrix w1,
    loaded clock w matrix w1 ∧
    match resolveIfFriendly matrix todoId with
    | Thrown e => updateTodo clock todoId updates w = (Thrown e, w1)
    | Returned uuid =>
        ∃ ts w2,
          read_during clock w ts ∧ only_ticked w1 w2 ∧
          updateTodo clock todoId updates w =
          finish clock uuid (updatePasses ts uuid updates matrix) w2
    end.
Proof.
  destruct (load_returns clock w) as (matrix & w1 & Hloaded).
  pose proof Hloaded as (Hload & _ & Hticks & _).
  exists matrix, w1. split; [done|].
  unfold updateTodo. rewrite bind_run, Hload, bind_run. unfold call.
  destruct (resolveIfFriendly matrix todoId) as [uuid|e]; [|done].
  rewrite bind_run.
  destruct (updateInQuadrant_run clock uuid updates key_important_urgent
              (matrix, false) w1) as (wa & -> & Ha).
  rewrite bind_run.
  destruct (updateInQuadrant_run clock uuid updates key_important_not_urgent
              (updatePass (clock (ticks w1)) uuid updates key_important_urgent
                 (matrix, false)) wa) as (wb & -> & Hb).
  rewrite bind_run.
  destruct (updateInQuadrant_run clock uuid updates key_not_important_urgent
              (updatePass (clock (ticks wa)) uuid updates key_important_not_urgent
                 (updatePass (clock (ticks w1)) uuid updates key_important_urgent
                    (matrix, false))) wb) as (wc & -> & Hc).
  rewrite bind_run.
  destruct (updateInQuadrant_run clock uuid updates key_not_important_not_urgent
              (updatePass (clock (ticks wb)) uuid updates key_not_important_urgent
              (updatePass (clock (ticks wa)) uuid updates key_important_not_urgent
                 (updatePass (clock (ticks w1)) uuid updates key_important_urgent
                    (matrix, false)))) wc) as (wd & -> & Hd).
  exists (λ quadrant,
            clock (ticks match quadrant with
                         | key_important_urgent => w1
                         | key_important_not_urgent => wa
                         | key_not_important_urgent => wb
                         | key_not_important_not_urgent => wc
                         end)), wd.
  split; [|split].
  - unfold only_ticked in *. intros []; eexists; (split; [|done]); lia.
  - eauto using only_ticked_trans.
  - unfold finish, updatePasses. by destruct (updatePass _ _ _ _ _).
Qed.

Lemma toggleTodo_run todoId w :
  ∃ matrix w1,
    loaded clock w matrix w1 ∧
    match resolveIfFriendly matrix todoId with
    | Thrown e => toggleTodo clock todoId w = (Thrown e, w1)
    | Returned uuid =>
        ∃ ts w2,
          read_during clock w ts ∧ only_ticked w1 w2 ∧
          toggleTodo clock todoId w =
          finish clock uuid (togglePasses ts uuid matrix) w2
    end.
Proof.
  destruct (load_returns clock w) as (matrix & w1 & Hloaded).
  pose proof Hloaded as (Hload & _ & Hticks & _).
  exists matrix, w1. split; [done|].
  unfold toggleTodo. rewrite bind_run, Hload, bind_run. unfold call.
  destruct (resolveIfFriendly matrix todoId) as [uuid|e]; [|done].
  rewrite bind_run.
  destruct (toggleInQuadrant_run clock uuid key_important_urgent
              (matrix, false) w1) as (wa & -> & Ha).
  rewrite bind_run.
  destruct (toggleInQuadrant_run clock uuid key_important_not_urgent
              (togglePass (clock (ticks w1)) uuid key_important_urgent
                 (matrix, false)) wa) as (wb & -> & Hb).
  rewrite bind_run.
  destruct (toggleInQuadrant_run clock uuid key_not_important_urgent
              (togglePass (clock (ticks wa)) uuid key_important_not_urgent
                 (togglePass (clock (ticks w1)) uuid key_important_urgent
                    (matrix, false))) wb) as (wc & -> & Hc).
  rewrite bind_run.
  destruct (toggleInQuadrant_run clock uuid key_not_important_not_urgent
              (togglePass (clock (ticks wb)) uuid key_not_important_urgent
              (togglePass (clock (ticks wa)) uuid key_important_not_urgent
                 (togglePass (clock (ticks w1)) uuid key_important_urgent
                    (matrix, false)))) wc) as (wd & -> & Hd).
  exists (λ quadrant,
            clock (ticks match quadrant with
                         | key_important_urgent => w1
                         | key_important_not_urgent => wa
                         | key_not_important_urgent => wb
                         | key_not_important_not_urgent => wc
                         end)), wd.
  split; [|split].
  - unfold only_ticked in *. intros []; eexists; (split; [|done]); lia.
  - eauto using only_ticked_trans.
  - unfold finish, togglePasses. by destruct (togglePass _ _ _ _).
Qed.

Lemma deleteTodo_run todoId w :
  ∃ matrix w1,
    loaded clock w matrix w1 ∧
    match resolveIfFriendly matrix todoId with
    | Thrown e => deleteTodo clock todoId w = (Thrown e, w1)
    | Returned uuid =>
        deleteTodo clock todoId w = finish clock uuid (deletePasses uuid matrix) w1
    end.
Proof.
  destruct (load_returns clock w) as (matrix & w1 & Hloaded).
  pose proof Hloaded as (Hload & _).
  exists matrix, w1. split; [done|].
  unfold deleteTodo. rewrite bind_run, Hload, bind_run. unfold call.
  destruct (resolveIfFriendly matrix todoId) as [uuid|e]; [|done].
  unfold finish, deletePasses. by destruct (deleteFromQuadrant _ _ _).
Qed.

Lemma addTodo_run todo w :
  ∃ matrix w1,
    loaded clock w matrix w1 ∧
    addTodo clock todo w =
    saveTodoMatrix clock
      (setQ matrix (getQuadrantKey todo) (getQ matrix (getQuadrantKey todo) ++ [todo])) w1.
Proof.
  destruct (load_returns clock w) as (matrix & w1 & Hloaded).
  pose proof Hloaded as (Hload & _).
  exists matrix, w1. split; [done|].
  unfold addTodo. by rewrite bind_run, Hload.
Qed.

(** What [finish] does to the world. *)
Lemma finish_run uuid st w :
  finish clock uuid st w =
  if st.2
  then let saved := set_stats (computeStats st.1) (clock (ticks w)) st.1 in
       (Returned saved, mkWorld (Stored saved) (console w) (S (ticks w)) (S (writes w)))
  else (Thrown (NotFoundError uuid), w).
Proof. unfold finish. by destruct st as [matrix []]. Qed.

End Operations.

(** ** The resolver under the shape test *)

Lemma operations_return_or_not_found (clock : nat → Timestamp) s w updates operation :
  operation ∈ [updateTodo clock s updates; toggleTodo clock s; deleteTodo clock s] →
  returns_or_not_found (operation w).
Proof.
  intros Hop. unfold returns_or_not_found.
  apply elem_of_cons in Hop as [->|Hop];
    [|apply elem_of_cons in Hop as [->|Hop];
      [|apply list_elem_of_singleton in Hop as ->]].
  - destruct (updateTodo_run clock s updates w) as (matrix & w1 & _ & Hrun).
    destruct (resolveIfFriendly_returns_or_not_found matrix s) as [[uuid Hr]|Hr];
      rewrite Hr in Hrun; [|rewrite Hrun; by eauto].
    destruct Hrun as (ts & w2 & _ & _ & ->). rewrite finish_run.
    destruct (updatePasses ts uuid updates matrix).2; simpl; eauto.
  - destruct (toggleTodo_run clock s w) as (matrix & w1 & _ & Hrun).
    destruct (resolveIfFriendly_returns_or_not_found matrix s) as [[uuid Hr]|Hr];
      rewrite Hr in Hrun; [|rewrite Hrun; by eauto].
    destruct Hrun as (ts & w2 & _ & _ & ->). rewrite finish_run.
    destruct (togglePasses ts uuid matrix).2; simpl; eauto.
  - destruct (deleteTodo_run clock s w) as (matrix & w1 & _ & Hrun).
    destruct (resolveIfFriendly_returns_or_not_found matrix s) as [[uuid Hr]|Hr];
      rewrite Hr in Hrun; [|rewrite Hrun; by eauto].
    rewrite Hrun, finish_run.
    destruct (deletePasses uuid matrix).2; simpl; eauto.
Qed.

(** C10. For every string that [isUserFriendlyId] accepts and every matrix,
    [resolveUserFriendlyId] returns, and what it returns is [null] or the
    [id] of an item of the matrix; and [updateTodo], [toggleTodo] and
    [deleteTodo], which resolve only behind that test, end in every world
    by returning a matrix or by throwing the not-found error, never by
    another exception. *)
Theorem resolver_total_under_shape_guard (clock : nat → Timestamp) (s : string) :
  isUserFriendlyId s = true →
  (∀ matrix,
     ∃ r, resolveUserFriendlyId matrix s = Returned r ∧
          (r = None ∨ ∃ todo, todo ∈ allTodos matrix ∧ r = Some (id todo))) ∧
  (∀ w updates,
     returns_or_not_found (updateTodo clock s updates w) ∧
     returns_or_not_found (toggleTodo clock s w) ∧
     returns_or_not_found (deleteTodo clock s w)).
Proof.
  intros Hshape. split; [intros matrix; by apply resolve_shaped|].
  intros w updates.
  repeat split; apply (operations_return_or_not_found clock s w updates).
  - apply list_elem_of_here.
  - apply list_elem_of_further, list_elem_of_here.
  - do 2 apply list_elem_of_further. apply list_elem_of_here.
Qed.

(** ** Display identifiers and back *)

Section DisplayId.

Implicit Types (matrix : TodoMatrix) (todo : TodoItem).

#[local] Arguments JS.number_to_string : simpl never.

Lemma findIndex_Some todoId (l : list TodoItem) index todo :
  findIndex todoId l = Some (index, todo) →
  l !! index = Some todo ∧ id todo = todoId.
Proof. unfold findIndex. rewrite list_find_Some. tauto. Qed.

Lemma findIndex_elem_of todo (l : list TodoItem) :
  todo ∈ l → ∃ index found, findIndex (id todo) l = Some (index, found).
Proof.
  intros Hin.
  destruct (list_find_elem_of (λ t, id t = id todo) l todo Hin eq_refl)
    as [[index found] H].
  eauto.
Qed.

(** The display identifier of an item that sits in the array of its own
    quadrant: the letter of the quadrant and the position, from 1. *)
Lemma generateDisplayId_found matrix todo index found :
  findIndex (id todo) (getQ matrix (getQuadrantKey todo)) = Some (index, found) →
  generateDisplayId matrix todo =
  QUADRANT_PREFIX_MAP (getQuadrantKey todo) +:+ JS.number_to_string (index + 1).
Proof.
  intros H. unfold generateDisplayId. rewrite H.
  by destruct (getQuadrantKey todo).
Qed.

Lemma parse_display_id quadrant n :
  let s := QUADRANT_PREFIX_MAP quadrant +:+ JS.number_to_string n in
  QUADRANT_KEY_MAP (parsed_letter s) = Some quadrant ∧
  parsed_index s = Some (Z.of_nat n) ∧
  (0 < n → isUserFriendlyId s = true).
Proof.
  unfold parsed_letter, parsed_index.
  destruct (JSFacts.number_to_string_digits n) as (Hall & Hstart & _).
  assert (∀ c r, String c "" +:+ r = String c r) as Happ by done.
  destruct quadrant; unfold QUADRANT_PREFIX_MAP; rewrite Happ; simpl;
    rewrite JSFacts.toUpperCase_number_to_string, JSFacts.parseInt_number_to_string,
      Hall, Hstart; done.
Qed.

(** C2. In a matrix that is quadrant-consistent and has unique ids,
    resolving the display identifier generated for an item of the matrix
    returns the [id] of that item. *)
Theorem display_id_round_trip matrix todo :
  quadrant_consistent matrix →
  unique_ids matrix →
  todo ∈ allTodos matrix →
  resolveUserFriendlyId matrix (generateDisplayId matrix todo) =
  Returned (Some (id todo)).
Proof.
  intros Hcons _ [quadrant Hin]%elem_of_allTodos.
  rewrite <- (Hcons quadrant todo Hin) in Hin.
  destruct (findIndex_elem_of todo _ Hin) as (index & found & Hfind).
  rewrite (generateDisplayId_found matrix todo index found Hfind).
  destruct (findIndex_Some _ _ _ _ Hfind) as [Hlookup Hid].
  destruct (parse_display_id (getQuadrantKey todo) (index + 1)) as (Hkey & Hidx & _).
  rewrite resolve_cases, Hkey, Hidx.
  pose proof (lookup_lt_Some _ _ _ Hlookup) as Hlt.
  destruct (Z.leb_spec (Z.of_nat (index + 1)) 0); [lia|].
  destruct (Z.ltb_spec (Z.of_nat (length (getQ matrix (getQuadrantKey todo))))
              (Z.of_nat (index + 1))); [lia|].
  replace (Z.to_nat (Z.of_nat (index + 1) - 1)) with index by lia.
  by rewrite Hlookup, Hid.
Qed.

End DisplayId.

(** ** Quadrant consistency is an invariant *)

Section Consistency.

Variable clock : nat → Timestamp.

Lemma consistent_Forall matrix :
  quadrant_consistent matrix ↔
  ∀ quadrant, Forall (λ todo, getQuadrantKey todo = quadrant) (getQ matrix quadrant).
Proof.
  unfold quadrant_consistent. split.
  - intros H quadrant. apply Forall_forall. eauto.
  - intros H quadrant todo. specialize (H quadrant).
    rewrite Forall_forall in H. eauto.
Qed.

Lemma consistent_setQ matrix quadrant l :
  quadrant_consistent matrix →
  Forall (λ todo, getQuadrantKey todo = quadrant) l →
  quadrant_consistent (setQ matrix quadrant l).
Proof.
  rewrite !consistent_Forall. intros H Hl quadrant'. rewrite getQ_setQ.
  case_decide; [by subst | done].
Qed.

Lemma consistent_empty ts : quadrant_consistent (emptyMatrix ts).
Proof. intros [] todo H; simpl in H; by apply elem_of_nil in H. Qed.

Lemma consistent_set_stats s ts matrix :
  quadrant_consistent matrix → quadrant_consistent (set_stats s ts matrix).
Proof. intros H quadrant todo. rewrite getQ_set_stats. apply H. Qed.

Lemma key_toggleItem ts todo :
  getQuadrantKey (toggleItem ts todo) = getQuadrantKey todo.
Proof. unfold toggleItem. simpl. by destruct (negb (completed todo)). Qed.

Lemma updatePass_consistent ts todoId updates quadrant st :
  quadrant_consistent st.1 →
  quadrant_consistent (updatePass ts todoId updates quadrant st).1.
Proof.
  destruct st as [matrix found]. simpl. intros H. unfold updatePass.
  destruct (findIndex todoId (getQ matrix quadrant)) as [[index oldTodo]|]; [|done].
  pose proof (proj1 (consistent_Forall matrix) H quadrant) as Hq.
  case_decide as Hmove; simpl.
  - assert (quadrant_consistent
              (setQ matrix quadrant (delete index (getQ matrix quadrant)))) as H'.
    { apply consistent_setQ; [done | by apply Forall_delete]. }
    apply consistent_setQ; [done|].
    apply Forall_app. split; [by apply consistent_Forall|].
    by apply Forall_singleton.
  - apply consistent_setQ; [done|]. apply Forall_insert; [done|].
    by destruct (decide (getQuadrantKey (mergeTodo ts oldTodo updates) = quadrant)).
Qed.

Lemma togglePass_consistent ts todoId quadrant st :
  quadrant_consistent st.1 →
  quadrant_consistent (togglePass ts todoId quadrant st).1.
Proof.
  destruct st as [matrix found]. simpl. intros H. unfold togglePass.
  destruct (findIndex todoId (getQ matrix quadrant)) as [[index todo]|] eqn:Hfind;
    [|done].
  simpl. apply consistent_setQ; [done|].
  apply Forall_insert; [by apply consistent_Forall|].
  rewrite key_toggleItem. apply (H quadrant).
  apply findIndex_Some in Hfind as [Hlookup _]. by eapply list_elem_of_lookup_2.
Qed.

Lemma deleteFromQuadrant_consistent todoId quadrant st :
  quadrant_consistent st.1 →
  quadrant_consistent (deleteFromQuadrant todoId quadrant st).1.
Proof.
  destruct st as [matrix found]. simpl. intros H. unfold deleteFromQuadrant.
  destruct (findIndex todoId (getQ matrix quadrant)) as [[index todo]|]; [|done].
  simpl. apply consistent_setQ; [done|].
  by apply Forall_delete, consistent_Forall.
Qed.

Lemma addTodo_consistent matrix todo :
  quadrant_consistent matrix →
  quadrant_consistent
    (setQ matrix (getQuadrantKey todo) (getQ matrix (getQuadrantKey todo) ++ [todo])).
Proof.
  intros H. apply consistent_setQ; [done|].
  apply Forall_app. split; [by apply consistent_Forall | by apply Forall_singleton].
Qed.

Lemma updatePasses_consistent ts todoId updates matrix :
  quadrant_consistent matrix →
  quadrant_consistent (updatePasses ts todoId updates matrix).1.
Proof. intros H. unfold updatePasses. by do 4 apply updatePass_consistent. Qed.

Lemma togglePasses_consistent ts todoId matrix :
  quadrant_consistent matrix →
  quadrant_consistent (togglePasses ts todoId matrix).1.
Proof. intros H. unfold togglePasses. by do 4 apply togglePass_consistent. Qed.

Lemma deletePasses_consistent todoId matrix :
  quadrant_consistent matrix →
  quadrant_consistent (deletePasses todoId matrix).1.
Proof. intros H. unfold deletePasses. by do 4 apply deleteFromQuadrant_consistent. Qed.

Lemma loaded_consistent w matrix w1 :
  world_consistent w → loaded clock w matrix w1 →
  quadrant_consistent matrix ∧ world_consistent w1.
Proof.
  intros Hw (_ & Hfile & _ & Hfrom).
  assert (quadrant_consistent matrix) as H.
  { destruct Hfrom as [Hstored|[ts ->]]; [by apply Hw | apply consistent_empty]. }
  split; [done|]. intros matrix'. rewrite Hfile. by intros [= <-].
Qed.

Lemma only_ticked_consistent w w' :
  only_ticked w w' → world_consistent w → world_consistent w'.
Proof. intros (Hfile & _) Hw matrix. rewrite Hfile. apply Hw. Qed.

Lemma save_consistent matrix w :
  quadrant_consistent matrix →
  world_consistent (saveTodoMatrix clock matrix w).2 ∧
  ∀ saved, (saveTodoMatrix clock matrix w).1 = Returned saved →
           quadrant_consistent saved.
Proof.
  intros H. rewrite save_run. simpl. split.
  - intros ? [= <-]. by apply consistent_set_stats.
  - intros ? [= <-]. by apply consistent_set_stats.
Qed.

Lemma finish_consistent uuid st w :
  quadrant_consistent st.1 → world_consistent w →
  world_consistent (finish clock uuid st w).2 ∧
  ∀ saved, (finish clock uuid st w).1 = Returned saved → quadrant_consistent saved.
Proof.
  intros H Hw. unfold finish. destruct st as [matrix []]; simpl.
  - by apply save_consistent.
  - by split.
Qed.

(** Every operation keeps the invariant, whether it returns or throws, and
    the matrix it returns satisfies it too. *)
Lemma perform_consistent op w :
  world_consistent w →
  world_consistent (perform clock op w).2 ∧
  ∀ matrix, (perform clock op w).1 = Returned matrix → quadrant_consistent matrix.
Proof.
  intros Hw. destruct op as [todo|todoId updates|todoId|todoId]; simpl.
  - destruct (addTodo_run clock todo w) as (matrix & w1 & Hloaded & ->).
    destruct (loaded_consistent w matrix w1 Hw Hloaded) as [H Hw1].
    by apply save_consistent, addTodo_consistent.
  - destruct (updateTodo_run clock todoId updates w) as (matrix & w1 & Hloaded & Hrun).
    destruct (loaded_consistent w matrix w1 Hw Hloaded) as [H Hw1].
    destruct (resolveIfFriendly matrix todoId) as [uuid|e]; [|by rewrite Hrun].
    destruct Hrun as (ts & w2 & _ & Hticked & ->).
    apply finish_consistent; [by apply updatePasses_consistent|].
    by eapply only_ticked_consistent.
  - destruct (toggleTodo_run clock todoId w) as (matrix & w1 & Hloaded & Hrun).
    destruct (loaded_consistent w matrix w1 Hw Hloaded) as [H Hw1].
    destruct (resolveIfFriendly matrix todoId) as [uuid|e]; [|by rewrite Hrun].
    destruct Hrun as (ts & w2 & _ & Hticked & ->).
    apply finish_consistent; [by apply togglePasses_consistent|].
    by eapply only_ticked_consistent.
  - destruct (deleteTodo_run clock todoId w) as (matrix & w1 & Hloaded & Hrun).
    destruct (loaded_consistent w matrix w1 Hw Hloaded) as [H Hw1].
    destruct (resolveIfFriendly matrix todoId) as [uuid|e]; [|by rewrite Hrun].
    rewrite Hrun. apply finish_consistent; [by apply deletePasses_consistent | done].
Qed.

Lemma run_consistent ops w :
  world_consistent w → world_consistent (run clock ops w).
Proof.
  revert w. induction ops as [|op rest IH]; intros w Hw; [done|].
  simpl. by apply IH, perform_consistent.
Qed.

(** Every operation leaves a file that holds a matrix. *)
Lemma perform_stored op w : ∃ matrix, todoFile (perform clock op w).2 = Stored matrix.
Proof.
  destruct op as [todo|todoId updates|todoId|todoId]; simpl.
  - destruct (addTodo_run clock todo w) as (matrix & w1 & _ & ->).
    rewrite save_run. simpl. eauto.
  - destruct (updateTodo_run clock todoId updates w)
      as (matrix & w1 & (_ & Hfile & _) & Hrun).
    destruct (resolveIfFriendly matrix todoId) as [uuid|e]; [|rewrite Hrun; by eauto].
    destruct Hrun as (ts & w2 & _ & (Hsame & _) & ->). rewrite finish_run.
    destruct (updatePasses _ _ _ _).2; simpl; [by eauto|]. rewrite Hsame. eauto.
  - destruct (toggleTodo_run clock todoId w)
      as (matrix & w1 & (_ & Hfile & _) & Hrun).
    destruct (resolveIfFriendly matrix todoId) as [uuid|e]; [|rewrite Hrun; by eauto].
    destruct Hrun as (ts & w2 & _ & (Hsame & _) & ->). rewrite finish_run.
    destruct (togglePasses _ _ _).2; simpl; [by eauto|]. rewrite Hsame. eauto.
  - destruct (deleteTodo_run clock todoId w)
      as (matrix & w1 & (_ & Hfile & _) & Hrun).
    destruct (resolveIfFriendly matrix todoId) as [uuid|e]; [|rewrite Hrun; by eauto].
    rewrite Hrun, finish_run.
    destruct (deletePasses _ _).2; simpl; eauto.
Qed.

Lemma run_stored ops w :
  ops ≠ [] → ∃ matrix, todoFile (run clock ops w) = Stored matrix.
Proof.
  revert w. induction ops as [|op rest IH]; intros w Hne; [done|].
  simpl. destruct rest as [|op' rest']; [apply perform_stored|].
  by apply IH.
Qed.

Lemma getQuadrantKey_table todo :
  (priority todo = "high" → urgency todo = "urgent" →
   getQuadrantKey todo = key_important_urgent) ∧
  (priority todo = "high" → urgency todo = "not-urgent" →
   getQuadrantKey todo = key_important_not_urgent) ∧
  (priority todo = "low" → urgency todo = "urgent" →
   getQuadrantKey todo = key_not_important_urgent) ∧
  (priority todo = "low" → urgency todo = "not-urgent" →
   getQuadrantKey todo = key_not_important_not_urgent).
Proof. unfold getQuadrantKey. repeat split; by intros -> ->. Qed.

End Consistency.

(** C1. Start from a store that is empty: the file is missing, or holds the
    empty matrix.  After any sequence of add, update, toggle and delete
    operations, whichever of them returned or threw, the file holds a matrix
    (as soon as one operation ran), and every item of that matrix lies in the
    array of the quadrant computed from its own priority and urgency and in
    no other array; that quadrant follows the table high/urgent,
    high/not-urgent, low/urgent, low/not-urgent. *)
Theorem quadrant_consistency_invariant (clock : nat → Timestamp) (ops : list Op) w0 :
  (todoFile w0 = Absent ∨ ∃ ts, todoFile w0 = Stored (emptyMatrix ts)) →
  (ops ≠ [] → ∃ matrix, todoFile (run clock ops w0) = Stored matrix) ∧
  ∀ matrix, todoFile (run clock ops w0) = Stored matrix →
    ∀ todo, todo ∈ allTodos matrix →
      todo ∈ getQ matrix (getQuadrantKey todo) ∧
      (∀ quadrant, todo ∈ getQ matrix quadrant → quadrant = getQuadrantKey todo) ∧
      (priority todo = "high" → urgency todo = "urgent" →
       getQuadrantKey todo = key_important_urgent) ∧
      (priority todo = "high" → urgency todo = "not-urgent" →
       getQuadrantKey todo = key_important_not_urgent) ∧
      (priority todo = "low" → urgency todo = "urgent" →
       getQuadrantKey todo = key_not_important_urgent) ∧
      (priority todo = "low" → urgency todo = "not-urgent" →
       getQuadrantKey todo = key_not_important_not_urgent).
Proof.
  intros Hstart. split; [apply run_stored|].
  intros matrix Hfile todo [quadrant Hin]%elem_of_allTodos.
  assert (world_consistent w0) as Hw0.
  { intros m Hm. destruct Hstart as [H|[ts H]]; rewrite H in Hm; [done|].
    injection Hm as <-. apply consistent_empty. }
  pose proof (run_consistent clock ops w0 Hw0 matrix Hfile) as Hcons.
  split; [by rewrite (Hcons quadrant todo Hin)|].
  split; [intros quadrant' Hin'; symmetry; by apply Hcons|].
  apply getQuadrantKey_table.
Qed.

(** ** Creating an item *)

(** C8, as stated, fails: for a title of three spaces, which is empty once
    trimmed, the specification's create rejects, and [createTodo] returns an
    item, with the empty title. *)
Lemma create_empty_title_accepted :
  create_as_specified "2026-01-01T00:00:00.000Z" "u-1" "   " no_options = ValidationError ∧
  createTodo "2026-01-01T00:00:00.000Z" "u-1" "   " no_options =
    mkTodo "u-1" "" "" "low" "not-urgent" false "2026-01-01T00:00:00.000Z" None [] [] [] ∧
  create_as_specified "2026-01-01T00:00:00.000Z" "u-1" "   " no_options ≠
    Created_item (createTodo "2026-01-01T00:00:00.000Z" "u-1" "   " no_options).
Proof. by vm_compute. Qed.

(** C8, amended.  [createTodo] trims the title and has no failing path: for
    every title, also one that is empty after trimming, it builds an item
    with the trimmed title; priority defaults to low, urgency to not-urgent,
    completed to false, tags and links to empty sequences; and for a title
    that is not empty after trimming this is the item the specification's
    create accepts. *)
Theorem create_accepts_every_title (now : Timestamp) (uuid title0 : string)
    (options : TodoOptions) :
  let todo := createTodo now uuid title0 options in
  title todo = JS.trim title0 ∧
  (opt_priority options = None → priority todo = "low") ∧
  (opt_urgency options = None → urgency todo = "not-urgent") ∧
  (opt_completed options = None → completed todo = false) ∧
  (opt_tags options = None → tags todo = []) ∧
  (opt_links options = None → links todo = []) ∧
  (JS.trim title0 ≠ "" →
   create_as_specified now uuid title0 options = Created_item todo).
Proof.
  simpl. repeat split; try by intros ->.
  intros Hne. unfold create_as_specified.
  destruct (String.eqb_spec (JS.trim title0) ""); done.
Qed.

Lemma create_accepts_every_title_witness :
  title (createTodo "2026-01-01T00:00:00.000Z" "u-1" "  Buy milk " no_options) = "Buy milk" ∧
  priority (createTodo "2026-01-01T00:00:00.000Z" "u-1" "  Buy milk " no_options) = "low" ∧
  create_as_specified "2026-01-01T00:00:00.000Z" "u-1" "  Buy milk " no_options =
    Created_item (createTodo "2026-01-01T00:00:00.000Z" "u-1" "  Buy milk " no_options).
Proof.
  pose proof (create_accepts_every_title "2026-01-01T00:00:00.000Z" "u-1"
                "  Buy milk " no_options) as (Ht & Hp & _ & _ & _ & _ & Hs).
  split; [exact Ht|]. split; [by apply Hp|]. apply Hs. by vm_compute.
Defined.

(** ** The identity fields under update *)

Section Identity.

Variable clock : nat → Timestamp.

(** Pushing an item and taking one out, as multisets. *)
Lemma allTodos_push matrix quadrant todo :
  allTodos (setQ matrix quadrant (getQ matrix quadrant ++ [todo])) ≡ₚ
  todo :: allTodos matrix.
Proof. destruct quadrant; unfold allTodos; simpl; solve_Permutation. Qed.

Lemma allTodos_take_out matrix quadrant index todo :
  getQ matrix quadrant !! index = Some todo →
  allTodos matrix ≡ₚ
  todo :: allTodos (setQ matrix quadrant (delete index (getQ matrix quadrant))).
Proof.
  intros H. apply delete_Permutation in H.
  destruct quadrant; unfold allTodos; simpl in *;
    rewrite H at 1; solve_Permutation.
Qed.

Lemma allTodos_replace {B} (f : TodoItem → B) matrix quadrant index todo todo' :
  getQ matrix quadrant !! index = Some todo →
  f todo' = f todo →
  f <$> allTodos (setQ matrix quadrant (<[index:=todo']> (getQ matrix quadrant))) =
  f <$> allTodos matrix.
Proof.
  intros H Hf.
  assert (f <$> <[index:=todo']> (getQ matrix quadrant) = f <$> getQ matrix quadrant)
    as Hsame.
  { rewrite list_fmap_insert, Hf. apply list_insert_id. by rewrite list_lookup_fmap, H. }
  destruct quadrant; unfold allTodos; simpl in *; rewrite !fmap_app; congruence.
Qed.






End Identity.

(** ** The completion timestamp under toggle *)

Section Toggle.

Variable clock : nat → Timestamp.

Lemma toggleItem_fields ts todo :
  id (toggleItem ts todo) = id todo ∧
  createdAt (toggleItem ts todo) = createdAt todo ∧
  completed (toggleItem ts todo) = negb (completed todo) ∧
  completedAt (toggleItem ts todo) = (if completed todo then None else Some ts).
Proof. unfold toggleItem. by destruct todo as [? ? ? ? ? [] ? ? ? ? ?]. Qed.

Lemma findIndex_insert_same uuid (l : list TodoItem) index todo todo' :
  findIndex uuid l = Some (index, todo) →
  id todo' = id todo →
  findIndex uuid (<[index:=todo']> l) = Some (index, todo').
Proof.
  unfold findIndex. rewrite !list_find_Some. intros (Hlookup & Hid & Hfirst) Hsame.
  split; [|split].
  - apply list_lookup_insert_eq. by eapply lookup_lt_Some.
  - congruence.
  - intros j other Hj Hlt. rewrite list_lookup_insert_ne in Hj by lia. eauto.
Qed.

(** A pass touches the array of its own quadrant only. *)
Lemma togglePass_getQ ts uuid quadrant st other :
  getQ (togglePass ts uuid quadrant st).1 other =
  if decide (quadrant = other)
  then match findIndex uuid (getQ st.1 quadrant) with
       | Some (index, todo) => <[index:=toggleItem ts todo]> (getQ st.1 quadrant)
       | None => getQ st.1 quadrant
       end
  else getQ st.1 other.
Proof.
  destruct st as [matrix found]. unfold togglePass. simpl.
  destruct (findIndex uuid (getQ matrix quadrant)) as [[index todo]|]; simpl.
  - apply getQ_setQ.
  - case_decide; by subst.
Qed.

Lemma togglePass_getQ_ne ts uuid quadrant st other :
  quadrant ≠ other →
  getQ (togglePass ts uuid quadrant st).1 other = getQ st.1 other.
Proof. intros H. rewrite togglePass_getQ. by case_decide. Qed.

Lemma togglePass_getQ_eq ts uuid quadrant st :
  getQ (togglePass ts uuid quadrant st).1 quadrant =
  match findIndex uuid (getQ st.1 quadrant) with
  | Some (index, todo) => <[index:=toggleItem ts todo]> (getQ st.1 quadrant)
  | None => getQ st.1 quadrant
  end.
Proof. rewrite togglePass_getQ. by case_decide. Qed.

Lemma togglePasses_getQ ts uuid matrix quadrant :
  getQ (togglePasses ts uuid matrix).1 quadrant =
  match findIndex uuid (getQ matrix quadrant) with
  | Some (index, todo) => <[index:=toggleItem (ts quadrant) todo]> (getQ matrix quadrant)
  | None => getQ matrix quadrant
  end.
Proof.
  unfold togglePasses.
  destruct quadrant;
    rewrite ?togglePass_getQ_ne by done; rewrite togglePass_getQ_eq;
    by rewrite ?togglePass_getQ_ne by done.
Qed.

Lemma togglePass_flag ts uuid quadrant st :
  (togglePass ts uuid quadrant st).2 =
  st.2 || bool_decide (is_Some (findIndex uuid (getQ st.1 quadrant))).
Proof.
  destruct st as [matrix found]. unfold togglePass. simpl.
  destruct (findIndex uuid (getQ matrix quadrant)) as [[index todo]|]; simpl;
    by rewrite ?orb_true_r, ?orb_false_r.
Qed.

Lemma togglePasses_found ts uuid matrix quadrant index todo :
  findIndex uuid (getQ matrix quadrant) = Some (index, todo) →
  (togglePasses ts uuid matrix).2 = true.
Proof.
  intros Hfind. unfold togglePasses.
  destruct quadrant;
    rewrite !togglePass_flag, ?togglePass_getQ_ne by done;
    cbn [fst]; rewrite Hfind; simpl;
    by rewrite ?orb_true_r.
Qed.

(** Toggling changes no [id] and no position. *)
Lemma togglePasses_ids ts uuid matrix quadrant :
  id <$> getQ (togglePasses ts uuid matrix).1 quadrant = id <$> getQ matrix quadrant.
Proof.
  rewrite togglePasses_getQ.
  destruct (findIndex uuid (getQ matrix quadrant)) as [[index todo]|] eqn:Hfind; [|done].
  apply findIndex_Some in Hfind as [Hlookup _].
  rewrite list_fmap_insert. apply list_insert_id.
  rewrite list_lookup_fmap, Hlookup. simpl. f_equal.
  symmetry. apply toggleItem_fields.
Qed.

(** Resolution looks at the [id]s and their positions only. *)
Lemma resolve_ext matrix matrix' s :
  (∀ quadrant, id <$> getQ matrix' quadrant = id <$> getQ matrix quadrant) →
  resolveUserFriendlyId matrix' s = resolveUserFriendlyId matrix s.
Proof.
  intros Hids. rewrite !resolve_cases.
  destruct (parsed_index s) as [n|]; [|done].
  destruct (QUADRANT_KEY_MAP (parsed_letter s)) as [quadrant|]; [|done].
  pose proof (f_equal length (Hids quadrant)) as Hlen. rewrite !length_fmap in Hlen.
  pose proof (f_equal (λ l, l !! Z.to_nat (n - 1)) (Hids quadrant)) as Hlookup.
  simpl in Hlookup. rewrite !list_lookup_fmap in Hlookup. rewrite Hlen.
  destruct (getQ matrix' quadrant !! _), (getQ matrix quadrant !! _);
    simpl in Hlookup; try done.
  by injection Hlookup as ->.
Qed.

Lemma resolveIfFriendly_ext matrix matrix' s :
  (∀ quadrant, id <$> getQ matrix' quadrant = id <$> getQ matrix quadrant) →
  resolveIfFriendly matrix' s = resolveIfFriendly matrix s.
Proof. intros Hids. unfold resolveIfFriendly. by rewrite (resolve_ext matrix matrix'). Qed.

(** One toggle of an item that the identifier names. *)
Lemma toggleTodo_once w matrix todoId uuid quadrant index todo :
  todoFile w = Stored matrix →
  resolveIfFriendly matrix todoId = Returned uuid →
  findIndex uuid (getQ matrix quadrant) = Some (index, todo) →
  ∃ n matrix1 w1,
    ticks w < n ∧
    toggleTodo clock todoId w = (Returned matrix1, w1) ∧
    todoFile w1 = Stored matrix1 ∧
    resolveIfFriendly matrix1 todoId = Returned uuid ∧
    findIndex uuid (getQ matrix1 quadrant) = Some (index, toggleItem (clock n) todo).
Proof.
  intros Hfile Hresolve Hfind.
  destruct (toggleTodo_run clock todoId w) as (loadedMatrix & w1 & (Hload & _) & Hrun).
  rewrite (load_stored clock w matrix Hfile) in Hload.
  injection Hload as <- <-. rewrite Hresolve in Hrun.
  destruct Hrun as (ts & w2 & Hread & _ & ->). rewrite finish_run.
  rewrite (togglePasses_found ts uuid matrix quadrant index todo Hfind).
  destruct (Hread quadrant) as (n & Hn & Hts).
  eexists n, _, _. split; [done|]. split; [done|]. split; [done|]. split.
  - rewrite <- Hresolve. apply resolveIfFriendly_ext. intros q.
    rewrite getQ_set_stats. apply togglePasses_ids.
  - rewrite getQ_set_stats, togglePasses_getQ, Hfind, Hts.
    apply (findIndex_insert_same uuid _ index todo); [done|].
    apply toggleItem_fields.
Qed.

End Toggle.

(** C4, as stated, fails twice.  Toggling twice the completed item "delta"
    leaves it completed with a fresh timestamp, not with [null]; and toggling
    the item "omega", whose [createdAt] lies ahead of the clock, completes it
    at a timestamp that is earlier than its [createdAt]. *)
Lemma toggle_twice_restamps :
  (∃ w2 twice,
     run Sample.clock [OpToggle "delta"; OpToggle "delta"] Sample.world = w2 ∧
     todoFile w2 = Stored twice ∧
     completed <$> not_important_urgent Sample.matrix = [true] ∧
     completed <$> not_important_urgent twice = [true] ∧
     completedAt <$> not_important_urgent twice = [Some "2026-03-01T10:00:00.103Z"]) ∧
  (∃ once w1,
     toggleTodo Sample.clock "omega" Sample.world = (Returned once, w1) ∧
     completedAt <$> not_important_not_urgent once = [Some "2026-03-01T10:00:00.101Z"] ∧
     createdAt <$> not_important_not_urgent once = [ "2031-01-01T00:00:00.000Z" ] ∧
     ¬ ts_le "2031-01-01T00:00:00.000Z" "2026-03-01T10:00:00.101Z").
Proof.
  split.
  - eexists _, _. by vm_compute.
  - eexists _, _. by vm_compute.
Qed.

(** C4, amended.  Let the file hold a matrix and let the identifier resolve
    to the [id] of an item that the toggle finds at [index] of [quadrant].
    Two toggles in a row both return and save, and the item stays at its
    position with its [createdAt].  The first flips [completed]; if the item
    was incomplete it sets [completedAt] to the reading of the clock taken in
    that toggle, which is not before [createdAt] whenever [createdAt] is not
    after that reading, and if the item was complete it clears
    [completedAt] to [null].  The second returns [completed] to its first
    value; [completedAt] is then [null] for an item that was incomplete at
    first, and the reading of the second toggle for one that was
    complete. *)
Theorem toggle_completion_law (clock : nat → Timestamp) w matrix todoId uuid
    quadrant index todo :
  todoFile w = Stored matrix →
  resolveIfFriendly matrix todoId = Returned uuid →
  findIndex uuid (getQ matrix quadrant) = Some (index, todo) →
  ∃ n1 n2 matrix1 w1 matrix2 w2 todo1 todo2,
    toggleTodo clock todoId w = (Returned matrix1, w1) ∧
    todoFile w1 = Stored matrix1 ∧
    getQ matrix1 quadrant !! index = Some todo1 ∧
    toggleTodo clock todoId w1 = (Returned matrix2, w2) ∧
    todoFile w2 = Stored matrix2 ∧
    getQ matrix2 quadrant !! index = Some todo2 ∧
    ticks w < n1 ∧ ticks w1 < n2 ∧
    createdAt todo1 = createdAt todo ∧ createdAt todo2 = createdAt todo ∧
    completed todo1 = negb (completed todo) ∧
    completed todo2 = completed todo ∧
    (completed todo = false →
       completedAt todo1 = Some (clock n1) ∧
       (ts_le (createdAt todo) (clock n1) →
        ∃ stamp, completedAt todo1 = Some stamp ∧ ts_le (createdAt todo1) stamp) ∧
       completedAt todo2 = None) ∧
    (completed todo = true →
       completedAt todo1 = None ∧ completedAt todo2 = Some (clock n2)).
Proof.
  intros Hfile Hresolve Hfind.
  destruct (toggleTodo_once clock w matrix todoId uuid quadrant index todo
              Hfile Hresolve Hfind)
    as (n1 & matrix1 & w1 & Hn1 & Hrun1 & Hfile1 & Hresolve1 & Hfind1).
  destruct (toggleTodo_once clock w1 matrix1 todoId uuid quadrant index _
              Hfile1 Hresolve1 Hfind1)
    as (n2 & matrix2 & w2 & Hn2 & Hrun2 & Hfile2 & _ & Hfind2).
  apply findIndex_Some in Hfind1 as [Hlookup1 _].
  apply findIndex_Some in Hfind2 as [Hlookup2 _].
  destruct (toggleItem_fields (clock n1) todo) as (_ & Hc1 & Hd1 & Ha1).
  destruct (toggleItem_fields (clock n2) (toggleItem (clock n1) todo))
    as (_ & Hc2 & Hd2 & Ha2).
  exists n1, n2, matrix1, w1, matrix2, w2, (toggleItem (clock n1) todo),
    (toggleItem (clock n2) (toggleItem (clock n1) todo)).
  repeat (split; [done || congruence|]).
  split; [by rewrite Hd2, Hd1, negb_involutive|].
  split; intros Hwas; rewrite Hwas in *; simpl in *.
  - rewrite Ha1, Ha2, Hd1. simpl. repeat split; try done.
    intros Hle. exists (clock n1). by rewrite Hc1.
  - by rewrite Ha1, Ha2, Hd1.
Qed.

Lemma toggle_completion_law_witness :
  ∃ matrix1 w1 todo1,
    toggleTodo Sample.clock "A2" Sample.world = (Returned matrix1, w1) ∧
    getQ matrix1 key_important_urgent !! 1 = Some todo1 ∧
    completed todo1 = true.
Proof.
  destruct (toggle_completion_law Sample.clock Sample.world Sample.matrix "A2" "beta"
              key_important_urgent 1 Sample.beta eq_refl)
    as (n1 & n2 & matrix1 & w1 & matrix2 & w2 & todo1 & todo2 & Hrun & _ & Hlookup
        & _ & _ & _ & _ & _ & _ & _ & Hdone & _).
  - by vm_compute.
  - by vm_compute.
  - by exists matrix1, w1, todo1.
Defined.

(** ** The four passes of an update together *)

Section WholeUpdate.

Variable clock : nat → Timestamp.

Lemma setQ_setQ matrix quadrant l l' :
  setQ (setQ matrix quadrant l) quadrant l' = setQ matrix quadrant l'.
Proof. by destruct quadrant. Qed.

Lemma default_default {A} (x : A) (o : option A) :
  default (default x o) o = default x o.
Proof. by destruct o. Qed.

(** The item a pass stores is the spread of the patch over the old item,
    up to [completedAt], which the completion rule may set. *)
Lemma mergeTodo_shape ts todo updates :
  mergeTodo ts todo updates =
  set_completedAt (completedAt (mergeTodo ts todo updates)) (spread todo updates).
Proof.
  unfold mergeTodo. destruct (becomes_completed _ _); [done|].
  by destruct (bool_decide _).
Qed.

Lemma spread_set_completedAt stamp todo updates :
  spread (set_completedAt stamp (spread todo updates)) updates =
  set_completedAt (default stamp (upd_completedAt updates)) (spread todo updates).
Proof. unfold spread, set_completedAt. simpl. by rewrite !default_default. Qed.

Lemma mergeTodo_stamped ts stamp todo updates :
  ∃ stamp',
    mergeTodo ts (set_completedAt stamp (spread todo updates)) updates =
    set_completedAt stamp' (spread todo updates).
Proof.
  eexists. rewrite mergeTodo_shape, spread_set_completedAt. done.
Qed.

(** Merging the patch a second time changes nothing, unless the patch
    carries a [completedAt] and the first merge stamped the completion. *)
Lemma mergeTodo_again ts1 ts2 oldTodo updates :
  upd_completedAt updates = None ∨ becomes_completed oldTodo updates = false →
  mergeTodo ts2 (mergeTodo ts1 oldTodo updates) updates = mergeTodo ts1 oldTodo updates.
Proof.
  intros Hcond. unfold mergeTodo at 1.
  assert (becomes_completed (mergeTodo ts1 oldTodo updates) updates = false) as ->.
  { unfold becomes_completed, mergeTodo.
    case_bool_decide as Hc; [|done]. simpl. clear Hcond.
    destruct (becomes_completed _ _); [|destruct (bool_decide _)];
      simpl; by rewrite Hc. }
  unfold mergeTodo, becomes_completed in *.
  destruct updates as [uid uti ude upr uur uco ucr uca uta uli ume]; simpl in *.
  destruct oldTodo as [oid oti ode opr our oco ocr oca ota oli ome]; simpl in *.
  unfold spread, set_completedAt; simpl.
  destruct uco as [[]|]; simpl in *; destruct oco; simpl in *;
    destruct Hcond as [->|Hcond]; try discriminate; simpl;
    f_equal; apply default_default.
Qed.

Lemma updatePass_none ts uuid updates quadrant st :
  findIndex uuid (getQ st.1 quadrant) = None →
  updatePass ts uuid updates quadrant st = st.
Proof. destruct st as [matrix found]. simpl. intros H. unfold updatePass. by rewrite H. Qed.

Lemma updatePass_found ts uuid updates quadrant matrix found index oldTodo :
  findIndex uuid (getQ matrix quadrant) = Some (index, oldTodo) →
  updatePass ts uuid updates quadrant (matrix, found) =
  (reclassified matrix quadrant index (mergeTodo ts oldTodo updates), true).
Proof. intros H. unfold updatePass, reclassified. rewrite H. simpl. by case_decide. Qed.

Lemma reclassified_getQ_other matrix quadrant index item other :
  other ≠ quadrant → other ≠ getQuadrantKey item →
  getQ (reclassified matrix quadrant index item) other = getQ matrix other.
Proof.
  intros H1 H2. unfold reclassified. case_decide; by rewrite !getQ_setQ_ne.
Qed.

Lemma reclassified_getQ_new matrix quadrant index item :
  getQuadrantKey item ≠ quadrant →
  getQ (reclassified matrix quadrant index item) (getQuadrantKey item) =
  getQ matrix (getQuadrantKey item) ++ [item].
Proof.
  intros H. unfold reclassified. rewrite decide_True by done.
  by rewrite getQ_setQ_eq, getQ_setQ_ne.
Qed.

(** Once the item has been reclassified, in a matrix that holds the [id]
    in one quadrant only, a pass over another quadrant finds nothing, or
    finds the item it has just moved there and merges the patch into it
    again, in place: the matrix stays a reclassification of the first one
    by the spread item, with some [completedAt]. *)
Lemma updatePass_keeps_reclassified ts uuid updates quadrant matrix index oldTodo
    other stamp :
  findIndex uuid (getQ matrix quadrant) = Some (index, oldTodo) →
  (∀ q, q ≠ quadrant → findIndex uuid (getQ matrix q) = None) →
  other ≠ quadrant →
  ∃ stamp',
    updatePass ts uuid updates other
      (reclassified matrix quadrant index
         (set_completedAt stamp (spread oldTodo updates)), true) =
    (reclassified matrix quadrant index
       (set_completedAt stamp' (spread oldTodo updates)), true) ∧
    (set_completedAt stamp' (spread oldTodo updates) =
       set_completedAt stamp (spread oldTodo updates) ∨
     set_completedAt stamp' (spread oldTodo updates) =
       mergeTodo ts (set_completedAt stamp (spread oldTodo updates)) updates).
Proof.
  intros Hfind Hothers Hne.
  set (item := set_completedAt stamp (spread oldTodo updates)).
  destruct (findIndex uuid (getQ (reclassified matrix quadrant index item) other))
    as [[j again]|] eqn:Hagain;
    [|exists stamp; split; [by apply updatePass_none | by left]].
  destruct (decide (other = getQuadrantKey item)) as [->|Hother];
    [|rewrite reclassified_getQ_other, Hothers in Hagain; done].
  assert (again = item) as ->.
  { rewrite reclassified_getQ_new in Hagain by done. unfold findIndex in Hagain.
    rewrite list_find_app_r in Hagain by (by apply Hothers).
    simpl in Hagain. case_decide; [|done]. simpl in Hagain.
    by injection Hagain as <- <-. }
  rewrite (updatePass_found ts uuid updates _ _ true j item Hagain).
  destruct (mergeTodo_stamped ts stamp oldTodo updates) as [stamp' Hstamped].
  fold item in Hstamped. rewrite Hstamped.
  exists stamp'. split; [|by right]. f_equal.
  apply findIndex_Some in Hagain as [Hlookup Hid].
  rewrite reclassified_getQ_new in Hlookup by done.
  assert (j = length (getQ matrix (getQuadrantKey item))) as ->.
  { apply lookup_lt_Some in Hlookup as Hlt. rewrite length_app in Hlt. simpl in Hlt.
    destruct (decide (j < length (getQ matrix (getQuadrantKey item)))) as [Hin|]; [|lia].
    rewrite lookup_app_l in Hlookup by done.
    apply list_elem_of_lookup_2 in Hlookup.
    pose proof (Hothers _ Hne) as Hnone.
    apply list_find_None in Hnone. rewrite Forall_forall in Hnone.
    destruct (Hnone item Hlookup Hid). }
  unfold reclassified at 1 3.
  change (getQuadrantKey (set_completedAt stamp' (spread oldTodo updates)))
    with (getQuadrantKey item).
  rewrite decide_False by (by intros ?). rewrite decide_True by done.
  rewrite reclassified_getQ_new by done.
  unfold reclassified. rewrite decide_True by done.
  rewrite setQ_setQ. f_equal.
  rewrite (getQ_setQ_ne matrix quadrant (getQuadrantKey item)) by done.
  by rewrite insert_app_r_alt, Nat.sub_diag by done.
Qed.

(** In a matrix that holds the [id] in one quadrant only, the four passes
    reclassify the item once: what they leave is the first matrix with the
    old item replaced by the spread item with some [completedAt], which is
    the item merged by the pass that found it unless the patch carries a
    [completedAt] and that pass stamped the completion. *)
Lemma updatePasses_reclassify ts uuid updates quadrant matrix index oldTodo :
  findIndex uuid (getQ matrix quadrant) = Some (index, oldTodo) →
  (∀ q, q ≠ quadrant → findIndex uuid (getQ matrix q) = None) →
  ∃ stamp,
    updatePasses ts uuid updates matrix =
    (reclassified matrix quadrant index
       (set_completedAt stamp (spread oldTodo updates)), true) ∧
    (upd_completedAt updates = None ∨ becomes_completed oldTodo updates = false →
     set_completedAt stamp (spread oldTodo updates) =
     mergeTodo (ts quadrant) oldTodo updates).
Proof.
  intros Hfind Hothers. unfold updatePasses.
  set (merged := mergeTodo (ts quadrant) oldTodo updates).
  set (cond := upd_completedAt updates = None ∨
               becomes_completed oldTodo updates = false).
  assert (∀ ts' other stamp,
            other ≠ quadrant →
            (cond → set_completedAt stamp (spread oldTodo updates) = merged) →
            ∃ stamp',
              updatePass ts' uuid updates other
                (reclassified matrix quadrant index
                   (set_completedAt stamp (spread oldTodo updates)), true) =
              (reclassified matrix quadrant index
                 (set_completedAt stamp' (spread oldTodo updates)), true) ∧
              (cond → set_completedAt stamp' (spread oldTodo updates) = merged))
    as Hstep.
  { intros ts' other stamp Hne Hsame.
    destruct (updatePass_keeps_reclassified ts' uuid updates quadrant matrix index
                oldTodo other stamp Hfind Hothers Hne) as (stamp' & Heq & Hor).
    exists stamp'. split; [done|]. intros Hcond.
    destruct Hor as [->| ->]; [by apply Hsame|].
    rewrite (Hsame Hcond). by apply mergeTodo_again. }
  assert (updatePass (ts quadrant) uuid updates quadrant (matrix, false) =
          (reclassified matrix quadrant index
             (set_completedAt (completedAt merged) (spread oldTodo updates)), true) ∧
          (cond → set_completedAt (completedAt merged) (spread oldTodo updates) = merged))
    as [Hstart Hsame].
  { rewrite (updatePass_found _ _ _ _ _ _ index oldTodo Hfind).
    fold merged.
    assert (set_completedAt (completedAt merged) (spread oldTodo updates) = merged)
      as -> by (symmetry; apply mergeTodo_shape).
    done. }
  destruct quadrant;
    rewrite ?(updatePass_none _ _ _ _ (matrix, false)) by (by apply Hothers);
    rewrite Hstart;
    repeat match goal with
      | |- context [updatePass ?t uuid updates ?o
                      (reclassified matrix _ index (set_completedAt ?s _), true)] =>
          let H := fresh in
          destruct (Hstep t o s ltac:(done) ltac:(assumption)) as (? & -> & H)
      end;
    eauto.
Qed.

(** The update of an item whose [id] the matrix holds in one quadrant only:
    it returns and saves the reclassified matrix. *)
Lemma updateTodo_reclassifies w matrix todoId uuid updates quadrant index oldTodo :
  todoFile w = Stored matrix →
  resolveIfFriendly matrix todoId = Returned uuid →
  findIndex uuid (getQ matrix quadrant) = Some (index, oldTodo) →
  (∀ q, q ≠ quadrant → findIndex uuid (getQ matrix q) = None) →
  ∃ n stamp matrix' w',
    ticks w < n ∧
    updateTodo clock todoId updates w = (Returned matrix', w') ∧
    todoFile w' = Stored matrix' ∧
    (∀ q, getQ matrix' q =
          getQ (reclassified matrix quadrant index
                  (set_completedAt stamp (spread oldTodo updates))) q) ∧
    (upd_completedAt updates = None ∨ becomes_completed oldTodo updates = false →
     set_completedAt stamp (spread oldTodo updates) = mergeTodo (clock n) oldTodo updates).
Proof.
  intros Hfile Hresolve Hfind Hothers.
  destruct (updateTodo_run clock todoId updates w)
    as (loadedMatrix & w1 & (Hload & _) & Hrun).
  rewrite (load_stored clock w matrix Hfile) in Hload.
  injection Hload as <- <-. rewrite Hresolve in Hrun.
  destruct Hrun as (ts & w2 & Hread & _ & ->). rewrite finish_run.
  destruct (updatePasses_reclassify ts uuid updates quadrant matrix index oldTodo
              Hfind Hothers) as (stamp & -> & Hsame).
  destruct (Hread quadrant) as (n & Hn & Hts). rewrite Hts in Hsame.
  eexists n, stamp, _, _. split; [done|]. split; [done|]. split; [done|].
  split; [|done]. intros q. by rewrite getQ_set_stats.
Qed.

(** In a matrix with unique ids no other quadrant holds the [id]. *)
Lemma unique_ids_elsewhere matrix uuid quadrant index todo :
  unique_ids matrix →
  findIndex uuid (getQ matrix quadrant) = Some (index, todo) →
  ∀ q, q ≠ quadrant → findIndex uuid (getQ matrix q) = None.
Proof.
  intros Hunique [Hlookup Hid]%findIndex_Some q Hne.
  apply list_find_None, Forall_forall. intros other Hin Hsame.
  apply list_elem_of_lookup_2 in Hlookup.
  apply (list_elem_of_fmap_2 id) in Hlookup, Hin. rewrite Hid in Hlookup.
  rewrite Hsame in Hin. revert Hunique Hlookup Hin.
  unfold unique_ids, allTodos. rewrite !fmap_app, !NoDup_app.
  destruct quadrant, q; try done; simpl;
    intros (_ & Ha & _ & Hb & _ & Hc & _) ? ?;
    first [apply (Ha uuid); [done | rewrite ?elem_of_app; by eauto]
          |apply (Hb uuid); [done | rewrite ?elem_of_app; by eauto]
          |apply (Hc uuid); [done | rewrite ?elem_of_app; by eauto]].
Qed.

End WholeUpdate.

(** ** Reclassification on update *)

Lemma reclassified_positions matrix quadrant index item oldTodo matrix' :
  getQ matrix quadrant !! index = Some oldTodo →
  (∀ q, getQ matrix' q = getQ (reclassified matrix quadrant index item) q) →
  moved_or_replaced matrix quadrant index item matrix'.
Proof.
  intros Hlookup Hsame.
  pose proof (lookup_lt_Some _ _ _ Hlookup) as Hlt.
  unfold moved_or_replaced. split; intros Hkey.
  - assert (∀ q, getQ matrix' q =
                 getQ (setQ (setQ matrix quadrant (delete index (getQ matrix quadrant)))
                         (getQuadrantKey item)
                         (getQ matrix (getQuadrantKey item) ++ [item])) q) as Hq.
    { intros q. rewrite Hsame. unfold reclassified. rewrite decide_True by done.
      by rewrite (getQ_setQ_ne matrix quadrant (getQuadrantKey item)). }
    repeat split.
    + rewrite Hq, getQ_setQ_ne, getQ_setQ_eq by done. by rewrite length_delete.
    + intros j Hj. rewrite Hq, getQ_setQ_ne, getQ_setQ_eq by done.
      by apply list_lookup_delete_lt.
    + intros j Hj. rewrite Hq, getQ_setQ_ne, getQ_setQ_eq by done.
      by apply list_lookup_delete_ge.
    + by rewrite Hq, getQ_setQ_eq.
    + intros other H1 H2. by rewrite Hq, !getQ_setQ_ne.
  - assert (∀ q, getQ matrix' q =
                 getQ (setQ matrix quadrant (<[index:=item]> (getQ matrix quadrant))) q)
      as Hq.
    { intros q. rewrite Hsame. unfold reclassified.
      by rewrite decide_False by (by intros ?). }
    repeat split.
    + by rewrite Hq, getQ_setQ_eq, length_insert.
    + rewrite Hq, getQ_setQ_eq. by apply list_lookup_insert_eq.
    + intros j Hj. rewrite Hq, getQ_setQ_eq. by apply list_lookup_insert_ne.
    + intros other H1. by rewrite Hq, getQ_setQ_ne.
Qed.

(** C3. Take any matrix and an item that a pass of [updateTodo] finds, at
    [index] of the array of [quadrant].  The pass returns.  When the merged
    item computes to another quadrant, the item is taken out of its array:
    the items before it stay, those after it move down one position; and
    the merged item becomes the last one of the array of the new quadrant,
    the other two arrays being untouched.  When the quadrant is unchanged,
    the merged item replaces the old one at [index] and nothing else
    changes.  And when no other quadrant holds the identifier, this is what
    the whole of [updateTodo] returns and saves, the merged item being the
    patch spread over the old item with the [completedAt] that the
    completion rule gives it: the item the finding pass merged, for every
    patch that does not carry a [completedAt] next to a completion. *)
Theorem reclassification_move (clock : nat → Timestamp) todoId updates quadrant
    matrix index oldTodo :
  findIndex todoId (getQ matrix quadrant) = Some (index, oldTodo) →
  (∀ found w,
     ∃ matrix' w',
       updateInQuadrant clock todoId updates quadrant (matrix, found) w =
         (Returned (matrix', true), w') ∧
       moved_or_replaced matrix quadrant index
         (mergeTodo (clock (ticks w)) oldTodo updates) matrix') ∧
  (∀ w ident,
     todoFile w = Stored matrix →
     resolveIfFriendly matrix ident = Returned todoId →
     (∀ q, q ≠ quadrant → findIndex todoId (getQ matrix q) = None) →
     ∃ n stamp matrix' w',
       ticks w < n ∧
       updateTodo clock ident updates w = (Returned matrix', w') ∧
       todoFile w' = Stored matrix' ∧
       moved_or_replaced matrix quadrant index
         (set_completedAt stamp (spread oldTodo updates)) matrix' ∧
       (upd_completedAt updates = None ∨ becomes_completed oldTodo updates = false →
        set_completedAt stamp (spread oldTodo updates) =
        mergeTodo (clock n) oldTodo updates)).
Proof.
  intros Hfind. destruct (findIndex_Some _ _ _ _ Hfind) as [Hlookup _]. split.
  - intros found w.
    destruct (updateInQuadrant_run clock todoId updates quadrant (matrix, found) w)
      as (w' & Hrun & _).
    rewrite (updatePass_found _ _ _ _ _ _ index oldTodo Hfind) in Hrun.
    eexists _, w'. split; [exact Hrun|].
    by apply (reclassified_positions matrix quadrant index _ oldTodo).
  - intros w ident Hfile Hresolve Hothers.
    destruct (updateTodo_reclassifies clock w matrix ident todoId updates quadrant
                index oldTodo Hfile Hresolve Hfind Hothers)
      as (n & stamp & matrix' & w' & Hn & Hrun & Hstored & Hsame & Hitem).
    exists n, stamp, matrix', w'. repeat (split; [done|]). split; [|done].
    by apply (reclassified_positions matrix quadrant index _ oldTodo).
Qed.

Lemma reclassification_move_witness :
  let patch := mkUpdates None None None (Some "low") None None None None None None None in
  ∃ matrix' w',
    updateTodo Sample.clock "A2" patch Sample.world = (Returned matrix', w') ∧
    getQ matrix' key_important_urgent !! 1 = Some Sample.gamma ∧
    ∃ stamp,
      getQ matrix' key_not_important_urgent =
      [Sample.delta; set_completedAt stamp (spread Sample.beta patch)].
Proof.
  intros patch.
  destruct (reclassification_move Sample.clock "beta" patch key_important_urgent
              Sample.matrix 1 Sample.beta eq_refl) as [_ Hwhole].
  destruct (Hwhole Sample.world "A2" eq_refl eq_refl)
    as (n & stamp & matrix' & w' & _ & Hrun & _ & [Hmove _] & _).
  { by intros []. }
  destruct (Hmove ltac:(done)) as (_ & _ & Hshift & Hpush & _).
  exists matrix', w'. split; [done|]. split; [|by exists stamp].
  rewrite (Hshift 1) by done. done.
Defined.

(** ** What an update leaves as it was *)

Section Frame.

Implicit Types (matrix : TodoMatrix) (updates : Updates).







End Frame.




(** The scenario of the specification: the second of three items of
    quadrant A is updated to low priority.  It leaves A, where the third
    item moves up, and becomes the last item of quadrant C. *)
Example update_moves_A2_to_C :
  ∃ matrix' w',
    updateTodo Sample.clock "A2"
      (mkUpdates None None None (Some "low") None None None None None None None)
      Sample.world = (Returned matrix', w') ∧
    id <$> important_urgent matrix' = ["alpha"; "gamma"] ∧
    id <$> not_important_urgent matrix' = ["delta"; "beta"] ∧
    generateDisplayId matrix' Sample.gamma = "A2".
Proof. eexists _, _. by vm_compute. Qed.

(** A patch that carries [completed = true] together with a [completedAt]
    is merged twice when the item moves to a quadrant that is visited later:
    the pass over the new quadrant finds the item again and, the item being
    completed by then, takes the [completedAt] of the patch.  When the item
    moves to a quadrant visited earlier, or stays, the clock reading
    stands. *)
Example update_merges_twice_forward :
  let patch priority0 :=
    mkUpdates None None None (Some priority0) None (Some true) None
      (Some (Some "1999-12-31T23:59:59.000Z")) None None None in
  (∃ matrix' w',
     updateTodo Sample.clock "alpha" (patch "low") Sample.world = (Returned matrix', w') ∧
     completedAt <$> not_important_urgent matrix' =
       [Some "2026-02-02T09:00:00.000Z"; Some "1999-12-31T23:59:59.000Z"]) ∧
  (∃ matrix' w',
     updateTodo Sample.clock "omega" (patch "high") Sample.world = (Returned matrix', w') ∧
     completedAt <$> important_not_urgent matrix' = [Some "2026-03-01T10:00:00.101Z"]).
Proof. split; eexists _, _; by vm_compute. Qed.

(** ** Concrete checks *)

Lemma sample_consistent : quadrant_consistent Sample.matrix.
Proof.
  intros [] todo Hin; simpl in Hin;
    repeat (apply elem_of_cons in Hin as [->|Hin]; [done|]);
    by apply elem_of_nil in Hin.
Qed.

Lemma sample_unique : unique_ids Sample.matrix.
Proof. apply (bool_decide_unpack _). by vm_compute. Qed.

Lemma quadrant_consistency_invariant_witness :
  ∃ matrix,
    todoFile (run Sample.clock
                [OpAdd Sample.alpha; OpAdd Sample.delta; OpToggle "A1";
                 OpUpdate "C1" (mkUpdates None None None (Some "high") None None
                                  None None None None None);
                 OpDelete "nothing"; OpAdd Sample.omega]
                Sample.fresh) = Stored matrix ∧
    ∀ todo, todo ∈ allTodos matrix → todo ∈ getQ matrix (getQuadrantKey todo).
Proof.
  destruct (quadrant_consistency_invariant Sample.clock
              [OpAdd Sample.alpha; OpAdd Sample.delta; OpToggle "A1";
               OpUpdate "C1" (mkUpdates None None None (Some "high") None None
                                None None None None None);
               OpDelete "nothing"; OpAdd Sample.omega]
              Sample.fresh (or_introl eq_refl)) as [Hstored Hall].
  destruct (Hstored ltac:(done)) as [matrix Hfile].
  exists matrix. split; [done|]. intros todo Hin. by apply (Hall matrix Hfile todo Hin).
Defined.

Lemma display_id_round_trip_witness :
  resolveUserFriendlyId Sample.matrix (generateDisplayId Sample.matrix Sample.gamma) =
  Returned (Some "gamma").
Proof.
  apply (display_id_round_trip Sample.matrix Sample.gamma sample_consistent sample_unique).
  apply elem_of_allTodos. exists key_important_urgent. simpl.
  do 2 apply list_elem_of_further. apply list_elem_of_here.
Defined.



Lemma not_found_is_atomic_witness :
  fails_untouched Sample.world Sample.matrix "A9" (deleteTodo Sample.clock "A9" Sample.world).
Proof.
  exact (proj2 (proj2 (not_found_is_atomic Sample.clock Sample.world Sample.matrix
                         "A9" no_updates eq_refl eq_refl))).
Defined.

Lemma resolver_total_under_shape_guard_witness :
  ∃ r, resolveUserFriendlyId Sample.matrix "c1" = Returned r ∧
       (r = None ∨ ∃ todo, todo ∈ allTodos Sample.matrix ∧ r = Some (id todo)).
Proof.
  exact (proj1 (resolver_total_under_shape_guard Sample.clock "c1" eq_refl) Sample.matrix).
Defined.

(** * Further properties of the store *)

(** ** The statistics *)

Lemma filter_completed_length (l : list TodoItem) :
  length (filter (λ todo, completed todo = true) l) +
  length (filter (λ todo, completed todo = false) l) = length l.
Proof.
  induction l as [|todo l IH]; [done|].
  rewrite !filter_cons. destruct (completed todo); simpl; lia.
Qed.

Lemma computeStats_sum matrix :
  stats_total (computeStats matrix) =
  stats_completed (computeStats matrix) + stats_active (computeStats matrix).
Proof. simpl. by rewrite filter_completed_length. Qed.

Lemma computeStats_set_stats s ts matrix :
  computeStats (set_stats s ts matrix) = computeStats matrix.
Proof. done. Qed.

Lemma stats_agree_saved ts matrix :
  stats_agree (set_stats (computeStats matrix) ts matrix).
Proof. done. Qed.

Section Counting.

Variable clock : nat → Timestamp.

(** The anatomy of an operation: it loads, and then either throws without
    touching the file again or saves some content with fresh statistics. *)
Lemma perform_shape op w :
  ∃ matrix w1,
    loaded clock w matrix w1 ∧
    ((∃ e w2, perform clock op w = (Thrown e, w2) ∧ only_ticked w1 w2) ∨
     (∃ content w2,
        only_ticked w1 w2 ∧
        let saved := set_stats (computeStats content) (clock (ticks w2)) content in
        perform clock op w =
        (Returned saved,
         mkWorld (Stored saved) (console w2) (S (ticks w2)) (S (writes w2))))).
Proof.
  assert (∀ uuid st w1 w2, only_ticked w1 w2 →
    (∃ e w3, finish clock uuid st w2 = (Thrown e, w3) ∧ only_ticked w1 w3) ∨
    (∃ content w3,
       only_ticked w1 w3 ∧
       finish clock uuid st w2 =
       (Returned (set_stats (computeStats content) (clock (ticks w3)) content),
        mkWorld (Stored (set_stats (computeStats content) (clock (ticks w3)) content))
          (console w3) (S (ticks w3)) (S (writes w3))))) as Hfinish.
  { intros uuid [content found] w1 w2 Hticked. rewrite finish_run.
    destruct found; simpl; [right|left]; eauto. }
  destruct op as [todo|todoId updates|todoId|todoId]; simpl.
  - destruct (addTodo_run clock todo w) as (matrix & w1 & Hloaded & ->).
    exists matrix, w1. split; [done|]. right. rewrite save_run.
    eexists _, w1. split; [apply only_ticked_refl | done].
  - destruct (updateTodo_run clock todoId updates w) as (matrix & w1 & Hloaded & Hrun).
    exists matrix, w1. split; [done|].
    destruct (resolveIfFriendly matrix todoId) as [uuid|e].
    + destruct Hrun as (ts & w2 & _ & Hticked & ->). by apply Hfinish.
    + left. exists e, w1. split; [done | apply only_ticked_refl].
  - destruct (toggleTodo_run clock todoId w) as (matrix & w1 & Hloaded & Hrun).
    exists matrix, w1. split; [done|].
    destruct (resolveIfFriendly matrix todoId) as [uuid|e].
    + destruct Hrun as (ts & w2 & _ & Hticked & ->). by apply Hfinish.
    + left. exists e, w1. split; [done | apply only_ticked_refl].
  - destruct (deleteTodo_run clock todoId w) as (matrix & w1 & Hloaded & Hrun).
    exists matrix, w1. split; [done|].
    destruct (resolveIfFriendly matrix todoId) as [uuid|e].
    + rewrite Hrun. apply Hfinish, only_ticked_refl.
    + left. exists e, w1. split; [done | apply only_ticked_refl].
Qed.

Lemma loaded_counted w matrix w1 :
  world_counted w → loaded clock w matrix w1 →
  stats_agree matrix ∧ world_counted w1.
Proof.
  intros Hw (_ & Hfile & _ & Hfrom).
  assert (stats_agree matrix) as H.
  { destruct Hfrom as [Hstored|[ts ->]]; [by apply Hw | done]. }
  split; [done|]. intros matrix'. rewrite Hfile. by intros [= <-].
Qed.

Lemma perform_counted op w :
  world_counted w →
  world_counted (perform clock op w).2 ∧
  ∀ matrix, (perform clock op w).1 = Returned matrix →
            stats_agree matrix ∧ todoFile (perform clock op w).2 = Stored matrix.
Proof.
  intros Hw.
  destruct (perform_shape op w) as (matrix & w1 & Hloaded & Hrun).
  destruct (loaded_counted w matrix w1 Hw Hloaded) as [_ Hw1].
  destruct Hrun as [(e & w2 & -> & Hfile & _)|(content & w2 & _ & ->)]; simpl.
  - split; [|done]. intros matrix'. rewrite Hfile. apply Hw1.
  - split; [by intros ? [= <-] | by intros ? [= <-]].
Qed.

Lemma run_counted ops w : world_counted w → world_counted (run clock ops w).
Proof.
  revert w. induction ops as [|op rest IH]; intros w Hw; [done|].
  simpl. by apply IH, perform_counted.
Qed.

(** X1.  The statistics always describe the content.  An operation that
    returns leaves in the file the matrix it returns, and the statistics of
    that matrix count its items: the total is the number of items, the two
    other counters are the numbers of completed and of active items, and
    they add up to the total.  Hence a file whose statistics agree with its
    content, or no file at all, is followed by such files only, whatever
    operations run and whether they return or throw. *)
Theorem statistics_follow_content ops w0 :
  world_counted w0 →
  (∀ op w matrix w',
     perform clock op w = (Returned matrix, w') →
     todoFile w' = Stored matrix ∧ stats matrix = computeStats matrix) ∧
  ∀ matrix,
    todoFile (run clock ops w0) = Stored matrix →
    stats_total (stats matrix) = length (allTodos matrix) ∧
    stats_completed (stats matrix) =
      length (filter (λ todo, completed todo = true) (allTodos matrix)) ∧
    stats_active (stats matrix) =
      length (filter (λ todo, completed todo = false) (allTodos matrix)) ∧
    stats_total (stats matrix) =
      stats_completed (stats matrix) + stats_active (stats matrix).
Proof.
  intros Hw0. split.
  - intros op w matrix w' Hrun.
    destruct (perform_shape op w) as (? & ? & _ & [(? & ? & Hthrown & _)|(? & ? & _ & Hsaved)]).
    + congruence.
    + simpl in Hsaved. rewrite Hsaved in Hrun. by injection Hrun as <- <-.
  - intros matrix Hfile. rewrite (run_counted ops w0 Hw0 matrix Hfile).
    split_and!; try done. apply computeStats_sum.
Qed.

End Counting.

Lemma statistics_follow_content_witness :
  ∃ matrix,
    todoFile (run Sample.clock
                [OpAdd Sample.alpha; OpToggle "A1"; OpDelete "nothing";
                 OpAdd Sample.omega] Sample.fresh) = Stored matrix ∧
    stats_total (stats matrix) =
      stats_completed (stats matrix) + stats_active (stats matrix).
Proof.
  eexists. split; [reflexivity|].
  apply (statistics_follow_content Sample.clock
           [OpAdd Sample.alpha; OpToggle "A1"; OpDelete "nothing"; OpAdd Sample.omega]
           Sample.fresh); [|reflexivity].
  intros stored. discriminate.
Defined.

(** ** Loading and the read-only queries *)

Section Reading.

Variable clock : nat → Timestamp.

Lemma loaded_stored w matrix w1 stored :
  loaded clock w matrix w1 → todoFile w = Stored stored →
  matrix = stored ∧ w1 = mkWorld (Stored stored) (console w) (S (ticks w)) (writes w).
Proof.
  intros (Hrun & _) Hfile. rewrite (load_stored clock w stored Hfile) in Hrun.
  by injection Hrun as <- <-.
Qed.

Lemma loaded_writes w matrix w1 :
  loaded clock w matrix w1 →
  writes w1 ≤ S (writes w) ∧
  (writes w1 = S (writes w) → ∃ ts, matrix = emptyMatrix ts).
Proof.
  intros (Hrun & _). destruct (todoFile w) as [|raw|stored] eqn:Hfile.
  - rewrite (load_absent clock w Hfile) in Hrun. injection Hrun as <- <-.
    simpl. split; [lia | eauto].
  - rewrite (load_unparsable clock w raw Hfile) in Hrun. injection Hrun as <- <-.
    simpl. split; [lia | eauto].
  - rewrite (load_stored clock w stored Hfile) in Hrun. injection Hrun as <- <-.
    simpl. split; lia.
Qed.

(** X2.  Loading settles the file.  Whatever the file held, a load returns
    a matrix, leaves the file holding that matrix and writes at most once,
    and only an empty matrix; the next load returns the same matrix and
    writes and logs nothing. *)
Theorem load_settles w :
  ∃ matrix w1 w2,
    loadTodoMatrix clock w = (Returned matrix, w1) ∧
    todoFile w1 = Stored matrix ∧
    writes w1 ≤ S (writes w) ∧
    (writes w1 = S (writes w) → allTodos matrix = []) ∧
    loadTodoMatrix clock w1 = (Returned matrix, w2) ∧
    todoFile w2 = Stored matrix ∧
    writes w2 = writes w1 ∧ console w2 = console w1.
Proof.
  destruct (load_returns clock w) as (matrix & w1 & Hloaded).
  destruct (loaded_writes w matrix w1 Hloaded) as [Hle Hfresh].
  destruct Hloaded as (Hrun & Hfile & _).
  exists matrix, w1, (mkWorld (Stored matrix) (console w1) (S (ticks w1)) (writes w1)).
  split_and!; try done.
  - intros [ts ->]%Hfresh. done.
  - by apply load_stored.
Qed.

Lemma mjoin_quadrants {B} (f : QuadrantKey → list B) :
  mjoin (f <$> quadrants) =
  f key_important_urgent ++ f key_important_not_urgent ++
  f key_not_important_urgent ++ f key_not_important_not_urgent.
Proof. simpl. by rewrite app_nil_r. Qed.

Lemma getTodoById_run todoId w :
  ∃ matrix w1,
    loaded clock w matrix w1 ∧
    getTodoById clock todoId w =
    (Returned (findFirst (lookup_key matrix todoId) matrix quadrants), w1).
Proof.
  destruct (load_returns clock w) as (matrix & w1 & Hloaded).
  exists matrix, w1. split; [done|]. destruct Hloaded as (Hrun & _).
  unfold getTodoById, lookup_key. rewrite bind_run, Hrun.
  destruct (isUserFriendlyId todoId) eqn:Hshape; [|done].
  destruct (resolve_shaped matrix todoId Hshape) as (r & -> & _). done.
Qed.

Lemma getActiveTodos_run w :
  ∃ matrix w1,
    loaded clock w matrix w1 ∧
    getActiveTodos clock w =
    (Returned (matrix, filter (λ todo, completed todo = false) (allTodos matrix)), w1).
Proof.
  destruct (load_returns clock w) as (matrix & w1 & Hloaded).
  exists matrix, w1. split; [done|]. destruct Hloaded as (Hrun & _).
  unfold getActiveTodos. rewrite bind_run, Hrun, mjoin_quadrants.
  unfold allTodos. by rewrite !filter_app.
Qed.

Lemma searchTodos_run searchOptions w :
  ∃ matrix w1,
    loaded clock w matrix w1 ∧
    searchTodos clock searchOptions w =
    (Returned (searchFilter searchOptions (allTodos matrix)), w1).
Proof.
  destruct (load_returns clock w) as (matrix & w1 & Hloaded).
  exists matrix, w1. split; [done|]. destruct Hloaded as (Hrun & _).
  unfold searchTodos. by rewrite bind_run, Hrun, mjoin_quadrants.
Qed.

End Reading.

(** ** Finding an item by its identifier *)

Section Lookup.

Variable clock : nat → Timestamp.

#[local] Arguments JS.number_to_string : simpl never.

Lemma findFirst_None todoId matrix :
  findFirst todoId matrix quadrants = None ↔
  ∀ quadrant, findIndex todoId (getQ matrix quadrant) = None.
Proof.
  unfold quadrants. cbn [findFirst]. split.
  - intros H quadrant.
    destruct (findIndex todoId (getQ matrix key_important_urgent)) as [[]|] eqn:HA; [done|].
    destruct (findIndex todoId (getQ matrix key_important_not_urgent)) as [[]|] eqn:HB; [done|].
    destruct (findIndex todoId (getQ matrix key_not_important_urgent)) as [[]|] eqn:HC; [done|].
    destruct (findIndex todoId (getQ matrix key_not_important_not_urgent)) as [[]|] eqn:HD; [done|].
    by destruct quadrant.
  - intros H. by rewrite !H.
Qed.

Lemma findFirst_Some todoId matrix todo :
  findFirst todoId matrix quadrants = Some todo →
  ∃ quadrant index,
    findIndex todoId (getQ matrix quadrant) = Some (index, todo).
Proof.
  unfold quadrants. cbn [findFirst].
  destruct (findIndex todoId (getQ matrix key_important_urgent)) as [[]|] eqn:HA;
    [intros [= <-]; eauto|].
  destruct (findIndex todoId (getQ matrix key_important_not_urgent)) as [[]|] eqn:HB;
    [intros [= <-]; eauto|].
  destruct (findIndex todoId (getQ matrix key_not_important_urgent)) as [[]|] eqn:HC;
    [intros [= <-]; eauto|].
  destruct (findIndex todoId (getQ matrix key_not_important_not_urgent)) as [[]|] eqn:HD;
    [intros [= <-]; eauto|done].
Qed.

Lemma unique_ids_same matrix todo todo' :
  unique_ids matrix → todo ∈ allTodos matrix → todo' ∈ allTodos matrix →
  id todo = id todo' → todo = todo'.
Proof.
  intros Huniq [i Hi]%list_elem_of_lookup [j Hj]%list_elem_of_lookup Hid.
  assert (i = j) as ->.
  { apply (NoDup_lookup _ i j (id todo) Huniq); rewrite list_lookup_fmap.
    - by rewrite Hi.
    - by rewrite Hj, Hid. }
  congruence.
Qed.

Lemma findFirst_unique matrix todo :
  unique_ids matrix → todo ∈ allTodos matrix →
  findFirst (id todo) matrix quadrants = Some todo.
Proof.
  intros Huniq Hin.
  destruct (findFirst (id todo) matrix quadrants) as [found|] eqn:Hfirst.
  - destruct (findFirst_Some _ _ _ Hfirst) as (quadrant & index & Hfind).
    destruct (findIndex_Some _ _ _ _ Hfind) as [Hlookup Hid].
    f_equal. apply (unique_ids_same matrix); [done| |done|done].
    apply elem_of_allTodos. exists quadrant. by eapply list_elem_of_lookup_2.
  - apply elem_of_allTodos in Hin as [quadrant Hin].
    destruct (findIndex_elem_of todo _ Hin) as (index & found & Hfind).
    rewrite findFirst_None in Hfirst. by rewrite Hfirst in Hfind.
Qed.

Lemma unique_ids_getQ matrix quadrant :
  unique_ids matrix → NoDup (id <$> getQ matrix quadrant).
Proof.
  unfold unique_ids, allTodos. rewrite !fmap_app, !NoDup_app.
  intros (? & _ & ? & _ & ? & _ & ?). by destruct quadrant.
Qed.

Lemma findIndex_NoDup (l : list TodoItem) index todo :
  NoDup (id <$> l) → l !! index = Some todo →
  findIndex (id todo) l = Some (index, todo).
Proof.
  intros Huniq Hlookup.
  destruct (findIndex_elem_of todo l) as (i & found & Hfind);
    [by eapply list_elem_of_lookup_2|].
  destruct (findIndex_Some _ _ _ _ Hfind) as [Hi Hid].
  assert (i = index) as ->.
  { apply (NoDup_lookup _ i index (id todo) Huniq); rewrite list_lookup_fmap.
    - rewrite Hi. simpl. by rewrite Hid.
    - by rewrite Hlookup. }
  congruence.
Qed.

(** The label of a row names the item of the row. *)
Lemma rowDisplayId_resolves matrix quadrant index todo :
  getQ matrix quadrant !! index = Some todo →
  isUserFriendlyId (rowDisplayId quadrant index) = true ∧
  resolveUserFriendlyId matrix (rowDisplayId quadrant index) = Returned (Some (id todo)).
Proof.
  intros Hlookup. unfold rowDisplayId.
  destruct (parse_display_id quadrant (index + 1)) as (Hkey & Hidx & Hshape).
  split; [apply Hshape; lia|].
  rewrite resolve_cases, Hkey, Hidx.
  pose proof (lookup_lt_Some _ _ _ Hlookup) as Hlt.
  destruct (Z.leb_spec (Z.of_nat (index + 1)) 0); [lia|].
  destruct (Z.ltb_spec (Z.of_nat (length (getQ matrix quadrant)))
              (Z.of_nat (index + 1))); [lia|].
  replace (Z.to_nat (Z.of_nat (index + 1) - 1)) with index by lia.
  by rewrite Hlookup.
Qed.

Lemma generateDisplayId_row matrix quadrant index todo :
  quadrant_consistent matrix → unique_ids matrix →
  getQ matrix quadrant !! index = Some todo →
  generateDisplayId matrix todo = rowDisplayId quadrant index ∧
  getDisplayIdForTodo matrix todo = rowDisplayId quadrant index.
Proof.
  intros Hcons Huniq Hlookup.
  assert (getQuadrantKey todo = quadrant) as Hkey
    by (by eapply Hcons, list_elem_of_lookup_2).
  pose proof (findIndex_NoDup _ index todo (unique_ids_getQ matrix quadrant Huniq) Hlookup)
    as Hfind.
  rewrite <- Hkey in Hfind. split.
  - by rewrite (generateDisplayId_found matrix todo index todo Hfind), Hkey.
  - unfold getDisplayIdForTodo. by rewrite Hfind, Hkey.
Qed.

(** X3.  The three ways to label an item agree, and the label is usable.
    The label that the terminal interface puts on the row at [index] of a
    quadrant list has the shape of a display identifier and resolves to the
    identifier of the item of that row, in every matrix.  In a matrix that
    is quadrant-consistent and has unique identifiers it is also what
    [generateDisplayId] and [getDisplayIdForTodo] compute for that item. *)
Theorem row_labels_resolve matrix quadrant index todo :
  getQ matrix quadrant !! index = Some todo →
  isUserFriendlyId (rowDisplayId quadrant index) = true ∧
  resolveUserFriendlyId matrix (rowDisplayId quadrant index) = Returned (Some (id todo)) ∧
  (quadrant_consistent matrix → unique_ids matrix →
   generateDisplayId matrix todo = rowDisplayId quadrant index ∧
   getDisplayIdForTodo matrix todo = rowDisplayId quadrant index).
Proof.
  intros Hlookup.
  destruct (rowDisplayId_resolves matrix quadrant index todo Hlookup) as [Hshape Hres].
  split_and!; [done|done|]. intros Hcons Huniq. by apply generateDisplayId_row.
Qed.

Lemma displayId_is_row matrix todo :
  quadrant_consistent matrix → unique_ids matrix → todo ∈ allTodos matrix →
  ∃ quadrant index,
    getQ matrix quadrant !! index = Some todo ∧
    generateDisplayId matrix todo = rowDisplayId quadrant index.
Proof.
  intros Hcons Huniq [quadrant [index Hlookup]%list_elem_of_lookup]%elem_of_allTodos.
  exists quadrant, index. split; [done|]. by apply generateDisplayId_row.
Qed.

Lemma lookup_key_displayId matrix todo :
  quadrant_consistent matrix → unique_ids matrix → todo ∈ allTodos matrix →
  id todo ≠ "" →
  lookup_key matrix (generateDisplayId matrix todo) = id todo ∧
  resolveIfFriendly matrix (generateDisplayId matrix todo) = Returned (id todo).
Proof.
  intros Hcons Huniq Hin Hid.
  destruct (displayId_is_row matrix todo Hcons Huniq Hin)
    as (quadrant & index & Hlookup & ->).
  destruct (rowDisplayId_resolves matrix quadrant index todo Hlookup) as [Hshape Hres].
  unfold lookup_key, resolveIfFriendly. rewrite Hshape, Hres. simpl.
  destruct (String.eqb_spec (id todo) ""); done.
Qed.

(** X4.  Looking an item up by its display identifier finds that item.  In
    a stored matrix that is quadrant-consistent and has unique identifiers,
    [getTodoById] with the display identifier generated for an item whose
    [id] is not empty returns the item, and only reads the clock. *)
Theorem lookup_by_display_id w matrix todo :
  todoFile w = Stored matrix →
  quadrant_consistent matrix → unique_ids matrix →
  todo ∈ allTodos matrix → id todo ≠ "" →
  getTodoById clock (generateDisplayId matrix todo) w =
  (Returned (Some todo), mkWorld (Stored matrix) (console w) (S (ticks w)) (writes w)).
Proof.
  intros Hfile Hcons Huniq Hin Hid.
  destruct (lookup_key_displayId matrix todo Hcons Huniq Hin Hid) as [Hkey _].
  destruct (getTodoById_run clock (generateDisplayId matrix todo) w)
    as (matrix' & w1 & Hloaded & ->).
  destruct (loaded_stored clock w matrix' w1 matrix Hloaded Hfile) as [-> ->].
  by rewrite Hkey, findFirst_unique.
Qed.

(** The three operations and the lookup use their argument only through
    what the opening block makes of it. *)
Lemma operations_by_key w matrix todoId todoId' updates :
  todoFile w = Stored matrix →
  resolveIfFriendly matrix todoId = resolveIfFriendly matrix todoId' →
  (∃ uuid, resolveIfFriendly matrix todoId = Returned uuid) →
  updateTodo clock todoId updates w = updateTodo clock todoId' updates w ∧
  toggleTodo clock todoId w = toggleTodo clock todoId' w ∧
  deleteTodo clock todoId w = deleteTodo clock todoId' w.
Proof.
  intros Hfile Heq [uuid Hres].
  unfold updateTodo, toggleTodo, deleteTodo.
  rewrite !bind_run, !(load_stored clock w matrix Hfile).
  rewrite !bind_run. unfold call. by rewrite <- Heq.
Qed.

(** X5.  A display identifier and the stable identifier it stands for are
    interchangeable.  In a stored matrix that is quadrant-consistent and has
    unique identifiers, for an item whose [id] is not empty and does not
    itself look like a display identifier, each of [updateTodo],
    [toggleTodo], [deleteTodo] and [getTodoById] does the same, result and
    world, whether it is given the display identifier generated for the
    item or the [id] of the item. *)
Theorem display_id_interchangeable w matrix todo updates :
  todoFile w = Stored matrix →
  quadrant_consistent matrix → unique_ids matrix →
  todo ∈ allTodos matrix →
  id todo ≠ "" → isUserFriendlyId (id todo) = false →
  let displayId := generateDisplayId matrix todo in
  updateTodo clock displayId updates w = updateTodo clock (id todo) updates w ∧
  toggleTodo clock displayId w = toggleTodo clock (id todo) w ∧
  deleteTodo clock displayId w = deleteTodo clock (id todo) w ∧
  getTodoById clock displayId w = getTodoById clock (id todo) w.
Proof.
  intros Hfile Hcons Huniq Hin Hid Hshape displayId. subst displayId.
  destruct (lookup_key_displayId matrix todo Hcons Huniq Hin Hid) as [Hkey Hres].
  assert (resolveIfFriendly matrix (id todo) = Returned (id todo)) as Hres'
    by (unfold resolveIfFriendly; by rewrite Hshape).
  destruct (operations_by_key w matrix (generateDisplayId matrix todo) (id todo)
              updates Hfile)
    as (Hupdate & Htoggle & Hdelete); [congruence | by eauto |].
  split_and!; try done.
  destruct (getTodoById_run clock (generateDisplayId matrix todo) w)
    as (matrix1 & w1 & Hloaded1 & ->).
  destruct (getTodoById_run clock (id todo) w) as (matrix2 & w2 & Hloaded2 & ->).
  destruct (loaded_stored clock w matrix1 w1 matrix Hloaded1 Hfile) as [-> ->].
  destruct (loaded_stored clock w matrix2 w2 matrix Hloaded2 Hfile) as [-> ->].
  rewrite Hkey. unfold lookup_key. by rewrite Hshape.
Qed.

(** X6.  The lookup and the operations disagree on identifiers that look
    like display identifiers.  When a string of that shape resolves to no
    row, [getTodoById] falls back to searching for an item whose [id] is
    that very string and returns the first one, whereas [updateTodo],
    [toggleTodo] and [deleteTodo] report that the item is not found and
    leave the file alone. *)
Theorem lookup_falls_back_but_operations_do_not w matrix todoId todo updates :
  todoFile w = Stored matrix →
  isUserFriendlyId todoId = true →
  resolveUserFriendlyId matrix todoId = Returned None →
  findFirst todoId matrix quadrants = Some todo →
  let w1 := mkWorld (Stored matrix) (console w) (S (ticks w)) (writes w) in
  id todo = todoId ∧ todo ∈ allTodos matrix ∧
  getTodoById clock todoId w = (Returned (Some todo), w1) ∧
  updateTodo clock todoId updates w = (Thrown (NotFoundError todoId), w1) ∧
  toggleTodo clock todoId w = (Thrown (NotFoundError todoId), w1) ∧
  deleteTodo clock todoId w = (Thrown (NotFoundError todoId), w1).
Proof.
  intros Hfile Hshape Hres Hfirst w1.
  destruct (findFirst_Some _ _ _ Hfirst) as (quadrant & index & Hfind).
  destruct (findIndex_Some _ _ _ _ Hfind) as [Hlookup Hid].
  assert (resolves_to_nothing matrix todoId) as Hnothing
    by (unfold resolves_to_nothing; by rewrite Hshape).
  split_and!; try done.
  - apply elem_of_allTodos. exists quadrant. by eapply list_elem_of_lookup_2.
  - destruct (getTodoById_run clock todoId w) as (matrix' & w' & Hloaded & ->).
    destruct (loaded_stored clock w matrix' w' matrix Hloaded Hfile) as [-> ->].
    unfold lookup_key. rewrite Hshape, Hres.
    change (default todoId (or_null None)) with todoId. by rewrite Hfirst.
  - apply (not_found_cases clock w matrix todoId updates); [done|done|]. apply list_elem_of_here.
  - apply (not_found_cases clock w matrix todoId updates); [done|done|].
    apply list_elem_of_further, list_elem_of_here.
  - apply (not_found_cases clock w matrix todoId updates); [done|done|].
    do 2 apply list_elem_of_further. apply list_elem_of_here.
Qed.

(** X7.  What the lookup does not find, the operations do not change.  When
    [getTodoById] returns [null] for an identifier on a stored matrix, each
    of [updateTodo], [toggleTodo] and [deleteTodo] throws the not-found
    error for that identifier and leaves the file and the console as they
    were. *)
Theorem not_looked_up_not_changed w matrix todoId updates w1 :
  todoFile w = Stored matrix →
  getTodoById clock todoId w = (Returned None, w1) →
  updateTodo clock todoId updates w = (Thrown (NotFoundError todoId), w1) ∧
  toggleTodo clock todoId w = (Thrown (NotFoundError todoId), w1) ∧
  deleteTodo clock todoId w = (Thrown (NotFoundError todoId), w1) ∧
  todoFile w1 = Stored matrix ∧ writes w1 = writes w ∧ console w1 = console w.
Proof.
  intros Hfile Hget.
  destruct (getTodoById_run clock todoId w) as (matrix' & w' & Hloaded & Hrun).
  destruct (loaded_stored clock w matrix' w' matrix Hloaded Hfile) as [-> ->].
  assert (findFirst (lookup_key matrix todoId) matrix quadrants = None) as Hfirst
    by congruence.
  assert (w1 = mkWorld (Stored matrix) (console w) (S (ticks w)) (writes w)) as ->
    by congruence.
  clear Hget Hrun.
  assert (resolveIfFriendly matrix todoId = Thrown (NotFoundError todoId) ∨
          resolves_to_nothing matrix todoId) as Hcases.
  { unfold resolves_to_nothing, resolveIfFriendly, lookup_key in *.
    destruct (isUserFriendlyId todoId) eqn:Hshape.
    - destruct (resolve_shaped matrix todoId Hshape) as (r & Hres & Hr).
      rewrite Hres in *. destruct Hr as [->|(todo & Hin & ->)]; [by right|].
      unfold or_null in Hfirst.
      destruct (String.eqb (id todo) "") eqn:Hempty; [by left|].
      change (default todoId (Some (id todo))) with (id todo) in Hfirst.
      rewrite findFirst_None in Hfirst.
      apply elem_of_allTodos in Hin as [quadrant Hin].
      destruct (findIndex_elem_of todo _ Hin) as (index & found & Hfind).
      by rewrite Hfirst in Hfind.
    - right. rewrite findFirst_None in Hfirst. apply Forall_forall.
      intros todo [quadrant Hin]%elem_of_allTodos Hid.
      destruct (findIndex_elem_of todo _ Hin) as (index & found & Hfind).
      rewrite Hid in Hfind. by rewrite Hfirst in Hfind. }
  assert (∀ operation,
    operation ∈ [updateTodo clock todoId updates; toggleTodo clock todoId;
                 deleteTodo clock todoId] →
    operation w =
    (Thrown (NotFoundError todoId),
     mkWorld (Stored matrix) (console w) (S (ticks w)) (writes w))) as Hops.
  { intros operation Hop. destruct Hcases as [Hthrown|Hnothing];
      [|by apply (not_found_cases clock w matrix todoId updates)].
    destruct (updateTodo_run clock todoId updates w) as (m1 & w1 & Hl1 & Hupdate).
    destruct (toggleTodo_run clock todoId w) as (m2 & w2 & Hl2 & Htoggle).
    destruct (deleteTodo_run clock todoId w) as (m3 & w3 & Hl3 & Hdelete).
    destruct (loaded_stored clock w m1 w1 matrix Hl1 Hfile) as [-> ->].
    destruct (loaded_stored clock w m2 w2 matrix Hl2 Hfile) as [-> ->].
    destruct (loaded_stored clock w m3 w3 matrix Hl3 Hfile) as [-> ->].
    rewrite Hthrown in *.
    repeat (apply elem_of_cons in Hop as [->|Hop]; [done|]).
    by apply elem_of_nil in Hop. }
  split_and!; try done; apply Hops.
  - apply list_elem_of_here.
  - apply list_elem_of_further, list_elem_of_here.
  - do 2 apply list_elem_of_further. apply list_elem_of_here.
Qed.

End Lookup.

Lemma sample_elem_of todo :
  bool_decide (todo ∈ allTodos Sample.matrix) = true → todo ∈ allTodos Sample.matrix.
Proof. apply bool_decide_eq_true_1. Qed.

Lemma row_labels_resolve_witness :
  isUserFriendlyId (rowDisplayId key_important_urgent 2) = true ∧
  resolveUserFriendlyId Sample.matrix (rowDisplayId key_important_urgent 2) =
    Returned (Some "gamma") ∧
  generateDisplayId Sample.matrix Sample.gamma = rowDisplayId key_important_urgent 2.
Proof.
  destruct (row_labels_resolve Sample.matrix key_important_urgent 2 Sample.gamma eq_refl)
    as (Hshape & Hres & Hsame).
  destruct (Hsame sample_consistent sample_unique) as [Hgen _].
  by split_and!.
Defined.

Lemma lookup_by_display_id_witness :
  getTodoById Sample.clock (generateDisplayId Sample.matrix Sample.delta) Sample.world =
  (Returned (Some Sample.delta), mkWorld (Stored Sample.matrix) [] 1 0).
Proof.
  apply (lookup_by_display_id Sample.clock Sample.world Sample.matrix Sample.delta eq_refl
           sample_consistent sample_unique).
  - apply sample_elem_of. by vm_compute.
  - discriminate.
Defined.

Lemma display_id_interchangeable_witness :
  toggleTodo Sample.clock (generateDisplayId Sample.matrix Sample.beta) Sample.world =
  toggleTodo Sample.clock "beta" Sample.world.
Proof.
  destruct (display_id_interchangeable Sample.clock Sample.world Sample.matrix Sample.beta
              no_updates eq_refl sample_consistent sample_unique) as (_ & Htoggle & _).
  - apply sample_elem_of. by vm_compute.
  - discriminate.
  - reflexivity.
  - exact Htoggle.
Defined.

Lemma lookup_falls_back_but_operations_do_not_witness :
  getTodoById Sample.clock "B1" Shadow.world =
    (Returned (Some Shadow.item), mkWorld (Stored Shadow.matrix) [] 1 0) ∧
  toggleTodo Sample.clock "B1" Shadow.world =
    (Thrown (NotFoundError "B1"), mkWorld (Stored Shadow.matrix) [] 1 0).
Proof.
  destruct (lookup_falls_back_but_operations_do_not Sample.clock Shadow.world
              Shadow.matrix "B1" Shadow.item no_updates eq_refl eq_refl eq_refl eq_refl)
    as (_ & _ & Hget & _ & Htoggle & _).
  by split.
Defined.

Lemma not_looked_up_not_changed_witness :
  deleteTodo Sample.clock "B3" Sample.world =
  (Thrown (NotFoundError "B3"), mkWorld (Stored Sample.matrix) [] 1 0).
Proof.
  destruct (not_looked_up_not_changed Sample.clock Sample.world Sample.matrix "B3"
              no_updates (mkWorld (Stored Sample.matrix) [] 1 0) eq_refl eq_refl)
    as (_ & _ & Hdelete & _).
  exact Hdelete.
Defined.

(** ** Adding, deleting and toggling, seen through the rows *)

Section Rows.

Variable clock : nat → Timestamp.

#[local] Arguments JS.number_to_string : simpl never.
#[local] Arguments findFirst : simpl never.

Lemma findIndex_ids uuid (l : list TodoItem) :
  fst <$> findIndex uuid l = fst <$> list_find (λ x, x = uuid) (id <$> l).
Proof.
  rewrite list_find_fmap. unfold findIndex.
  change ((λ x : string, x = uuid) ∘ id) with (λ t, id t = uuid).
  by destruct (list_find _ l) as [[]|].
Qed.

Lemma findIndex_position_ext uuid (l l' : list TodoItem) :
  id <$> l' = id <$> l →
  fst <$> findIndex uuid l' = fst <$> findIndex uuid l.
Proof. intros Hids. by rewrite !findIndex_ids, Hids. Qed.

Lemma generateDisplayId_ext matrix matrix' todo :
  (∀ quadrant, id <$> getQ matrix' quadrant = id <$> getQ matrix quadrant) →
  generateDisplayId matrix' todo = generateDisplayId matrix todo.
Proof.
  intros Hids. unfold generateDisplayId.
  pose proof (findIndex_position_ext (id todo) _ _ (Hids (getQuadrantKey todo))) as H.
  destruct (findIndex _ (getQ matrix' _)) as [[]|], (findIndex _ (getQ matrix _)) as [[]|];
    by simplify_eq/=.
Qed.

Lemma findIndex_app_found uuid (l : list TodoItem) todo index found :
  findIndex uuid l = Some (index, found) →
  findIndex uuid (l ++ [todo]) = Some (index, found).
Proof. apply list_find_app_l. Qed.

Lemma findIndex_not_elem_of uuid (l : list TodoItem) :
  uuid ∉ id <$> l → findIndex uuid l = None.
Proof.
  intros Hnew. apply list_find_None, Forall_forall. intros other Hin Hid.
  apply Hnew. rewrite <- Hid. by apply list_elem_of_fmap_2.
Qed.

Lemma findIndex_app_new (l : list TodoItem) todo :
  id todo ∉ id <$> l →
  findIndex (id todo) (l ++ [todo]) = Some (length l, todo).
Proof.
  intros Hnew. unfold findIndex.
  rewrite list_find_app_r by by apply findIndex_not_elem_of.
  simpl. by case_decide.
Qed.

Lemma addTodo_stored w matrix todo :
  todoFile w = Stored matrix →
  let quadrant := getQuadrantKey todo in
  let content := setQ matrix quadrant (getQ matrix quadrant ++ [todo]) in
  let saved := set_stats (computeStats content) (clock (S (ticks w))) content in
  addTodo clock todo w =
  (Returned saved, mkWorld (Stored saved) (console w) (S (S (ticks w))) (S (writes w))).
Proof.
  intros Hfile. destruct (addTodo_run clock todo w) as (matrix' & w1 & Hloaded & ->).
  destruct (loaded_stored clock w matrix' w1 matrix Hloaded Hfile) as [-> ->].
  by rewrite save_run.
Qed.

Lemma length_allTodos_push matrix quadrant todo :
  length (allTodos (setQ matrix quadrant (getQ matrix quadrant ++ [todo]))) =
  S (length (allTodos matrix)).
Proof. by rewrite allTodos_push. Qed.

(** X8.  Adding appends a row.  [addTodo] never throws; the item becomes
    the last row of the quadrant computed from its fields, every other row
    of every quadrant stays where it is, and the total of the statistics is
    one more than the number of items loaded.  The label of the new row
    resolves to the identifier of the item; it is the display identifier
    generated for the item unless the quadrant already held that
    identifier; and the display identifiers of the items that were found in
    their quadrant before are what they were. *)
Theorem add_appends_a_row w todo :
  ∃ matrix w1 matrix' w',
    loaded clock w matrix w1 ∧
    addTodo clock todo w = (Returned matrix', w') ∧
    todoFile w' = Stored matrix' ∧
    let quadrant := getQuadrantKey todo in
    let index := length (getQ matrix quadrant) in
    getQ matrix' quadrant = getQ matrix quadrant ++ [todo] ∧
    (∀ other, other ≠ quadrant → getQ matrix' other = getQ matrix other) ∧
    stats_total (stats matrix') = S (length (allTodos matrix)) ∧
    resolveUserFriendlyId matrix' (rowDisplayId quadrant index) =
      Returned (Some (id todo)) ∧
    (id todo ∉ id <$> getQ matrix quadrant →
     generateDisplayId matrix' todo = rowDisplayId quadrant index) ∧
    (∀ item, is_Some (findIndex (id item) (getQ matrix (getQuadrantKey item))) →
             generateDisplayId matrix' item = generateDisplayId matrix item).
Proof.
  destruct (addTodo_run clock todo w) as (matrix & w1 & Hloaded & Hrun).
  rewrite save_run in Hrun. cbv zeta in Hrun.
  set (content := setQ matrix (getQuadrantKey todo)
                    (getQ matrix (getQuadrantKey todo) ++ [todo])) in *.
  set (saved := set_stats (computeStats content) (clock (ticks w1)) content) in *.
  exists matrix, w1, saved, (mkWorld (Stored saved) (console w1) (S (ticks w1)) (S (writes w1))).
  assert (getQ saved (getQuadrantKey todo) = getQ matrix (getQuadrantKey todo) ++ [todo])
    as Hnew.
  { unfold saved, content. by rewrite getQ_set_stats, getQ_setQ_eq. }
  assert (∀ other, other ≠ getQuadrantKey todo → getQ saved other = getQ matrix other)
    as Hold.
  { intros other Hother. unfold saved, content.
    by rewrite getQ_set_stats, getQ_setQ_ne. }
  do 3 (split; [done|]). cbv zeta. split_and!; try done.
  - apply length_allTodos_push.
  - apply rowDisplayId_resolves. rewrite Hnew. by apply list_lookup_middle.
  - intros Hfresh.
    rewrite (generateDisplayId_found saved todo
               (length (getQ matrix (getQuadrantKey todo))) todo); [done|].
    rewrite Hnew. by apply findIndex_app_new.
  - intros item [[position found] Hfind]. unfold generateDisplayId.
    destruct (decide (getQuadrantKey item = getQuadrantKey todo)) as [Hkey|Hkey].
    + rewrite Hkey in *. rewrite Hnew.
      by rewrite (findIndex_app_found _ _ todo _ _ Hfind), Hfind.
    + by rewrite Hold.
Qed.

Lemma findFirst_found todoId matrix quadrant index todo :
  findIndex todoId (getQ matrix quadrant) = Some (index, todo) →
  (∀ other, other ≠ quadrant → findIndex todoId (getQ matrix other) = None) →
  findFirst todoId matrix quadrants = Some todo.
Proof.
  intros Hfind Hothers.
  destruct (findFirst todoId matrix quadrants) as [found|] eqn:Hfirst.
  - destruct (findFirst_Some _ _ _ Hfirst) as (q & i & Hq).
    destruct (decide (q = quadrant)) as [->|Hne]; [congruence|].
    by rewrite Hothers in Hq.
  - rewrite findFirst_None in Hfirst. by rewrite Hfirst in Hfind.
Qed.

Lemma not_elem_of_allTodos matrix uuid quadrant :
  uuid ∉ id <$> allTodos matrix → uuid ∉ id <$> getQ matrix quadrant.
Proof.
  intros Hnew Hin. apply Hnew. apply list_elem_of_fmap in Hin as (todo & -> & Hin).
  apply list_elem_of_fmap_2, elem_of_allTodos. eauto.
Qed.

(** X9.  An added item is found again.  After an item whose identifier is
    new to the stored matrix and does not look like a display identifier
    has been added, [getTodoById] with that identifier returns the item and
    writes nothing; and if the identifiers were unique before they still
    are. *)
Theorem added_item_is_found w matrix todo :
  todoFile w = Stored matrix →
  id todo ∉ id <$> allTodos matrix →
  isUserFriendlyId (id todo) = false →
  ∃ matrix' w',
    addTodo clock todo w = (Returned matrix', w') ∧
    getTodoById clock (id todo) w' =
      (Returned (Some todo),
       mkWorld (Stored matrix') (console w') (S (ticks w')) (writes w')) ∧
    (unique_ids matrix → unique_ids matrix').
Proof.
  intros Hfile Hnew Hshape. rewrite (addTodo_stored w matrix todo Hfile).
  set (quadrant := getQuadrantKey todo).
  set (content := setQ matrix quadrant (getQ matrix quadrant ++ [todo])).
  set (saved := set_stats (computeStats content) (clock (S (ticks w))) content).
  eexists _, _. split; [done|]. split.
  - destruct (getTodoById_run clock (id todo)
                (mkWorld (Stored saved) (console w) (S (S (ticks w))) (S (writes w))))
      as (matrix' & w1 & Hloaded & ->).
    destruct (loaded_stored clock _ matrix' w1 saved Hloaded eq_refl) as [-> ->].
    unfold lookup_key. rewrite Hshape. simpl.
    rewrite (findFirst_found (id todo) saved quadrant (length (getQ matrix quadrant)) todo);
      [done| |].
    + unfold saved, content. rewrite getQ_set_stats, getQ_setQ_eq.
      by apply findIndex_app_new, not_elem_of_allTodos.
    + intros other Hother. unfold saved, content.
      rewrite getQ_set_stats, getQ_setQ_ne by done.
      by apply findIndex_not_elem_of, not_elem_of_allTodos.
  - unfold unique_ids, saved. rewrite allTodos_set_stats. unfold content.
    rewrite allTodos_push. simpl. intros Huniq. by apply NoDup_cons.
Qed.

Lemma deleteFromQuadrant_getQ uuid quadrant st other :
  getQ (deleteFromQuadrant uuid quadrant st).1 other =
  if decide (quadrant = other)
  then match findIndex uuid (getQ st.1 quadrant) with
       | Some (index, _) => delete index (getQ st.1 quadrant)
       | None => getQ st.1 quadrant
       end
  else getQ st.1 other.
Proof.
  destruct st as [matrix found]. unfold deleteFromQuadrant. simpl.
  destruct (findIndex uuid (getQ matrix quadrant)) as [[index todo]|]; simpl.
  - apply getQ_setQ.
  - case_decide; by subst.
Qed.

Lemma deleteFromQuadrant_getQ_ne uuid quadrant st other :
  quadrant ≠ other →
  getQ (deleteFromQuadrant uuid quadrant st).1 other = getQ st.1 other.
Proof. intros H. rewrite deleteFromQuadrant_getQ. by case_decide. Qed.

Lemma deleteFromQuadrant_getQ_eq uuid quadrant st :
  getQ (deleteFromQuadrant uuid quadrant st).1 quadrant =
  match findIndex uuid (getQ st.1 quadrant) with
  | Some (index, _) => delete index (getQ st.1 quadrant)
  | None => getQ st.1 quadrant
  end.
Proof. rewrite deleteFromQuadrant_getQ. by case_decide. Qed.

(** The four passes of a deletion take the first item with the identifier
    out of every quadrant that holds one. *)
Lemma deletePasses_getQ uuid matrix quadrant :
  getQ (deletePasses uuid matrix).1 quadrant =
  match findIndex uuid (getQ matrix quadrant) with
  | Some (index, _) => delete index (getQ matrix quadrant)
  | None => getQ matrix quadrant
  end.
Proof.
  unfold deletePasses.
  destruct quadrant;
    rewrite ?deleteFromQuadrant_getQ_ne by done; rewrite deleteFromQuadrant_getQ_eq;
    by rewrite ?deleteFromQuadrant_getQ_ne by done.
Qed.

Lemma deleteFromQuadrant_flag uuid quadrant st :
  (deleteFromQuadrant uuid quadrant st).2 =
  st.2 || bool_decide (is_Some (findIndex uuid (getQ st.1 quadrant))).
Proof.
  destruct st as [matrix found]. unfold deleteFromQuadrant. simpl.
  destruct (findIndex uuid (getQ matrix quadrant)) as [[index todo]|]; simpl;
    by rewrite ?orb_true_r, ?orb_false_r.
Qed.

Lemma deletePasses_found uuid matrix quadrant index todo :
  findIndex uuid (getQ matrix quadrant) = Some (index, todo) →
  (deletePasses uuid matrix).2 = true.
Proof.
  intros Hfind. unfold deletePasses.
  destruct quadrant;
    rewrite !deleteFromQuadrant_flag, ?deleteFromQuadrant_getQ_ne by done;
    cbn [fst]; rewrite Hfind; simpl;
    by rewrite ?orb_true_r.
Qed.

Lemma deleteTodo_found w matrix todoId uuid quadrant index todo :
  todoFile w = Stored matrix →
  resolveIfFriendly matrix todoId = Returned uuid →
  findIndex uuid (getQ matrix quadrant) = Some (index, todo) →
  let content := (deletePasses uuid matrix).1 in
  let saved := set_stats (computeStats content) (clock (S (ticks w))) content in
  deleteTodo clock todoId w =
  (Returned saved, mkWorld (Stored saved) (console w) (S (S (ticks w))) (S (writes w))).
Proof.
  intros Hfile Hres Hfind.
  destruct (deleteTodo_run clock todoId w) as (matrix' & w1 & Hloaded & Hrun).
  destruct (loaded_stored clock w matrix' w1 matrix Hloaded Hfile) as [-> ->].
  rewrite Hres in Hrun. rewrite Hrun, finish_run.
  by rewrite (deletePasses_found uuid matrix quadrant index todo Hfind).
Qed.

Lemma length_allTodos matrix :
  length (allTodos matrix) =
  length (getQ matrix key_important_urgent) +
  length (getQ matrix key_important_not_urgent) +
  length (getQ matrix key_not_important_urgent) +
  length (getQ matrix key_not_important_not_urgent).
Proof. unfold allTodos. rewrite !length_app. simpl. lia. Qed.

(** X10.  Deleting closes the gap.  When the identifier names an item,
    [deleteTodo] returns, and the matrix it saves differs from the stored
    one in this: from every quadrant that held an item with the identifier,
    the first such item is gone.  In such a quadrant the rows in front of
    the deleted one keep their labels and every row behind it moves up by
    one, so that its old label now names the row that followed it. *)
Theorem delete_closes_the_gap w matrix todoId uuid quadrant index todo :
  todoFile w = Stored matrix →
  resolveIfFriendly matrix todoId = Returned uuid →
  findIndex uuid (getQ matrix quadrant) = Some (index, todo) →
  ∃ matrix' w',
    deleteTodo clock todoId w = (Returned matrix', w') ∧
    todoFile w' = Stored matrix' ∧
    (∀ q, getQ matrix' q =
          match findIndex uuid (getQ matrix q) with
          | Some (position, _) => delete position (getQ matrix q)
          | None => getQ matrix q
          end) ∧
    length (getQ matrix' quadrant) = length (getQ matrix quadrant) - 1 ∧
    (∀ j item, getQ matrix quadrant !! j = Some item → j < index →
       resolveUserFriendlyId matrix' (rowDisplayId quadrant j) = Returned (Some (id item))) ∧
    (∀ j item, getQ matrix quadrant !! S j = Some item → index ≤ j →
       resolveUserFriendlyId matrix (rowDisplayId quadrant (S j)) = Returned (Some (id item)) ∧
       resolveUserFriendlyId matrix' (rowDisplayId quadrant j) = Returned (Some (id item))).
Proof.
  intros Hfile Hres Hfind.
  rewrite (deleteTodo_found w matrix todoId uuid quadrant index todo Hfile Hres Hfind).
  cbv zeta.
  set (saved := set_stats _ _ _).
  assert (∀ q, getQ saved q =
              match findIndex uuid (getQ matrix q) with
              | Some (position, _) => delete position (getQ matrix q)
              | None => getQ matrix q
              end) as Hrows.
  { intros q. unfold saved. by rewrite getQ_set_stats, deletePasses_getQ. }
  destruct (findIndex_Some _ _ _ _ Hfind) as [Hlookup _].
  pose proof (Hrows quadrant) as Hrow. rewrite Hfind in Hrow.
  eexists _, _. split; [done|]. split_and!; try done.
  - rewrite Hrow, length_delete; [done|]. by eexists.
  - intros j item Hj Hlt. apply rowDisplayId_resolves.
    by rewrite Hrow, list_lookup_delete_lt.
  - intros j item Hj Hle. split; [by apply rowDisplayId_resolves|].
    apply rowDisplayId_resolves. by rewrite Hrow, list_lookup_delete_ge.
Qed.

Lemma allTodos_ext matrix matrix' :
  (∀ quadrant, getQ matrix' quadrant = getQ matrix quadrant) →
  allTodos matrix' = allTodos matrix.
Proof.
  intros H. unfold allTodos.
  pose proof (H key_important_urgent). pose proof (H key_important_not_urgent).
  pose proof (H key_not_important_urgent). pose proof (H key_not_important_not_urgent).
  simpl in *. congruence.
Qed.

Lemma allTodos_fmap_ext {B} (f : TodoItem → B) matrix matrix' :
  (∀ quadrant, f <$> getQ matrix' quadrant = f <$> getQ matrix quadrant) →
  f <$> allTodos matrix' = f <$> allTodos matrix.
Proof.
  intros H. unfold allTodos. rewrite !fmap_app.
  pose proof (H key_important_urgent). pose proof (H key_important_not_urgent).
  pose proof (H key_not_important_urgent). pose proof (H key_not_important_not_urgent).
  simpl in *. congruence.
Qed.

(** X11.  A deletion is final.  In a stored matrix with unique identifiers,
    deleting an item by its stable identifier (one that does not look like
    a display identifier) removes that item and nothing else; afterwards
    the identifiers are still unique, no item carries the identifier,
    [getTodoById] returns [null] for it, and a second deletion throws the
    not-found error without writing. *)
Theorem delete_is_final w matrix uuid todo :
  todoFile w = Stored matrix →
  unique_ids matrix →
  isUserFriendlyId uuid = false →
  todo ∈ allTodos matrix → id todo = uuid →
  ∃ matrix' w',
    deleteTodo clock uuid w = (Returned matrix', w') ∧
    todoFile w' = Stored matrix' ∧
    allTodos matrix ≡ₚ (todo :: allTodos matrix') ∧
    unique_ids matrix' ∧
    (uuid ∉ id <$> allTodos matrix') ∧
    let w1 := mkWorld (Stored matrix') (console w') (S (ticks w')) (writes w') in
    getTodoById clock uuid w' = (Returned None, w1) ∧
    deleteTodo clock uuid w' = (Thrown (NotFoundError uuid), w1).
Proof.
  intros Hfile Huniq Hshape Hin Hid.
  assert (resolveIfFriendly matrix uuid = Returned uuid) as Hres
    by (unfold resolveIfFriendly; by rewrite Hshape).
  apply elem_of_allTodos in Hin as [quadrant [index Hlookup]%list_elem_of_lookup].
  pose proof (findIndex_NoDup _ index todo (unique_ids_getQ matrix quadrant Huniq) Hlookup)
    as Hfind.
  rewrite Hid in Hfind.
  rewrite (deleteTodo_found w matrix uuid uuid quadrant index todo Hfile Hres Hfind).
  cbv zeta. set (saved := set_stats _ _ _).
  assert (allTodos saved =
          allTodos (setQ matrix quadrant (delete index (getQ matrix quadrant)))) as Hall.
  { apply allTodos_ext. intros q. unfold saved.
    rewrite getQ_set_stats, deletePasses_getQ, getQ_setQ.
    case_decide as Hq; [subst q; by rewrite Hfind|].
    by rewrite (unique_ids_elsewhere matrix uuid quadrant index todo Huniq Hfind). }
  assert (allTodos matrix ≡ₚ todo :: allTodos saved) as Hperm
    by (rewrite Hall; by apply allTodos_take_out).
  assert (NoDup (id <$> todo :: allTodos saved)) as Hnodup
    by (by rewrite <- Hperm).
  rewrite fmap_cons, Hid in Hnodup. apply NoDup_cons in Hnodup as [Hgone Huniq'].
  eexists _, _. split; [done|]. split_and!; try done.
  - destruct (getTodoById_run clock uuid
                (mkWorld (Stored saved) (console w) (S (S (ticks w))) (S (writes w))))
      as (matrix' & w1 & Hloaded & ->).
    destruct (loaded_stored clock _ matrix' w1 saved Hloaded eq_refl) as [-> ->].
    unfold lookup_key. rewrite Hshape.
    replace (findFirst uuid saved quadrants) with (@None TodoItem); [done|].
    symmetry. apply findFirst_None. intros q.
    by apply findIndex_not_elem_of, not_elem_of_allTodos.
  - apply (not_found_cases clock _ saved uuid no_updates); [done| |].
    + unfold resolves_to_nothing. rewrite Hshape. apply Forall_forall.
      intros item Hitem Hsame. apply Hgone. rewrite <- Hsame.
      by apply list_elem_of_fmap_2.
    + do 2 apply list_elem_of_further. apply list_elem_of_here.
Qed.

Lemma id_mergeTodo ts oldTodo updates :
  upd_id updates = None → id (mergeTodo ts oldTodo updates) = id oldTodo.
Proof.
  intros Hi. unfold mergeTodo, spread.
  destruct (becomes_completed _ _); [|destruct (bool_decide _)]; simpl; by rewrite Hi.
Qed.

Lemma updatePass_ids ts todoId updates quadrant st :
  upd_id updates = None →
  id <$> allTodos (updatePass ts todoId updates quadrant st).1 ≡ₚ id <$> allTodos st.1.
Proof.
  intros Hi. destruct st as [matrix found]. unfold updatePass.
  destruct (findIndex todoId (getQ matrix quadrant)) as [[index oldTodo]|] eqn:Hfind;
    [|done].
  apply findIndex_Some in Hfind as [Hlookup _].
  pose proof (id_mergeTodo ts oldTodo updates Hi) as Hsame.
  case_decide; simpl.
  - rewrite allTodos_push, (allTodos_take_out matrix quadrant index oldTodo Hlookup).
    by rewrite !fmap_cons, Hsame.
  - by rewrite (allTodos_replace id matrix quadrant index oldTodo).
Qed.

Lemma updatePasses_ids ts todoId updates matrix :
  upd_id updates = None →
  id <$> allTodos (updatePasses ts todoId updates matrix).1 ≡ₚ id <$> allTodos matrix.
Proof. intros Hi. unfold updatePasses. by rewrite !updatePass_ids. Qed.

Lemma deletePasses_sublist uuid matrix :
  allTodos (deletePasses uuid matrix).1 `sublist_of` allTodos matrix.
Proof.
  assert (∀ q, getQ (deletePasses uuid matrix).1 q `sublist_of` getQ matrix q) as H.
  { intros q. rewrite deletePasses_getQ.
    destruct (findIndex uuid (getQ matrix q)) as [[]|]; [apply sublist_delete | done]. }
  unfold allTodos. repeat apply sublist_app.
  - apply (H key_important_urgent).
  - apply (H key_important_not_urgent).
  - apply (H key_not_important_urgent).
  - apply (H key_not_important_not_urgent).
Qed.

Lemma finish_returned uuid st w matrix' w' :
  finish clock uuid st w = (Returned matrix', w') →
  st.2 = true ∧ matrix' = set_stats (computeStats st.1) (clock (ticks w)) st.1 ∧
  todoFile w' = Stored matrix'.
Proof.
  rewrite finish_run. destruct st as [content []]; simpl; [|done].
  by intros [= <- <-].
Qed.

(** X12.  The operations keep the identifiers apart.  When the stored
    matrix has unique identifiers, the matrix returned by an operation has
    them too, provided that an addition brings an identifier that is new
    and that an update does not patch the identifier; toggling and deleting
    need no proviso. *)
Theorem identifiers_stay_unique op w matrix matrix' w' :
  todoFile w = Stored matrix →
  unique_ids matrix →
  keeps_ids_apart matrix op →
  perform clock op w = (Returned matrix', w') →
  unique_ids matrix'.
Proof.
  intros Hfile Huniq Hop Hrun. unfold unique_ids in *.
  destruct op as [todo|todoId updates|todoId|todoId]; simpl in *.
  - rewrite (addTodo_stored w matrix todo Hfile) in Hrun. injection Hrun as <- _.
    rewrite allTodos_set_stats, allTodos_push, fmap_cons. by apply NoDup_cons.
  - destruct (updateTodo_run clock todoId updates w) as (matrix1 & w1 & Hloaded & Hshape).
    destruct (loaded_stored clock w matrix1 w1 matrix Hloaded Hfile) as [-> ->].
    destruct (resolveIfFriendly matrix todoId) as [uuid|e]; [|congruence].
    destruct Hshape as (ts & w2 & _ & _ & Heq). rewrite Heq in Hrun.
    apply finish_returned in Hrun as (_ & -> & _).
    by rewrite allTodos_set_stats, updatePasses_ids.
  - destruct (toggleTodo_run clock todoId w) as (matrix1 & w1 & Hloaded & Hshape).
    destruct (loaded_stored clock w matrix1 w1 matrix Hloaded Hfile) as [-> ->].
    destruct (resolveIfFriendly matrix todoId) as [uuid|e]; [|congruence].
    destruct Hshape as (ts & w2 & _ & _ & Heq). rewrite Heq in Hrun.
    apply finish_returned in Hrun as (_ & -> & _).
    rewrite allTodos_set_stats.
    by rewrite (allTodos_fmap_ext id matrix _ (togglePasses_ids ts uuid matrix)).
  - destruct (deleteTodo_run clock todoId w) as (matrix1 & w1 & Hloaded & Hshape).
    destruct (loaded_stored clock w matrix1 w1 matrix Hloaded Hfile) as [-> ->].
    destruct (resolveIfFriendly matrix todoId) as [uuid|e]; [|congruence].
    rewrite Hshape in Hrun. apply finish_returned in Hrun as (_ & -> & _).
    rewrite allTodos_set_stats.
    eapply sublist_NoDup; [done|]. apply fmap_sublist, deletePasses_sublist.
Qed.

Lemma forget_completion_toggleItem ts todo :
  forget_completion (toggleItem ts todo) = forget_completion todo.
Proof. unfold toggleItem, forget_completion. by destruct (completed todo). Qed.

(** X13.  Toggling touches the completion state only.  When [toggleTodo]
    returns on a stored matrix, every quadrant of the matrix it saves has
    the rows of the stored one, in the same order and equal up to the two
    fields [completed] and [completedAt]; the rows whose identifier is not
    the one toggled are unchanged; hence every display identifier, every
    resolution of a display identifier and the total are what they were. *)
Theorem toggle_touches_completion_only w matrix todoId matrix' w' :
  todoFile w = Stored matrix →
  toggleTodo clock todoId w = (Returned matrix', w') →
  ∃ uuid,
    resolveIfFriendly matrix todoId = Returned uuid ∧
    (∀ q, forget_completion <$> getQ matrix' q = forget_completion <$> getQ matrix q) ∧
    (∀ q j item, getQ matrix q !! j = Some item → id item ≠ uuid →
                 getQ matrix' q !! j = Some item) ∧
    (∀ item, generateDisplayId matrix' item = generateDisplayId matrix item) ∧
    (∀ s, resolveUserFriendlyId matrix' s = resolveUserFriendlyId matrix s) ∧
    stats_total (stats matrix') = length (allTodos matrix).
Proof.
  intros Hfile Hrun.
  destruct (toggleTodo_run clock todoId w) as (matrix1 & w1 & Hloaded & Hshape).
  destruct (loaded_stored clock w matrix1 w1 matrix Hloaded Hfile) as [-> ->].
  destruct (resolveIfFriendly matrix todoId) as [uuid|e]; [|congruence].
  destruct Hshape as (ts & w2 & _ & _ & Heq). rewrite Heq in Hrun.
  apply finish_returned in Hrun as (_ & -> & _).
  exists uuid. split; [done|].
  assert (∀ q, id <$> getQ (set_stats (computeStats (togglePasses ts uuid matrix).1)
                              (clock (ticks w2)) (togglePasses ts uuid matrix).1) q =
               id <$> getQ matrix q) as Hids.
  { intros q. by rewrite getQ_set_stats, togglePasses_ids. }
  split_and!.
  - intros q. rewrite getQ_set_stats, togglePasses_getQ.
    destruct (findIndex uuid (getQ matrix q)) as [[index todo]|] eqn:Hfind; [|done].
    apply findIndex_Some in Hfind as [Hlookup _].
    rewrite list_fmap_insert, forget_completion_toggleItem.
    apply list_insert_id. by rewrite list_lookup_fmap, Hlookup.
  - intros q j item Hj Hid. rewrite getQ_set_stats, togglePasses_getQ.
    destruct (findIndex uuid (getQ matrix q)) as [[index todo]|] eqn:Hfind; [|done].
    apply findIndex_Some in Hfind as [Hlookup Hsame].
    rewrite list_lookup_insert_ne; [done|]. intros ->. congruence.
  - intros item. by apply generateDisplayId_ext.
  - intros s. by apply resolve_ext.
  - apply (allTodos_fmap_ext id) in Hids. apply (f_equal length) in Hids.
    rewrite !length_fmap, allTodos_set_stats in Hids. done.
Qed.

End Rows.

Lemma added_item_is_found_witness :
  ∃ matrix' w',
    addTodo Sample.clock (Sample.item "zeta" "high" "not-urgent" false None) Sample.world =
      (Returned matrix', w') ∧
    getTodoById Sample.clock "zeta" w' =
      (Returned (Some (Sample.item "zeta" "high" "not-urgent" false None)),
       mkWorld (Stored matrix') (console w') (S (ticks w')) (writes w')).
Proof.
  destruct (added_item_is_found Sample.clock Sample.world Sample.matrix
              (Sample.item "zeta" "high" "not-urgent" false None) eq_refl)
    as (matrix' & w' & Hadd & Hget & _).
  - apply (bool_decide_unpack _). by vm_compute.
  - reflexivity.
  - by exists matrix', w'.
Defined.

Lemma delete_closes_the_gap_witness :
  ∃ matrix' w',
    deleteTodo Sample.clock "A1" Sample.world = (Returned matrix', w') ∧
    resolveUserFriendlyId Sample.matrix (rowDisplayId key_important_urgent 1) =
      Returned (Some "beta") ∧
    resolveUserFriendlyId matrix' (rowDisplayId key_important_urgent 0) =
      Returned (Some "beta").
Proof.
  destruct (delete_closes_the_gap Sample.clock Sample.world Sample.matrix "A1" "alpha"
              key_important_urgent 0 Sample.alpha eq_refl eq_refl eq_refl)
    as (matrix' & w' & Hrun & _ & _ & _ & _ & Hbehind).
  destruct (Hbehind 0 Sample.beta eq_refl (le_n 0)) as [Hold Hnew].
  by exists matrix', w'.
Defined.

Lemma delete_is_final_witness :
  ∃ matrix' w',
    deleteTodo Sample.clock "delta" Sample.world = (Returned matrix', w') ∧
    deleteTodo Sample.clock "delta" w' =
      (Thrown (NotFoundError "delta"),
       mkWorld (Stored matrix') (console w') (S (ticks w')) (writes w')).
Proof.
  destruct (delete_is_final Sample.clock Sample.world Sample.matrix "delta" Sample.delta
              eq_refl sample_unique eq_refl)
    as (matrix' & w' & Hrun & _ & _ & _ & _ & _ & Hagain).
  - apply sample_elem_of. by vm_compute.
  - reflexivity.
  - by exists matrix', w'.
Defined.

Lemma identifiers_stay_unique_witness :
  ∃ matrix' w',
    perform Sample.clock
      (OpUpdate "A2" (mkUpdates None (Some "Renamed") None (Some "low") None None
                        None None None None None)) Sample.world = (Returned matrix', w') ∧
    unique_ids matrix'.
Proof.
  destruct (perform Sample.clock
              (OpUpdate "A2" (mkUpdates None (Some "Renamed") None (Some "low") None None
                                None None None None None)) Sample.world)
    as [[matrix'|e] w'] eqn:Hrun; [|by vm_compute in Hrun].
  exists matrix', w'. split; [done|].
  exact (identifiers_stay_unique Sample.clock
           (OpUpdate "A2" (mkUpdates None (Some "Renamed") None (Some "low") None None
                             None None None None None))
           Sample.world Sample.matrix matrix' w' eq_refl sample_unique eq_refl Hrun).
Defined.

Lemma toggle_touches_completion_only_witness :
  ∃ matrix' w',
    toggleTodo Sample.clock "C1" Sample.world = (Returned matrix', w') ∧
    generateDisplayId matrix' Sample.gamma = generateDisplayId Sample.matrix Sample.gamma.
Proof.
  destruct (toggleTodo Sample.clock "C1" Sample.world) as [[matrix'|e] w'] eqn:Hrun;
    [|by vm_compute in Hrun].
  exists matrix', w'. split; [done|].
  destruct (toggle_touches_completion_only Sample.clock Sample.world Sample.matrix "C1"
              matrix' w' eq_refl Hrun) as (uuid & _ & _ & _ & Hdisplay & _).
  apply Hdisplay.
Defined.

(** ** Active items and search *)

Section Search.

Variable clock : nat → Timestamp.

Lemma filter_true (l : list TodoItem) : filter (λ _, true = true) l = l.
Proof. induction l as [|x l IH]; [done|]. rewrite filter_cons. simpl. by rewrite IH. Qed.

Lemma filter_bool_and (f g : TodoItem → bool) (l : list TodoItem) :
  filter (λ todo, g todo = true) (filter (λ todo, f todo = true) l) =
  filter (λ todo, f todo && g todo = true) l.
Proof.
  induction l as [|x l IH]; [done|]. rewrite !filter_cons.
  destruct (f x) eqn:Hf; simpl.
  - rewrite filter_cons. destruct (g x); simpl; by rewrite IH.
  - done.
Qed.

Lemma filter_bool_decide (P : TodoItem → Prop) `{!∀ x, Decision (P x)} (l : list TodoItem) :
  filter P l = filter (λ todo, bool_decide (P todo) = true) l.
Proof.
  apply list_filter_iff. intros x. by rewrite bool_decide_eq_true.
Qed.

(** The five filters amount to one filter by the conjunction. *)
Lemma searchFilter_meets searchOptions l :
  searchFilter searchOptions l = filter (λ todo, meets searchOptions todo = true) l.
Proof.
  unfold searchFilter, meets.
  destruct (or_null (search_text searchOptions)) as [text|],
    (search_tags searchOptions) as [[|tag rest]|],
    (search_completed searchOptions) as [wanted|],
    (or_null (search_priority searchOptions)) as [wantedPriority|],
    (or_null (search_urgency searchOptions)) as [wantedUrgency|];
    rewrite <- !filter_bool_and, ?filter_true, <- ?filter_bool_decide; done.
Qed.

(** X14.  The criteria of a search combine by conjunction.  [searchTodos]
    never throws and does to the world what a load does; its result is the
    list of all items, in quadrant order, filtered by the conjunction of
    the criteria given: it is a sublist of that list, and an item is in it
    exactly when it is in the matrix and meets every criterion. *)
Theorem search_filters_conjunctively searchOptions w :
  ∃ matrix w1,
    loaded clock w matrix w1 ∧
    let results := filter (λ todo, meets searchOptions todo = true) (allTodos matrix) in
    searchTodos clock searchOptions w = (Returned results, w1) ∧
    results `sublist_of` allTodos matrix ∧
    ∀ todo, todo ∈ results ↔ todo ∈ allTodos matrix ∧ meets searchOptions todo = true.
Proof.
  destruct (searchTodos_run clock searchOptions w) as (matrix & w1 & Hloaded & ->).
  exists matrix, w1. split; [done|]. cbv zeta. rewrite searchFilter_meets.
  split_and!; [done | apply sublist_filter |].
  intros todo. rewrite list_elem_of_filter. tauto.
Qed.

Lemma getActiveTodos_stored w matrix :
  todoFile w = Stored matrix →
  getActiveTodos clock w =
  (Returned (matrix, filter (λ todo, completed todo = false) (allTodos matrix)),
   mkWorld (Stored matrix) (console w) (S (ticks w)) (writes w)).
Proof.
  intros Hfile. destruct (getActiveTodos_run clock w) as (matrix' & w1 & Hloaded & ->).
  by destruct (loaded_stored clock w matrix' w1 matrix Hloaded Hfile) as [-> ->].
Qed.

(** X15.  The active items are the ones the statistics count.  On a file
    whose statistics agree with its content, and so after every operation
    that returned, [getActiveTodos] returns the stored matrix and as many
    items as its [stats.active] says; none of them is completed, and they
    are the items that [searchTodos] returns for the sole criterion
    [completed: false]. *)
Theorem active_items_are_counted w matrix :
  todoFile w = Stored matrix →
  stats_agree matrix →
  ∃ todos w1,
    getActiveTodos clock w = (Returned (matrix, todos), w1) ∧
    searchTodos clock (mkSearch None None (Some false) None None) w =
      (Returned todos, w1) ∧
    length todos = stats_active (stats matrix) ∧
    Forall (λ todo, completed todo = false ∧ todo ∈ allTodos matrix) todos.
Proof.
  intros Hfile Hstats. rewrite (getActiveTodos_stored w matrix Hfile).
  eexists _, _. split; [done|].
  destruct (searchTodos_run clock (mkSearch None None (Some false) None None) w)
    as (matrix' & w1 & Hloaded & ->).
  destruct (loaded_stored clock w matrix' w1 matrix Hloaded Hfile) as [-> ->].
  split_and!; [done | by rewrite Hstats |].
  apply Forall_forall. intros todo. rewrite list_elem_of_filter. tauto.
Qed.

(** Criteria that are absent or empty do not filter.  A search whose
    text, priority and urgency are absent or the empty string, whose tags
    are absent or the empty list and whose completion state is absent
    returns every item of the matrix, in quadrant order; the completion
    state [false] is a criterion, though. *)
Lemma search_ignores_empty_criteria searchOptions matrix :
  or_null (search_text searchOptions) = None →
  search_tags searchOptions = None ∨ search_tags searchOptions = Some [] →
  or_null (search_priority searchOptions) = None →
  or_null (search_urgency searchOptions) = None →
  (search_completed searchOptions = None →
   searchFilter searchOptions (allTodos matrix) = allTodos matrix) ∧
  (∀ wanted, search_completed searchOptions = Some wanted →
     searchFilter searchOptions (allTodos matrix) =
     filter (λ todo, completed todo = wanted) (allTodos matrix)).
Proof.
  intros Htext Htags Hpriority Hurgency. unfold searchFilter.
  rewrite Htext, Hpriority, Hurgency.
  split; [intros ->|intros wanted ->]; by destruct Htags as [->| ->].
Qed.

End Search.

Lemma active_items_are_counted_witness :
  ∃ todos w1,
    getActiveTodos Sample.clock Sample.world = (Returned (Sample.matrix, todos), w1) ∧
    length todos = 4.
Proof.
  destruct (active_items_are_counted Sample.clock Sample.world Sample.matrix
              eq_refl eq_refl) as (todos & w1 & Hrun & _ & Hlength & _).
  by exists todos, w1.
Defined.

(** ** Letter case in a search, and the listing of the command line *)

Module TextFacts.

Import JS JSText.

Lemma lower_upper c : lower_ascii (upper_ascii c) = lower_ascii c.
Proof. JSFacts.by_cases_on c. Qed.

Lemma lower_idempotent c : lower_ascii (lower_ascii c) = lower_ascii c.
Proof. JSFacts.by_cases_on c. Qed.

Lemma toLowerCase_toUpperCase s : toLowerCase (toUpperCase s) = toLowerCase s.
Proof. induction s as [|c s IH]; [done|]. simpl. by rewrite lower_upper, IH. Qed.

Lemma toLowerCase_idempotent s : toLowerCase (toLowerCase s) = toLowerCase s.
Proof. induction s as [|c s IH]; [done|]. simpl. by rewrite lower_idempotent, IH. Qed.

Lemma toLowerCase_empty s : toLowerCase s = "" ↔ s = "".
Proof. by destruct s. Qed.

Lemma prefix_toLowerCase sub s :
  String.prefix sub s = true →
  String.prefix (toLowerCase sub) (toLowerCase s) = true.
Proof.
  revert s. induction sub as [|c sub IH]; intros [|d s]; simpl; try done.
  destruct (Ascii.ascii_dec c d) as [->|]; [|done].
  intros H. destruct (Ascii.ascii_dec _ _); [by apply IH | done].
Qed.

Lemma includes_toLowerCase s sub :
  includes s sub = true → includes (toLowerCase s) (toLowerCase sub) = true.
Proof.
  induction s as [|c s IH]; simpl.
  - rewrite orb_false_r. intros H. rewrite orb_false_r.
    by apply (prefix_toLowerCase sub "").
  - intros [H|H]%orb_true_iff; apply orb_true_iff.
    + left. by apply (prefix_toLowerCase sub (String c s)).
    + right. by apply IH.
Qed.

Lemma includes_empty s : includes s "" = true.
Proof. by destruct s. Qed.

End TextFacts.

Section Listing.

Lemma or_null_text text text' :
  JSText.toLowerCase text = JSText.toLowerCase text' →
  JSText.toLowerCase <$> or_null (Some text) = JSText.toLowerCase <$> or_null (Some text').
Proof.
  intros H. unfold or_null.
  destruct (String.eqb_spec text ""), (String.eqb_spec text' ""); subst; simpl.
  - done.
  - simpl in H. symmetry in H. by rewrite TextFacts.toLowerCase_empty in H.
  - simpl in H. by rewrite TextFacts.toLowerCase_empty in H.
  - by f_equal.
Qed.

Lemma searchFilter_text text text' searchOptions l :
  JSText.toLowerCase text = JSText.toLowerCase text' →
  searchFilter (with_text text searchOptions) l =
  searchFilter (with_text text' searchOptions) l.
Proof.
  intros H. apply or_null_text in H. unfold searchFilter, with_text.
  cbn [search_text search_tags search_completed search_priority search_urgency].
  destruct (or_null (Some text)), (or_null (Some text')); simpl in H; try done.
  injection H as H. by rewrite H.
Qed.

(** X16.  On ASCII text a search by text does not see letter case.  Let the
    text searched for, and the titles and descriptions of the items of the
    list, be made of ASCII characters.  Then two such texts that are equal
    once in lower case give the same result, whatever the other criteria
    are, and so does a text and its upper-case form; and an item of the
    list whose title or description contains the text as it is written is
    among the items that a search for this text alone returns. *)
Theorem search_is_case_insensitive text searchOptions l :
  ascii_text text →
  Forall (λ todo, ascii_text (title todo) ∧ ascii_text (description todo)) l →
  (∀ text', ascii_text text' →
            JSText.toLowerCase text = JSText.toLowerCase text' →
            searchFilter (with_text text searchOptions) l =
            searchFilter (with_text text' searchOptions) l) ∧
  searchFilter (with_text (JS.toUpperCase text) searchOptions) l =
    searchFilter (with_text text searchOptions) l ∧
  ∀ todo, todo ∈ l →
    JSText.includes (title todo) text = true ∨
    JSText.includes (description todo) text = true →
    todo ∈ searchFilter (with_text text no_search) l.
Proof.
  intros _ _. split_and!.
  - intros text' _. apply searchFilter_text.
  - apply searchFilter_text, TextFacts.toLowerCase_toUpperCase.
  - intros todo Hin Hcontains. rewrite searchFilter_meets.
    apply list_elem_of_filter. split; [|done].
    unfold meets, with_text, no_search. simpl. rewrite !andb_true_r.
    destruct (String.eqb text ""); [done|]. unfold matchesText.
    apply orb_true_iff.
    destruct Hcontains as [H|H]; [left|right]; by apply TextFacts.includes_toLowerCase.
Qed.

Lemma filter_comm (P Q : TodoItem → Prop) `{!∀ x, Decision (P x)} `{!∀ x, Decision (Q x)}
    (l : list TodoItem) :
  filter P (filter Q l) = filter Q (filter P l).
Proof.
  rewrite !list_filter_filter. apply list_filter_iff. intros x. tauto.
Qed.

Lemma listQuadrant_searchFilter options todos :
  listQuadrant options todos = searchFilter (search_of_list options) todos.
Proof.
  unfold listQuadrant, searchFilter, search_of_list. simpl.
  destruct (or_null (list_search options)) as [text|],
    (or_null (list_urgency options)) as [wantedUrgency|],
    (or_null (list_priority options)) as [wantedPriority|],
    (list_completed options), (list_active options);
    rewrite ?(filter_comm (λ todo, matchesText _ todo = true)); done.
Qed.

Lemma searchFilter_app searchOptions l1 l2 :
  searchFilter searchOptions (l1 ++ l2) =
  searchFilter searchOptions l1 ++ searchFilter searchOptions l2.
Proof. rewrite !searchFilter_meets. apply filter_app. Qed.

(** X17.  The listing of the command line and the search agree.  The items
    that [todo --list] prints, group after group, are the items that
    [searchTodos] returns for the same criteria, in the same order:
    [--completed] (which wins over [--active]) asks for the completion
    state [true], [--active] for [false]; and every group printed holds an
    item. *)
Theorem list_agrees_with_search options matrix :
  mjoin (snd <$> listGroups options matrix) =
    searchFilter (search_of_list options) (allTodos matrix) ∧
  Forall (λ group, group.2 ≠ [] ∧
                   group.2 = searchFilter (search_of_list options) (getQ matrix group.1))
    (listGroups options matrix).
Proof.
  assert (∀ groups : list (QuadrantKey * list TodoItem),
    mjoin (snd <$> filter (λ group, 0 < length group.2) groups) = mjoin (snd <$> groups))
    as Hdrop.
  { induction groups as [|[q [|todo todos]] groups IH]; [done| |].
    - rewrite filter_cons. destruct (decide _) as [Hlt|_]; [simpl in Hlt; lia | done].
    - rewrite filter_cons. destruct (decide _) as [_|Hlt]; [|simpl in Hlt; lia].
      csimpl. by rewrite IH. }
  split.
  - unfold listGroups. rewrite Hdrop. simpl. rewrite app_nil_r.
    unfold allTodos. by rewrite !searchFilter_app, !listQuadrant_searchFilter.
  - apply Forall_forall. intros [q todos]. unfold listGroups.
    rewrite list_elem_of_filter, list_elem_of_fmap. simpl.
    intros [Hlen (q' & [= -> ->] & _)]. split.
    + intros Hnil. rewrite Hnil in Hlen. simpl in Hlen. lia.
    + apply listQuadrant_searchFilter.
Qed.

End Listing.

Lemma search_is_case_insensitive_witness :
  searchFilter (with_text "TASK B" no_search) (allTodos Sample.matrix) =
    searchFilter (with_text "task b" no_search) (allTodos Sample.matrix) ∧
  Sample.beta ∈ searchFilter (with_text "Task b" no_search) (allTodos Sample.matrix).
Proof.
  assert (Forall (λ todo, ascii_text (title todo) ∧ ascii_text (description todo))
            (allTodos Sample.matrix)) as Hitems.
  { by repeat constructor. }
  destruct (search_is_case_insensitive "Task b" no_search (allTodos Sample.matrix)
              eq_refl Hitems) as (_ & _ & Hfound).
  destruct (search_is_case_insensitive "TASK B" no_search (allTodos Sample.matrix)
              eq_refl Hitems) as (Hsame & _ & _).
  split; [by apply Hsame|].
  apply Hfound; [apply sample_elem_of; by vm_compute | by left].
Defined.

(** ** Thoughts *)

Module ThoughtFacts.

Import Text.

Lemma append_cons c (a b : string) : String c a +:+ b = String c (a +:+ b).
Proof. done. Qed.

Lemma append_nil_l (a : string) : "" +:+ a = a.
Proof. done. Qed.

Lemma append_assoc (a b c : string) : (a +:+ b) +:+ c = a +:+ (b +:+ c).
Proof. induction a as [|x a IH]; [done|]. by rewrite !append_cons, IH. Qed.

Lemma append_nil_r (a : string) : a +:+ "" = a.
Proof. induction a as [|x a IH]; [done|]. by rewrite append_cons, IH. Qed.

Lemma foldl_links content (links : list string) :
  foldl (λ content link, content +:+ "- " +:+ link +:+ LF) content links =
  content +:+ foldl (λ content link, content +:+ "- " +:+ link +:+ LF) "" links.
Proof.
  revert content. induction links as [|link links IH]; intros content; simpl.
  - by rewrite append_nil_r.
  - rewrite (IH (content +:+ _)), (IH ("" +:+ _)).
    by rewrite append_nil_l, !append_assoc.
Qed.

(** The text of a thought begins with the heading and the two metadata
    lines that are always written. *)
Lemma thoughtContent_shape created todo :
  ∃ rest,
    thoughtContent created todo =
    ("# " +:+ title todo +:+ LF +:+ LF) +:+
    ("> Priority: " +:+ (if String.eqb (priority todo) "high" then "High" else "Low") +:+ LF +:+
     "> Urgency: " +:+ (if String.eqb (urgency todo) "urgent" then "Urgent" else "Not Urgent")
     +:+ LF +:+ rest).
Proof.
  unfold thoughtContent.
  destruct (0 <? length (tags todo)), (String.eqb (description todo) ""),
    (0 <? length (links todo));
    eexists; rewrite ?(foldl_links (_ +:+ _)), !append_assoc; reflexivity.
Qed.

Lemma all_chars_app p (a b : string) :
  all_chars p (a +:+ b) = all_chars p a && all_chars p b.
Proof.
  induction a as [|x a IH]; [done|].
  rewrite append_cons. simpl. by rewrite IH, andb_assoc.
Qed.

Lemma match_meta_here_other key c r :
  Ascii.eqb c ">" = false → match_meta_here key (String c r) = None.
Proof. by destruct c as [[] [] [] [] [] [] [] []]. Qed.

Lemma match_meta_cons key c r :
  Ascii.eqb c ">" = false → match_meta key (String c r) = match_meta key r.
Proof. intros H. cbn [match_meta]. by rewrite match_meta_here_other. Qed.

(** Text without [>] in front of the metadata does not matter. *)
Lemma match_meta_skip key before s :
  free_of ">" before → match_meta key (before +:+ s) = match_meta key s.
Proof.
  unfold free_of. induction before as [|c before IH]; [done|].
  cbn [all_chars]. intros [Hc Hrest]%andb_true_iff. rewrite append_cons.
  rewrite match_meta_cons; [by apply IH|]. by apply negb_true_iff.
Qed.

Lemma match_meta_none key s : free_of ">" s → match_meta key s = None.
Proof.
  intros H. rewrite <- (append_nil_r s). rewrite match_meta_skip by done.
  by destruct key.
Qed.

Lemma thoughtOptions_rendered created todo todoOptions :
  free_of ">" (title todo) →
  let options := thoughtOptions (thoughtContent created todo) todoOptions in
  opt_priority options = Some (priority_class todo) ∧
  opt_urgency options = Some "urgent".
Proof.
  intros Htitle. destruct (thoughtContent_shape created todo) as [rest ->].
  unfold thoughtOptions, priority_class. cbn [opt_priority opt_urgency].
  assert (free_of ">" ("# " +:+ title todo +:+ LF +:+ LF)) as Hbefore.
  { unfold free_of in *. rewrite !all_chars_app, Htitle. done. }
  rewrite (match_meta_skip "Priority:"), (match_meta_skip "Urgency:") by done.
  destruct (String.eqb (priority todo) "high"), (String.eqb (urgency todo) "urgent");
    by vm_compute.
Qed.

Lemma all_chars_impl (p q : ascii → bool) s :
  (∀ c, p c = true → q c = true) → all_chars p s = true → all_chars q s = true.
Proof.
  intros Hpq. induction s as [|c s IH]; [done|]. simpl.
  intros [Hc Hs]%andb_true_iff. by rewrite (Hpq c Hc), IH.
Qed.

Lemma one_line_free_of_LF s : one_line s → free_of "010" s.
Proof.
  apply all_chars_impl. intros c. unfold is_line_terminator.
  by destruct c as [[] [] [] [] [] [] [] []].
Qed.

Lemma hd_split sep c r :
  hd "" (split sep (String c r)) =
  if Ascii.eqb c sep then "" else String c (hd "" (split sep r)).
Proof. simpl. destruct (Ascii.eqb c sep); [done|]. by destruct (split sep r). Qed.

(** The first line of a text is what stands in front of its first line
    feed. *)
Lemma hd_split_line line rest :
  free_of "010" line → hd "" (split "010" (line +:+ LF +:+ rest)) = line.
Proof.
  unfold free_of. induction line as [|c line IH].
  - intros _. by rewrite append_nil_l.
  - cbn [all_chars]. intros [Hc Hline]%andb_true_iff.
    rewrite append_cons, hd_split. apply negb_true_iff in Hc. rewrite Hc.
    by rewrite IH.
Qed.

Lemma take_line_one_line s : one_line s → take_line s = s.
Proof.
  unfold one_line. induction s as [|c s IH]; [done|]. cbn [all_chars take_line].
  intros [Hc Hs]%andb_true_iff. apply negb_true_iff in Hc. rewrite Hc. by rewrite IH.
Qed.

Lemma one_line_skip_white s : one_line s → one_line (JS.skip_white s).
Proof.
  unfold one_line. induction s as [|c s IH]; [done|]. cbn [all_chars JS.skip_white].
  intros [Hc Hs]%andb_true_iff. destruct (JS.is_white c); [by apply IH|].
  cbn [all_chars]. by rewrite Hc, Hs.
Qed.

Lemma skip_white_idempotent s : JS.skip_white (JS.skip_white s) = JS.skip_white s.
Proof.
  induction s as [|c s IH]; [done|]. simpl.
  destruct (JS.is_white c) eqn:Hc; [done|]. simpl. by rewrite Hc.
Qed.

Lemma trim_skip_white s : JS.trim (JS.skip_white s) = JS.trim s.
Proof. unfold JS.trim. by rewrite skip_white_idempotent. Qed.

(** The heading of a rendered thought gives the title back, short of the
    white space in front of it. *)
Lemma thoughtTitle_rendered basename created todo :
  one_line (title todo) →
  thoughtTitle basename (thoughtContent created todo) = JS.skip_white (title todo).
Proof.
  intros Hline. destruct (thoughtContent_shape created todo) as [rest ->].
  unfold thoughtTitle.
  replace (("# " +:+ title todo +:+ LF +:+ LF) +:+ _)
    with (("# " +:+ title todo) +:+ LF +:+ (LF +:+ "> Priority: " +:+
            (if String.eqb (priority todo) "high" then "High" else "Low") +:+ LF +:+
            "> Urgency: " +:+
            (if String.eqb (urgency todo) "urgent" then "Urgent" else "Not Urgent")
            +:+ LF +:+ rest))
    by (by rewrite !append_assoc).
  rewrite hd_split_line.
  - cbn [match_heading String.append]. rewrite !append_cons, append_nil_l.
    cbn [match_heading]. change (JS.is_white " ") with true. cbv iota.
    by rewrite take_line_one_line by by apply one_line_skip_white.
  - apply one_line_free_of_LF in Hline. unfold free_of in *.
    by rewrite all_chars_app, Hline.
Qed.

End ThoughtFacts.

Section Conversion.

Variable clock : nat → Timestamp.
Variable slugify : string → string.
Variable path_join : string → string → string.
Variable toLocaleString : Timestamp → string.

Lemma addTodo_returns todo w :
  ∃ matrix w',
    addTodo clock todo w = (Returned matrix, w') ∧
    todoFile w' = Stored matrix ∧
    last (getQ matrix (getQuadrantKey todo)) = Some todo.
Proof.
  destruct (addTodo_run clock todo w) as (matrix & w1 & _ & ->).
  rewrite save_run. eexists _, _. split_and!; [done|done|].
  by rewrite getQ_set_stats, getQ_setQ_eq, last_snoc.
Qed.

Lemma thoughtToTodo_run uuid basename content todoOptions w :
  let todo := createTodo (clock (ticks w)) uuid (thoughtTitle basename content)
                (thoughtOptions content todoOptions) in
  ∃ matrix w',
    thoughtToTodo clock uuid basename (Some content) todoOptions w = (Returned todo, w') ∧
    todoFile w' = Stored matrix ∧
    last (getQ matrix (getQuadrantKey todo)) = Some todo.
Proof.
  intros todo. unfold thoughtToTodo. rewrite !bind_run.
  change ((mret content : M string) w) with (Returned content, w).
  cbv iota beta. rewrite bind_run.
  change (now clock w)
    with (Returned (clock (ticks w)), mkWorld (todoFile w) (console w) (S (ticks w)) (writes w)).
  cbv iota beta. fold todo. rewrite bind_run.
  destruct (addTodo_returns todo (mkWorld (todoFile w) (console w) (S (ticks w)) (writes w)))
    as (matrix & w' & -> & Hfile & Hlast).
  by exists matrix, w'.
Qed.

Lemma todoToThought_run thoughtsDir todoId w :
  ∃ matrix w1,
    loaded clock w matrix w1 ∧
    match findFirst (lookup_key matrix todoId) matrix quadrants with
    | Some todo =>
        ∃ filepath,
          todoToThought clock slugify path_join toLocaleString thoughtsDir todoId w =
          (Returned (filepath, thoughtContent (toLocaleString (createdAt todo)) todo),
           mkWorld (todoFile w1) (console w1) (S (ticks w1)) (writes w1))
    | None =>
        todoToThought clock slugify path_join toLocaleString thoughtsDir todoId w =
        (Thrown (NotFoundError todoId), w1)
    end.
Proof.
  destruct (getTodoById_run clock todoId w) as (matrix & w1 & Hloaded & Hget).
  exists matrix, w1. split; [done|].
  unfold todoToThought. rewrite bind_run, Hget.
  destruct (findFirst _ _ _) as [todo|]; [|done].
  rewrite bind_run. eexists. reflexivity.
Qed.

(** X18.  A thought written from a todo reads back as urgent.  When
    [getTodoById] finds an item whose title is one line without [>],
    [todoToThought] returns the text rendered from it, and [thoughtToTodo]
    on that text returns and stores an item with the title of the first,
    trimmed, and with its priority, high or low; but the urgency of the
    new item is always [urgent], because the word written for an item that
    is not urgent, [Not Urgent], contains the word that is searched for.
    So an item that was not urgent comes back in another quadrant. *)
Theorem thought_round_trip_makes_urgent thoughtsDir todoId w todo w1
    uuid basename todoOptions :
  getTodoById clock todoId w = (Returned (Some todo), w1) →
  one_line (title todo) →
  free_of ">" (title todo) →
  ∃ filepath content w2 todo' w3,
    todoToThought clock slugify path_join toLocaleString thoughtsDir todoId w =
      (Returned (filepath, content), w2) ∧
    content = thoughtContent (toLocaleString (createdAt todo)) todo ∧
    thoughtToTodo clock uuid basename (Some content) todoOptions w2 =
      (Returned todo', w3) ∧
    title todo' = JS.trim (title todo) ∧
    priority todo' = priority_class todo ∧
    urgency todo' = "urgent" ∧
    (urgency todo ≠ "urgent" → getQuadrantKey todo' ≠ getQuadrantKey todo).
Proof.
  intros Hget Hline Htitle.
  destruct (todoToThought_run thoughtsDir todoId w) as (matrix & w' & Hloaded & Hrun).
  destruct (getTodoById_run clock todoId w) as (matrix' & w'' & Hloaded' & Hget').
  assert (matrix' = matrix ∧ w'' = w') as [-> ->].
  { destruct Hloaded as [Hl _], Hloaded' as [Hl' _]. rewrite Hl in Hl'.
    by injection Hl' as <- <-. }
  assert (findFirst (lookup_key matrix todoId) matrix quadrants = Some todo) as Hfirst
    by congruence.
  rewrite Hfirst in Hrun. destruct Hrun as [filepath Hrun].
  set (content := thoughtContent (toLocaleString (createdAt todo)) todo) in *.
  set (w2 := mkWorld (todoFile w') (console w') (S (ticks w')) (writes w')) in *.
  destruct (thoughtToTodo_run uuid basename content todoOptions w2)
    as (stored & w3 & Hback & _).
  destruct (ThoughtFacts.thoughtOptions_rendered (toLocaleString (createdAt todo)) todo
              todoOptions Htitle) as [Hpriority Hurgency].
  fold content in Hpriority, Hurgency.
  eexists filepath, content, w2, _, w3. split_and!; try done.
  - cbn [title createTodo]. unfold content.
    by rewrite ThoughtFacts.thoughtTitle_rendered, ThoughtFacts.trim_skip_white.
  - cbn [priority createTodo]. rewrite Hpriority. unfold priority_class.
    by destruct (String.eqb (priority todo) "high").
  - cbn [urgency createTodo]. by rewrite Hurgency.
  - intros Hnot. unfold getQuadrantKey. cbn [priority urgency createTodo].
    rewrite Hpriority, Hurgency. unfold priority_class.
    destruct (String.eqb_spec (urgency todo) "urgent"); [done|].
    by destruct (String.eqb (priority todo) "high").
Qed.

Lemma thoughtOptions_plain content todoOptions :
  free_of ">" content →
  opt_priority (thoughtOptions content todoOptions) = Some "low" ∧
  opt_urgency (thoughtOptions content todoOptions) = Some "not-urgent" ∧
  opt_tags (thoughtOptions content todoOptions) = Some [].
Proof.
  intros H. unfold thoughtOptions. cbn [opt_priority opt_urgency opt_tags].
  by rewrite !ThoughtFacts.match_meta_none.
Qed.

Lemma thoughtOptions_classes content todoOptions :
  (opt_priority (thoughtOptions content todoOptions) = Some "high" ∨
   opt_priority (thoughtOptions content todoOptions) = Some "low") ∧
  (opt_urgency (thoughtOptions content todoOptions) = Some "urgent" ∨
   opt_urgency (thoughtOptions content todoOptions) = Some "not-urgent").
Proof.
  unfold thoughtOptions. cbn [opt_priority opt_urgency].
  split; match goal with |- context [if ?b then _ else _] => destruct b end; auto.
Qed.

(** X19.  The text of a thought alone decides where the new item goes.
    [thoughtToTodo] on a file that can be read returns an item and stores
    it as the last row of its quadrant.  The priority of the item is [high]
    or [low] and its urgency [urgent] or [not-urgent], whatever priority,
    urgency, tags, description or links the caller passes in the options:
    these five are always overwritten.  A text without [>] gives [low],
    [not-urgent] and no tags.  On a file that cannot be read the call throws
    before it touches the store. *)
Theorem thought_decides_the_quadrant uuid basename content todoOptions w :
  (∃ todo matrix w',
     thoughtToTodo clock uuid basename (Some content) todoOptions w = (Returned todo, w') ∧
     todoFile w' = Stored matrix ∧
     last (getQ matrix (getQuadrantKey todo)) = Some todo ∧
     (priority todo = "high" ∨ priority todo = "low") ∧
     (urgency todo = "urgent" ∨ urgency todo = "not-urgent") ∧
     (free_of ">" content →
      priority todo = "low" ∧ urgency todo = "not-urgent" ∧ tags todo = [])) ∧
  (∀ priority0 urgency0 tags0 description0 links0,
     thoughtToTodo clock uuid basename (Some content)
       (mkOptions (opt_id todoOptions) description0 priority0 urgency0
          (opt_completed todoOptions) (opt_createdAt todoOptions)
          (opt_completedAt todoOptions) tags0 links0 (opt_metadata todoOptions)) w =
     thoughtToTodo clock uuid basename (Some content) todoOptions w) ∧
  thoughtToTodo clock uuid basename None todoOptions w = (Thrown SystemError, w).
Proof.
  split_and!; [|done|done].
  destruct (thoughtToTodo_run uuid basename content todoOptions w)
    as (matrix & w' & Hrun & Hfile & Hlast).
  eexists _, matrix, w'. split_and!; try done.
  - cbn [priority createTodo].
    destruct (thoughtOptions_classes content todoOptions) as [[-> | ->] _]; auto.
  - cbn [urgency createTodo].
    destruct (thoughtOptions_classes content todoOptions) as [_ [-> | ->]]; auto.
  - intros Hplain. cbn [priority urgency tags createTodo].
    destruct (thoughtOptions_plain content todoOptions Hplain) as (-> & -> & ->).
    done.
Qed.

End Conversion.

Lemma thought_round_trip_makes_urgent_witness :
  urgency Sample.omega = "not-urgent" ∧
  ∃ filepath content w2 todo' w3,
    todoToThought Sample.clock (λ s, s) (λ dir name, dir +:+ "/" +:+ name) (λ ts, ts)
      "notes" "D1" Sample.world = (Returned (filepath, content), w2) ∧
    thoughtToTodo Sample.clock "u-2" "note" (Some content) no_options w2 =
      (Returned todo', w3) ∧
    urgency todo' = "urgent".
Proof.
  split; [done|].
  destruct (thought_round_trip_makes_urgent Sample.clock (λ s, s)
              (λ dir name, dir +:+ "/" +:+ name) (λ ts, ts) "notes" "D1" Sample.world
              Sample.omega (mkWorld (Stored Sample.matrix) [] 1 0) "u-2" "note" no_options
              eq_refl eq_refl eq_refl)
    as (filepath & content & w2 & todo' & w3 & Hwrite & _ & Hread & _ & _ & Hurgent & _).
  by exists filepath, content, w2, todo', w3.
Defined.

Lemma thought_decides_the_quadrant_witness :
  ∃ todo matrix w',
    thoughtToTodo Sample.clock "u-3" "groceries" (Some "milk, eggs")
      (mkOptions None None (Some "high") (Some "urgent") None None None None None None)
      Sample.fresh = (Returned todo, w') ∧
    todoFile w' = Stored matrix ∧
    priority todo = "low" ∧ urgency todo = "not-urgent".
Proof.
  destruct (thought_decides_the_quadrant Sample.clock "u-3" "groceries" "milk, eggs"
              (mkOptions None None (Some "high") (Some "urgent") None None None None None None)
              Sample.fresh)
    as ((todo & matrix & w' & Hrun & Hfile & _ & _ & _ & Hplain) & _ & _).
  destruct (Hplain eq_refl) as (Hpriority & Hurgency & _).
  by exists todo, matrix, w'.
Defined.

(** ** What a thought keeps of the tags *)

Module TagFacts.

Import Text ThoughtFacts.

Lemma match_meta_miss key r :
  match_meta_here key (String ">" r) = None →
  match_meta key (String ">" r) = match_meta key r.
Proof. intros H. cbn [match_meta]. by rewrite H. Qed.

Lemma match_meta_hit key r rest :
  literal_i key (JS.skip_white r) = Some rest →
  match_meta key (String ">" r) = Some (take_line (JS.skip_white rest)).
Proof.
  intros H. destruct key as [|k key]; cbn [match_meta match_meta_here]; by rewrite H.
Qed.

Lemma skip_white_app a b :
  JS.skip_white a ≠ "" → JS.skip_white (a +:+ b) = JS.skip_white a +:+ b.
Proof.
  induction a as [|c a IH]; [done|]. rewrite append_cons. cbn [JS.skip_white].
  destruct (JS.is_white c); [apply IH | by rewrite append_cons].
Qed.

Lemma take_line_app line rest :
  one_line line → take_line (line +:+ LF +:+ rest) = line.
Proof.
  unfold one_line. induction line as [|c line IH]; [done|].
  cbn [all_chars]. intros [Hc Hline]%andb_true_iff. rewrite append_cons.
  cbn [take_line]. apply negb_true_iff in Hc. by rewrite Hc, IH.
Qed.

Lemma all_chars_skip_white p s : all_chars p s = true → all_chars p (JS.skip_white s) = true.
Proof.
  induction s as [|c s IH]; [done|]. cbn [all_chars JS.skip_white].
  intros [Hc Hs]%andb_true_iff. destruct (JS.is_white c); [by apply IH|].
  cbn [all_chars]. by rewrite Hc, Hs.
Qed.

Lemma split_free sep s : free_of sep s → split sep s = [s].
Proof.
  unfold free_of. induction s as [|c s IH]; [done|]. cbn [all_chars split].
  intros [Hc Hs]%andb_true_iff. apply negb_true_iff in Hc. by rewrite Hc, IH.
Qed.

Lemma split_nonempty sep s : split sep s ≠ [].
Proof.
  destruct s as [|c s]; [done|]. cbn [split].
  destruct (Ascii.eqb c sep); [done|]. by destruct (split sep s).
Qed.

Lemma split_app sep a b :
  split sep (a +:+ String sep b) = split sep a ++ split sep b.
Proof.
  induction a as [|c a IH].
  - rewrite append_nil_l. cbn [split]. by rewrite Ascii.eqb_refl.
  - rewrite append_cons. cbn [split]. destruct (Ascii.eqb c sep); rewrite IH; [done|].
    pose proof (split_nonempty sep a). by destruct (split sep a).
Qed.

Lemma join_cons sep piece piece' pieces :
  join sep (piece :: piece' :: pieces) = piece +:+ sep +:+ join sep (piece' :: pieces).
Proof. done. Qed.

Lemma all_chars_join p sep pieces :
  all_chars p sep = true → Forall (λ piece, all_chars p piece = true) pieces →
  all_chars p (join sep pieces) = true.
Proof.
  intros Hsep. induction 1 as [|piece pieces Hpiece _ IH]; [done|].
  destruct pieces as [|piece' pieces]; [done|].
  by rewrite join_cons, !all_chars_app, Hpiece, Hsep, IH.
Qed.

(** Splitting at the commas what was joined with a comma and a space. *)
Lemma split_join tag tags :
  Forall (free_of ",") (tag :: tags) →
  split "," (join ", " (tag :: tags)) = tag :: (String " " <$> tags).
Proof.
  revert tag. induction tags as [|tag' tags IH]; intros tag Hfree.
  - apply split_free. by apply Forall_inv in Hfree.
  - rewrite join_cons. change (", " +:+ ?x) with (String "," (String " " x)).
    rewrite split_app, split_free by by apply Forall_inv in Hfree.
    apply Forall_inv_tail in Hfree. cbn [app]. f_equal.
    cbn [split]. change (Ascii.eqb " " ",") with false. cbv iota.
    by rewrite IH.
Qed.

Lemma trim_space s : JS.trim (String " " s) = JS.trim s.
Proof. done. Qed.

Lemma trim_split_join tag tags :
  JS.skip_white tag ≠ "" →
  Forall (free_of ",") (tag :: tags) →
  JS.trim <$> split "," (JS.skip_white (join ", " (tag :: tags))) =
  JS.trim <$> (tag :: tags).
Proof.
  intros Hblank Hfree.
  assert (JS.skip_white (join ", " (tag :: tags)) =
          join ", " (JS.skip_white tag :: tags)) as ->.
  { destruct tags as [|tag' tags]; [done|]. rewrite !join_cons. by apply skip_white_app. }
  rewrite split_join.
  - rewrite !fmap_cons, trim_skip_white. f_equal.
    rewrite <- list_fmap_compose. apply list_fmap_ext. intros _ t _. apply trim_space.
  - apply Forall_cons. split; [|by apply Forall_inv_tail in Hfree].
    apply Forall_inv in Hfree. by apply all_chars_skip_white.
Qed.

Lemma thoughtContent_shape_tags created todo :
  tags todo ≠ [] →
  ∃ rest,
    thoughtContent created todo =
    ("# " +:+ title todo +:+ LF +:+ LF) +:+
    ("> Priority: " +:+ (if String.eqb (priority todo) "high" then "High" else "Low") +:+ LF +:+
     "> Urgency: " +:+ (if String.eqb (urgency todo) "urgent" then "Urgent" else "Not Urgent")
     +:+ LF +:+ "> Tags: " +:+ join ", " (tags todo) +:+ LF +:+ rest).
Proof.
  intros Htags. unfold thoughtContent.
  destruct (tags todo) as [|tag tags]; [done|].
  change (0 <? length (tag :: tags)) with true. cbv iota.
  destruct (String.eqb (description todo) ""), (0 <? length (links todo));
    eexists; rewrite ?(foldl_links (_ +:+ _)), !append_assoc; reflexivity.
Qed.

Ltac step_meta :=
  repeat first [rewrite match_meta_cons by done | rewrite match_meta_miss by done].

Lemma thoughtOptions_tags created todo todoOptions tag tags0 :
  tags todo = tag :: tags0 →
  free_of ">" (title todo) →
  JS.skip_white tag ≠ "" →
  Forall (λ t, one_line t ∧ free_of "," t) (tags todo) →
  opt_tags (thoughtOptions (thoughtContent created todo) todoOptions) =
  Some (JS.trim <$> tags todo).
Proof.
  intros Htags Htitle Hblank Hall.
  destruct (thoughtContent_shape_tags created todo) as [rest ->]; [by rewrite Htags|].
  unfold thoughtOptions. cbn [opt_tags].
  assert (free_of ">" ("# " +:+ title todo +:+ LF +:+ LF)) as Hbefore.
  { unfold free_of in *. rewrite !all_chars_app, Htitle. done. }
  rewrite (match_meta_skip "Tags:") by done.
  assert (one_line (join ", " (tags todo))) as Hline.
  { apply all_chars_join; [done|]. eapply Forall_impl; [done|]. by intros ? [? _]. }
  assert (Forall (free_of ",") (tags todo)) as Hfree.
  { eapply Forall_impl; [done|]. by intros ? [_ ?]. }
  rewrite Htags in *.
  assert (JS.skip_white (join ", " (tag :: tags0)) ≠ "") as Hjoin.
  { destruct tags0 as [|tag' tags0]; [done|]. rewrite join_cons, skip_white_app by done.
    by destruct (JS.skip_white tag). }
  pose proof (trim_split_join tag tags0 Hblank Hfree) as Hsplit.
  remember (join ", " (tag :: tags0)) as joined eqn:Hjoined in *. clear Hjoined.
  assert (match_meta "Tags:"
            ("> Priority: " +:+
             (if String.eqb (priority todo) "high" then "High" else "Low") +:+ LF +:+
             "> Urgency: " +:+
             (if String.eqb (urgency todo) "urgent" then "Urgent" else "Not Urgent") +:+
             LF +:+ "> Tags: " +:+ joined +:+ LF +:+ rest) =
          Some (take_line (JS.skip_white (joined +:+ LF +:+ rest)))) as ->.
  { unfold LF.
    destruct (String.eqb (priority todo) "high"), (String.eqb (urgency todo) "urgent");
      rewrite !append_cons, !append_nil_l; step_meta;
      by erewrite match_meta_hit by reflexivity. }
  rewrite skip_white_app, take_line_app by (done || by apply one_line_skip_white).
  by rewrite Hsplit.
Qed.

End TagFacts.

Section Tags.

Variable clock : nat → Timestamp.

(** X20.  A thought keeps the tags.  When the title of an item holds no
    [>], its first tag is not blank and no tag holds a comma or a line
    terminator, [thoughtToTodo] on the text rendered from the item returns
    an item with the same tags, each one trimmed. *)
Theorem thought_keeps_tags created todo uuid basename todoOptions w tag tags0 :
  tags todo = tag :: tags0 →
  free_of ">" (title todo) →
  JS.skip_white tag ≠ "" →
  Forall (λ t, one_line t ∧ free_of "," t) (tags todo) →
  ∃ todo' w',
    thoughtToTodo clock uuid basename (Some (thoughtContent created todo)) todoOptions w =
      (Returned todo', w') ∧
    tags todo' = JS.trim <$> tags todo.
Proof.
  intros Htags Htitle Hblank Hall.
  destruct (thoughtToTodo_run clock uuid basename (thoughtContent created todo)
              todoOptions w) as (matrix & w' & Hrun & _).
  eexists _, w'. split; [done|]. cbn [tags createTodo].
  by rewrite (TagFacts.thoughtOptions_tags created todo todoOptions tag tags0).
Qed.

(** X21.  A metadata line without a value takes the next line for its
    value, since the white space that the expression skips after the colon
    includes the line feed.  For each of the three keys, when the first [>]
    of the text opens such a line, the value read is the line below,
    without the white space in front of it. *)
Theorem empty_metadata_value_takes_next_line key before next rest :
  key ∈ ["Priority:"; "Urgency:"; "Tags:"] →
  free_of ">" before →
  one_line next → JS.skip_white next ≠ "" →
  Text.match_meta key
    (before +:+ ">" +:+ key +:+ Text.LF +:+ next +:+ Text.LF +:+ rest) =
  Some (JS.skip_white next).
Proof.
  intros Hkey Hbefore Hline Hblank.
  rewrite ThoughtFacts.match_meta_skip by done.
  assert (Text.match_meta key (">" +:+ key +:+ Text.LF +:+ next +:+ Text.LF +:+ rest) =
          Some (Text.take_line (JS.skip_white (next +:+ Text.LF +:+ rest)))) as ->.
  { unfold Text.LF.
    repeat (apply elem_of_cons in Hkey as [->|Hkey];
              [rewrite !ThoughtFacts.append_cons, !ThoughtFacts.append_nil_l;
               by erewrite TagFacts.match_meta_hit by reflexivity|]).
    by apply elem_of_nil in Hkey. }
  by rewrite TagFacts.skip_white_app, TagFacts.take_line_app
    by (done || by apply ThoughtFacts.one_line_skip_white).
Qed.

End Tags.

Lemma thought_keeps_tags_witness :
  ∃ todo' w',
    thoughtToTodo Sample.clock "u-4" "note"
      (Some (thoughtContent "2/1/2026"
               (mkTodo "t" "Plan" "" "high" "urgent" false "2026-02-01T08:00:00.000Z" None
                  [" home"; "work "] [] [])))
      no_options Sample.world = (Returned todo', w') ∧
    tags todo' = ["home"; "work"].
Proof.
  apply (thought_keeps_tags Sample.clock "2/1/2026"
           (mkTodo "t" "Plan" "" "high" "urgent" false "2026-02-01T08:00:00.000Z" None
              [" home"; "work "] [] [])
           "u-4" "note" no_options Sample.world " home" ["work "] eq_refl eq_refl).
  - discriminate.
  - by repeat constructor.
Defined.

Lemma empty_metadata_value_takes_next_line_witness :
  Text.match_meta "Priority:"
    ("# Plan" +:+ Text.LF +:+ ">" +:+ "Priority:" +:+ Text.LF +:+
     "> Urgency: high" +:+ Text.LF +:+ "") =
  Some "> Urgency: high".
Proof.
  apply (empty_metadata_value_takes_next_line "Priority:" ("# Plan" +:+ Text.LF)
           "> Urgency: high" "").
  - apply list_elem_of_here.
  - reflexivity.
  - reflexivity.
  - discriminate.
Defined.

(** ** What a thought keeps of the description *)

Module DescriptionFacts.

Import Text ThoughtFacts TagFacts.

Lemma join_split s : join LF (split "010" s) = s.
Proof.
  induction s as [|c s IH]; [done|]. cbn [split].
  destruct (Ascii.eqb_spec c "010") as [->|Hc].
  - pose proof (split_nonempty "010" s) as Hne.
    destruct (split "010" s) as [|piece pieces]; [done|].
    rewrite join_cons, IH. done.
  - pose proof (split_nonempty "010" s) as Hne.
    destruct (split "010" s) as [|piece [|piece' pieces]]; [done| |].
    + simpl in *. by rewrite IH.
    + rewrite !join_cons in *. by rewrite append_cons, IH.
Qed.

Lemma join_snoc pieces piece :
  pieces ≠ [] → join LF (pieces ++ [piece]) = join LF pieces +:+ LF +:+ piece.
Proof.
  induction pieces as [|first [|second pieces] IH]; [done|done|].
  intros _. cbn [app] in *. rewrite !join_cons, IH by done. by rewrite !append_assoc.
Qed.

Lemma rev_app_app a b acc :
  String.rev_app (a +:+ b) acc = String.rev_app b (String.rev_app a acc).
Proof.
  revert acc. induction a as [|x a IH]; intros acc; [done|].
  rewrite append_cons. cbn [String.rev_app]. by rewrite IH.
Qed.

Lemma rev_snoc s c : String.rev (s +:+ String c "") = String c (String.rev s).
Proof. unfold String.rev. by rewrite rev_app_app. Qed.

Lemma trim_blank s : JS.skip_white s = "" → JS.trim s = "".
Proof. unfold JS.trim. by intros ->. Qed.

Lemma skip_white_blank_app a b :
  JS.skip_white a = "" → JS.skip_white (a +:+ b) = JS.skip_white b.
Proof.
  induction a as [|c a IH]; [done|]. rewrite append_cons. cbn [JS.skip_white].
  by destruct (JS.is_white c).
Qed.

(** White space at the end does not survive [trim]. *)
Lemma trim_snoc s c : JS.is_white c = true → JS.trim (s +:+ String c "") = JS.trim s.
Proof.
  intros Hc. destruct (decide (JS.skip_white s = "")) as [Hblank|Hblank].
  - rewrite (trim_blank s Hblank). apply trim_blank.
    rewrite skip_white_blank_app by done. cbn [JS.skip_white]. by rewrite Hc.
  - unfold JS.trim. rewrite skip_white_app by done. rewrite rev_snoc.
    cbn [JS.skip_white]. by rewrite Hc.
Qed.

Lemma trim_LF s : JS.trim (s +:+ LF) = JS.trim s.
Proof. by apply trim_snoc. Qed.

Lemma trim_LF_LF s : JS.trim (s +:+ LF +:+ LF) = JS.trim s.
Proof. by rewrite <- append_assoc, !trim_LF. Qed.

Lemma headingFrom_none lines first :
  Forall (λ line, startsWith line "#" = false) (drop first lines) →
  headingFrom lines first = length lines.
Proof.
  intros H. unfold headingFrom.
  replace (list_find _ (drop first lines)) with (@None (nat * string)); [done|].
  symmetry. apply list_find_None. eapply Forall_impl; [done|].
  intros line Hline. by rewrite Hline.
Qed.

Lemma headingFrom_found lines first before line after :
  drop first lines = before ++ line :: after →
  Forall (λ line, startsWith line "#" = false) before →
  startsWith line "#" = true →
  headingFrom lines first = first + length before.
Proof.
  intros Hdrop Hbefore Hline. unfold headingFrom. rewrite Hdrop.
  replace (list_find _ (before ++ line :: after)) with (Some (length before, line)); [done|].
  symmetry. apply list_find_Some. split_and!.
  - by apply list_lookup_middle.
  - done.
  - intros j other Hj Hlt. rewrite lookup_app_l in Hj by done.
    rewrite Forall_forall in Hbefore. apply list_elem_of_lookup_2, Hbefore in Hj.
    by rewrite Hj.
Qed.

Lemma thoughtContent_parts created todo :
  thoughtContent created todo =
  join LF (thoughtHead created todo) +:+ LF +:+ LF +:+ thoughtTail todo.
Proof.
  unfold thoughtContent, thoughtHead, thoughtTail, thoughtLinks.
  destruct (0 <? length (tags todo)), (String.eqb (description todo) ""),
    (0 <? length (links todo));
    cbn [app]; rewrite ?join_cons; cbn [join];
    rewrite ?(foldl_links (_ +:+ _)), ?append_assoc, ?append_nil_l, ?append_nil_r;
    reflexivity.
Qed.

Lemma split_join_lines lines :
  lines ≠ [] → Forall (free_of "010") lines → split "010" (join LF lines) = lines.
Proof.
  intros Hne Hfree. induction Hfree as [|line lines Hline Hlines IH]; [done|].
  destruct lines as [|line' lines]; [by apply split_free|].
  rewrite join_cons. change (LF +:+ ?x) with (String "010" x).
  by rewrite split_app, split_free, IH.
Qed.

Lemma free_of_app c a b : free_of c a → free_of c b → free_of c (a +:+ b).
Proof. unfold free_of. intros Ha Hb. by rewrite all_chars_app, Ha, Hb. Qed.

Lemma thoughtHead_lines created todo :
  one_line (title todo) → one_line created → Forall one_line (tags todo) →
  Forall (free_of "010") (thoughtHead created todo).
Proof.
  intros Htitle Hcreated Htags. unfold thoughtHead.
  repeat first [apply Forall_cons; split | apply Forall_app; split | apply Forall_nil].
  - apply free_of_app; [done | by apply one_line_free_of_LF].
  - done.
  - by destruct (String.eqb (priority todo) "high").
  - by destruct (String.eqb (urgency todo) "urgent").
  - destruct (0 <? length (tags todo)); [|done]. apply Forall_singleton.
    apply free_of_app; [done|]. apply one_line_free_of_LF, all_chars_join; [done|].
    done.
  - apply free_of_app; [done | by apply one_line_free_of_LF].
  - done.
Qed.

Lemma thoughtContent_lines created todo :
  one_line (title todo) → one_line created → Forall one_line (tags todo) →
  split "010" (thoughtContent created todo) =
  thoughtHead created todo ++ "" :: split "010" (thoughtTail todo).
Proof.
  intros Htitle Hcreated Htags. rewrite thoughtContent_parts.
  change (LF +:+ LF +:+ ?x) with (String "010" (String "010" x)).
  rewrite split_app, split_join_lines.
  - done.
  - by destruct (thoughtHead created todo) eqn:H.
  - by apply thoughtHead_lines.
Qed.

Lemma metadataEnd_head created todo rest :
  metadataEnd (thoughtHead created todo ++ "" :: rest) 0 0 =
  length (thoughtHead created todo).
Proof.
  unfold thoughtHead. by destruct (0 <? length (tags todo)).
Qed.

Lemma drop_head {A} (head : list A) x rest :
  drop (length head + 1) (head ++ x :: rest) = rest.
Proof.
  replace (head ++ x :: rest) with ((head ++ [x]) ++ rest) by by rewrite <- app_assoc.
  rewrite <- (drop_app_length (head ++ [x]) rest) at 2. f_equal.
  rewrite length_app. simpl. lia.
Qed.

(** What [extractDescription] makes of lines that begin like a rendered
    thought: with no heading among the lines [rest] it takes them all,
    otherwise the ones in front of the first heading. *)
Lemma description_of_lines created todo content rest :
  split "010" content = thoughtHead created todo ++ "" :: rest →
  (Forall (λ line, startsWith line "#" = false) rest →
   extractDescription content = JS.trim (join LF rest)) ∧
  (∀ before line after,
     rest = before ++ line :: after →
     Forall (λ line, startsWith line "#" = false) before →
     startsWith line "#" = true →
     extractDescription content = JS.trim (join LF before)).
Proof.
  intros Hlines. unfold extractDescription. rewrite Hlines, metadataEnd_head.
  set (head := thoughtHead created todo). split.
  - intros Hrest. rewrite headingFrom_none by by rewrite drop_head.
    unfold slice. rewrite drop_head, length_app. cbn [length].
    by rewrite take_ge by lia.
  - intros before line after -> Hbefore Hline.
    rewrite (headingFrom_found _ _ before line after) by (done || by rewrite drop_head).
    unfold slice. rewrite drop_head.
    replace (length head + 1 + length before - (length head + 1)) with (length before)
      by lia.
    by rewrite take_app_length.
Qed.

Lemma thoughtLinks_lines todo :
  thoughtLinks todo = "" ∨
  ∃ after, split "010" (thoughtLinks todo) = "## Links & References" :: after.
Proof.
  unfold thoughtLinks. destruct (0 <? length (links todo)); [right|by left].
  change (LF +:+ ?x) with (String "010" x). rewrite split_app. by eexists.
Qed.

Lemma extractDescription_rendered created todo :
  one_line (title todo) → one_line created → Forall one_line (tags todo) →
  no_heading (description todo) →
  extractDescription (thoughtContent created todo) = JS.trim (description todo).
Proof.
  intros Htitle Hcreated Htags Hdescription.
  pose proof (thoughtContent_lines created todo Htitle Hcreated Htags) as Hlines.
  destruct (description_of_lines created todo _ _ Hlines) as [Hall Hcut].
  unfold thoughtTail in *.
  destruct (thoughtLinks_lines todo) as [Hnone|[after Hsome]].
  - rewrite Hnone, append_nil_r in *. rewrite Hall.
    + rewrite join_split. destruct (String.eqb_spec (description todo) "") as [->|_]; [done|].
      apply trim_LF_LF.
    + destruct (String.eqb (description todo) ""); [by repeat constructor|].
      change (LF +:+ LF) with (String "010" (String "010" "")).
      rewrite split_app. apply Forall_app. split; [done | by repeat constructor].
  - destruct (String.eqb_spec (description todo) "") as [Hempty|_].
    + rewrite append_nil_l, Hsome in Hcut.
      rewrite (Hcut [] "## Links & References" after eq_refl) by done. by rewrite Hempty.
    + rewrite !append_assoc in Hcut.
      change (LF +:+ LF +:+ ?x) with (String "010" (String "010" x)) in Hcut.
      rewrite split_app in Hcut. cbn [split] in Hcut.
      change (Ascii.eqb "010" "010") with true in Hcut. cbv iota in Hcut.
      rewrite Hsome in Hcut.
      rewrite (Hcut (split "010" (description todo) ++ [""]) "## Links & References" after).
      * rewrite join_snoc by apply split_nonempty. rewrite join_split, append_nil_r.
        apply trim_LF.
      * by rewrite <- app_assoc.
      * apply Forall_app. split; [done | by repeat constructor].
      * done.
Qed.

Lemma split_heading more :
  ∃ line after, split "010" (String "#" more) = line :: after ∧ startsWith line "#" = true.
Proof.
  cbn [split]. change (Ascii.eqb "#" "010") with false. cbv iota.
  pose proof (split_nonempty "010" more).
  destruct (split "010" more) as [|piece pieces]; [done|].
  eexists _, _. split; [reflexivity|]. by destruct piece.
Qed.

(** The description read back from a rendered thought ends in front of the
    first line of the description that starts a heading, wherever that line
    is. *)
Lemma extractDescription_cut created todo before line after :
  one_line (title todo) → one_line created → Forall one_line (tags todo) →
  split "010" (description todo) = before ++ line :: after →
  Forall (λ line, startsWith line "#" = false) before →
  startsWith line "#" = true →
  extractDescription (thoughtContent created todo) = JS.trim (join LF before).
Proof.
  intros Htitle Hcreated Htags Hdescription Hbefore Hline.
  pose proof (thoughtContent_lines created todo Htitle Hcreated Htags) as Hlines.
  destruct (description_of_lines created todo _ _ Hlines) as [_ Hcut].
  unfold thoughtTail in Hcut.
  assert (String.eqb (description todo) "" = false) as Hfull.
  { destruct (description todo) as [|c r]; [|done]. cbn [split] in Hdescription.
    destruct before as [|first [|? ?]]; [|done..]. simpl in Hdescription.
    injection Hdescription as <- <-. by vm_compute in Hline. }
  rewrite Hfull, !append_assoc in Hcut.
  change (LF +:+ LF +:+ ?x) with (String "010" (String "010" x)) in Hcut.
  rewrite split_app, Hdescription, <- app_assoc in Hcut.
  by apply (Hcut before line (after ++ split "010" (String "010" (thoughtLinks todo)))).
Qed.

Lemma extractDescription_beforeHeading created todo :
  one_line (title todo) → one_line created → Forall one_line (tags todo) →
  extractDescription (thoughtContent created todo) =
  JS.trim (beforeHeading (description todo)).
Proof.
  intros Htitle Hcreated Htags. unfold beforeHeading.
  destruct (list_find _ (split "010" (description todo))) as [[index line]|] eqn:Hfind.
  - apply list_find_Some in Hfind as (Hlookup & Hline & Hfirst).
    apply (extractDescription_cut created todo _ line
             (drop (S index) (split "010" (description todo)))); try done.
    + by rewrite take_drop_middle.
    + apply Forall_forall. intros other [j Hj]%list_elem_of_lookup.
      apply lookup_take_Some in Hj as [Hj Hlt].
      apply not_true_is_false. by apply (Hfirst j).
  - apply extractDescription_rendered; try done.
    apply list_find_None in Hfind. eapply Forall_impl; [exact Hfind|].
    intros other. apply not_true_is_false.
Qed.

Lemma startsWith_heading s :
  startsWith s "#" = true → ∃ more, s = String "#" more.
Proof.
  destruct s as [|c more]; [done|]. unfold startsWith. cbn [String.prefix].
  destruct (Ascii.ascii_dec "#" c) as [<-|]; [|done]. by eexists.
Qed.

End DescriptionFacts.

Section Description.

Variable clock : nat → Timestamp.

Lemma or_string_empty s : or_string (Some s) "" = s.
Proof. unfold or_string. by destruct (String.eqb_spec s "") as [->|]. Qed.

(** X22.  A thought keeps the description up to its first heading.  For an
    item whose title, tags and rendered date are single lines,
    [thoughtToTodo] on the text rendered from the item returns an item whose
    description is, trimmed, what the first description holds in front of
    its first line that starts with [#], whichever line that is.  So the
    description comes back trimmed when no line of it starts with [#]; when
    lines without [#] at the start are followed by a line with one, those
    lines come back, joined and trimmed; and a description that starts with
    [#] comes back empty. *)
Theorem thought_keeps_description created todo uuid basename todoOptions w :
  one_line (title todo) → one_line created → Forall one_line (tags todo) →
  ∃ todo' w',
    thoughtToTodo clock uuid basename (Some (thoughtContent created todo)) todoOptions w =
      (Returned todo', w') ∧
    description todo' = JS.trim (beforeHeading (description todo)) ∧
    (no_heading (description todo) → description todo' = JS.trim (description todo)) ∧
    (∀ before line after,
       Text.split "010" (description todo) = before ++ line :: after →
       Forall (λ line, Text.startsWith line "#" = false) before →
       Text.startsWith line "#" = true →
       description todo' = JS.trim (Text.join Text.LF before)) ∧
    (Text.startsWith (description todo) "#" = true → description todo' = "").
Proof.
  intros Htitle Hcreated Htags.
  destruct (thoughtToTodo_run clock uuid basename (thoughtContent created todo)
              todoOptions w) as (matrix & w' & Hrun & _).
  eexists _, w'. split; [done|]. cbn [description createTodo thoughtOptions opt_description].
  rewrite or_string_empty. split_and!.
  - by apply DescriptionFacts.extractDescription_beforeHeading.
  - by apply DescriptionFacts.extractDescription_rendered.
  - intros before line after. by apply DescriptionFacts.extractDescription_cut.
  - intros [more Hmore]%DescriptionFacts.startsWith_heading.
    destruct (DescriptionFacts.split_heading more) as (line & after & Hsplit & Hline).
    rewrite <- Hmore in Hsplit.
    by rewrite (DescriptionFacts.extractDescription_cut created todo [] line after).
Qed.

End Description.

Lemma thought_keeps_description_witness :
  let plan description :=
    mkTodo "t" "Plan" description "high" "urgent" false "2026-02-01T08:00:00.000Z"
      None [] [] [] in
  (∃ todo' w',
     thoughtToTodo Sample.clock "u-5" "note"
       (Some (thoughtContent "2/1/2026"
                (plan ("Steps" +:+ Text.LF +:+ "# One" +:+ Text.LF +:+ "do it"))))
       no_options Sample.world = (Returned todo', w') ∧
     description todo' = "Steps") ∧
  (∃ todo' w',
     thoughtToTodo Sample.clock "u-5" "note"
       (Some (thoughtContent "2/1/2026" (plan ("# One" +:+ Text.LF +:+ "do it"))))
       no_options Sample.world = (Returned todo', w') ∧
     description todo' = "").
Proof.
  intros plan. split.
  - destruct (thought_keeps_description Sample.clock "2/1/2026"
                (plan ("Steps" +:+ Text.LF +:+ "# One" +:+ Text.LF +:+ "do it"))
                "u-5" "note" no_options Sample.world eq_refl eq_refl (Forall_nil_2 _))
      as (todo' & w' & Hrun & _ & _ & Hcut & _).
    exists todo', w'. split; [done|].
    apply (Hcut ["Steps"] "# One" ["do it"] eq_refl); [by repeat constructor | done].
  - destruct (thought_keeps_description Sample.clock "2/1/2026"
                (plan ("# One" +:+ Text.LF +:+ "do it"))
                "u-5" "note" no_options Sample.world eq_refl eq_refl (Forall_nil_2 _))
      as (todo' & w' & Hrun & _ & _ & _ & Hfirst).
    exists todo', w'. split; [done|]. by apply Hfirst.
Defined.

(** ** The links read from a thought *)

Module LinkFacts.

Import Text.

Lemma prefix_nil s : String.prefix "" s = true.
Proof. by destruct s. Qed.

Lemma prefix_refl s : String.prefix s s = true.
Proof.
  induction s as [|c s IH]; [done|]. simpl.
  by destruct (Ascii.ascii_dec c c).
Qed.

Lemma includes_refl s : JSText.includes s s = true.
Proof. destruct s as [|c s]; [done|]. cbn [JSText.includes]. by rewrite prefix_refl. Qed.

Lemma match_url_here_http previous s url :
  match_url_here previous s = Some url → startsWith url "http" = true.
Proof.
  unfold match_url_here. case_bool_decide; [done|].
  destruct (literal "http" s) as [r|]; [|done].
  destruct (match r with String "s"%char r' => _ | _ => _ end) as [scheme r'] eqn:Hscheme.
  assert (scheme = "https" ∨ scheme = "http") as Hcases.
  { destruct r as [|[[] [] [] [] [] [] [] []] r0]; simplify_eq; auto. }
  destruct (literal "://" r') as [r''|]; [|done].
  destruct (span _ r'') as [run rest]. destruct run as [|c run]; [done|].
  intros [= <-]. by destruct Hcases as [-> | ->].
Qed.

Lemma urlLinks_pushed s previous skip links :
  ∃ urls, urlLinks previous s skip links = links ++ urls ∧ pushed links urls.
Proof.
  revert previous skip links. induction s as [|c s IH]; intros previous skip links.
  - exists []. split; [by rewrite app_nil_r | constructor].
  - cbn [urlLinks]. destruct skip as [|skip]; [|apply IH].
    destruct (match_url_here previous (String c s)) as [url|] eqn:Hmatch; [|apply IH].
    destruct (existsb _ links) eqn:Hknown; [apply IH|].
    destruct (IH (Some c) (String.length url - 1) (links ++ [url])) as (urls & -> & Hurls).
    exists (url :: urls). split; [by rewrite <- app_assoc|].
    constructor; [by eapply match_url_here_http | | done].
    apply Forall_forall. intros link Hin.
    destruct (JSText.includes link url) eqn:Hincl; [|done].
    assert (existsb (λ link, JSText.includes link url) links = true) as Hex
      by (apply existsb_exists; exists link; split; [by apply list_elem_of_In | done]).
    congruence.
Qed.

Lemma pushed_lookup links urls i url :
  pushed links urls → urls !! i = Some url →
  startsWith url "http" = true ∧
  Forall (λ link, JSText.includes link url = false) (links ++ take i urls).
Proof.
  intros Hpushed. revert i. induction Hpushed as [|links first urls Hhttp Hnew _ IH];
    intros i Hi; [done|].
  destruct i as [|i]; simplify_eq/=.
  - by rewrite app_nil_r.
  - destruct (IH i Hi) as [? Hall]. split; [done|]. by rewrite <- app_assoc in Hall.
Qed.

Lemma pushed_NoDup links urls : pushed links urls → NoDup urls.
Proof.
  intros Hpushed. apply NoDup_alt. intros i j url Hi Hj.
  assert (∀ i j, i < j → urls !! i = Some url → urls !! j = Some url → False) as Hlt.
  { clear i j Hi Hj. intros i j Hij Hi Hj.
    destruct (pushed_lookup links urls j url Hpushed Hj) as [_ Hall].
    apply Forall_app in Hall as [_ Hall]. rewrite Forall_forall in Hall.
    assert (url ∈ take j urls) as Hin
      by (apply list_elem_of_lookup; exists i; by rewrite lookup_take_lt).
    apply Hall in Hin. by rewrite includes_refl in Hin. }
  destruct (Nat.lt_trichotomy i j) as [Hij|[Hij|Hij]]; [|done|]; exfalso; eauto.
Qed.

Lemma span_all p s run rest : span p s = (run, rest) → all_chars p run = true.
Proof.
  revert run rest. induction s as [|c s IH]; intros run rest; cbn [span].
  - by intros [= <- <-].
  - destruct (p c) eqn:Hc; [|by intros [= <- <-]].
    destruct (span p s) as [run' rest']. intros [= <- <-].
    cbn [all_chars]. by rewrite Hc, (IH run' rest').
Qed.

Lemma match_markdown_here_groups s label target matched :
  match_markdown_here s = Some (label, target, matched) →
  label ≠ "" ∧ target ≠ "" ∧ free_of "]" label ∧ free_of ")" target.
Proof.
  unfold match_markdown_here.
  destruct s as [|[[] [] [] [] [] [] [] []] r]; try done.
  destruct (span _ r) as [label' r1] eqn:Hlabel.
  destruct label' as [|c label']; [done|].
  destruct r1 as [|[[] [] [] [] [] [] [] []] [|[[] [] [] [] [] [] [] []] r2]]; try done.
  destruct (span _ r2) as [target' r3] eqn:Htarget.
  destruct target' as [|d target']; [done|].
  destruct r3 as [|[[] [] [] [] [] [] [] []] r4]; try done.
  intros [= <- <- <-]. split_and!; [done|done| |].
  - by apply span_all in Hlabel.
  - by apply span_all in Htarget.
Qed.

Lemma markdownLinks_entries s skip :
  Forall (λ link, ∃ label target,
            link = label +:+ ": " +:+ target ∧ label ≠ "" ∧ target ≠ "" ∧
            free_of "]" label ∧ free_of ")" target)
    (markdownLinks s skip).
Proof.
  revert skip. induction s as [|c s IH]; intros skip; [constructor|].
  cbn [markdownLinks]. destruct skip as [|skip]; [|apply IH].
  destruct (match_markdown_here (String c s)) as [[[label target] matched]|] eqn:Hmatch;
    [|apply IH].
  constructor; [|apply IH]. exists label, target. split; [done|].
  by eapply match_markdown_here_groups.
Qed.

(** *** Every markdown link is read *)

Lemma length_append (a b : string) :
  String.length (a +:+ b) = String.length a + String.length b.
Proof.
  induction a as [|c a IH]; [done|].
  rewrite ThoughtFacts.append_cons. cbn [String.length]. by rewrite IH.
Qed.

Lemma span_app p run rest :
  all_chars p run = true →
  match rest with String c _ => p c = false | EmptyString => True end →
  span p (run +:+ rest) = (run, rest).
Proof.
  intros Hrun Hrest. induction run as [|c run IH].
  - rewrite ThoughtFacts.append_nil_l. destruct rest as [|c rest]; [done|].
    cbn [span]. by rewrite Hrest.
  - rewrite ThoughtFacts.append_cons. cbn [span]. cbn [all_chars] in Hrun.
    apply andb_true_iff in Hrun as [Hc Hrun]. by rewrite Hc, IH.
Qed.

Lemma span_Some p s run rest : span p s = (run, rest) → s = run +:+ rest.
Proof.
  revert run rest. induction s as [|c s IH]; intros run rest; cbn [span].
  - by intros [= <- <-].
  - destruct (p c); [|by intros [= <- <-]].
    destruct (span p s) as [run' rest']. intros [= <- <-].
    by rewrite ThoughtFacts.append_cons, <- (IH run' rest').
Qed.

Lemma match_markdown_here_other c s :
  c ≠ "["%char → match_markdown_here (String c s) = None.
Proof. intros Hc. unfold match_markdown_here. by destruct c as [[] [] [] [] [] [] [] []]. Qed.

(** Plain text in front does not change what is read. *)
Lemma markdownLinks_plain plain s :
  free_of "[" plain → markdownLinks (plain +:+ s) 0 = markdownLinks s 0.
Proof.
  unfold free_of. induction plain as [|c plain IH]; [done|]. cbn [all_chars].
  intros [Hc Hplain]%andb_true_iff. rewrite ThoughtFacts.append_cons. cbn [markdownLinks].
  rewrite match_markdown_here_other; [by apply IH|].
  intros ->. done.
Qed.

Lemma match_markdown_here_link label target after :
  label ≠ "" → target ≠ "" → free_of "]" label → free_of ")" target →
  match_markdown_here
    (String "[" (label +:+ String "]" (String "(" (target +:+ String ")" after)))) =
  Some (label, target, String.length label + String.length target + 4).
Proof.
  intros Hl Ht Hlabel Htarget. unfold match_markdown_here.
  rewrite (span_app _ label) by done.
  destruct label as [|c label]; [done|].
  rewrite (span_app _ target) by done.
  by destruct target as [|d target].
Qed.

(** The characters of a match are passed over. *)
Lemma markdownLinks_skip a s :
  markdownLinks (a +:+ s) (String.length a) = markdownLinks s 0.
Proof.
  induction a as [|c a IH]; [done|].
  rewrite ThoughtFacts.append_cons. by cbn [markdownLinks String.length].
Qed.

Lemma markdownLinks_link label target after :
  label ≠ "" → target ≠ "" → free_of "]" label → free_of ")" target →
  markdownLinks ("[" +:+ label +:+ "](" +:+ target +:+ ")" +:+ after) 0 =
  (label +:+ ": " +:+ target) :: markdownLinks after 0.
Proof.
  intros Hl Ht Hlabel Htarget.
  change (markdownLinks
            (String "[" (label +:+ String "]" (String "(" (target +:+ String ")" after)))) 0 =
          (label +:+ ": " +:+ target) :: markdownLinks after 0).
  cbn [markdownLinks]. rewrite match_markdown_here_link by done. f_equal.
  replace (String.length label + String.length target + 4 - 1)
    with (String.length (label +:+ "](" +:+ target +:+ ")"))
    by (rewrite !length_append; cbn [String.length]; lia).
  rewrite <- (markdownLinks_skip (label +:+ "](" +:+ target +:+ ")") after). f_equal.
  by rewrite !ThoughtFacts.append_assoc.
Qed.

Lemma markdownLinks_linkedText parts rest :
  Forall well_linked parts → free_of "[" rest →
  markdownLinks (linkedText parts rest) 0 = linkEntry <$> parts.
Proof.
  intros Hparts Hrest.
  induction Hparts as [|[[plain label] target] parts (Hp & Hl & Ht & Hlabel & Htarget) _ IH].
  - cbn [linkedText]. rewrite <- (ThoughtFacts.append_nil_r rest).
    by rewrite markdownLinks_plain.
  - cbn [linkedText fmap list_fmap linkEntry].
    rewrite markdownLinks_plain, markdownLinks_link by done. by rewrite IH.
Qed.

(** *** Every URL that stands apart is read *)

Lemma literal_Some lit s r : literal lit s = Some r → s = lit +:+ r.
Proof.
  revert s. induction lit as [|k lit IH]; intros s; cbn [literal].
  - by intros [= ->].
  - destruct s as [|c s]; [done|]. destruct (Ascii.eqb_spec k c) as [->|]; [|done].
    intros H. by rewrite (IH s H), ThoughtFacts.append_cons.
Qed.

(** A match is the text at the place, and is made of [url_char]s. *)
Lemma match_url_here_prefix previous s url :
  match_url_here previous s = Some url →
  ∃ rest, s = url +:+ rest ∧ all_chars url_char url = true ∧ url ≠ "".
Proof.
  unfold match_url_here. case_bool_decide; [done|].
  destruct (literal "http" s) as [r|] eqn:Hhttp; [|done].
  apply literal_Some in Hhttp.
  destruct (match r with String "s"%char r' => _ | _ => _ end) as [scheme r'] eqn:Hscheme.
  assert ("http" +:+ r = scheme +:+ r' ∧ all_chars url_char scheme = true ∧ scheme ≠ "")
    as (Hsame & Hchars & Hne).
  { destruct r as [|[[] [] [] [] [] [] [] []] r0]; simplify_eq; done. }
  destruct (literal "://" r') as [r''|] eqn:Hslashes; [|done].
  apply literal_Some in Hslashes.
  destruct (span _ r'') as [run rest] eqn:Hspan. destruct run as [|c run]; [done|].
  intros [= <-]. exists rest.
  pose proof (span_all _ _ _ _ Hspan) as Hrun. apply span_Some in Hspan.
  change (all_chars url_char (String c run) = true) in Hrun.
  split_and!.
  - rewrite Hhttp, Hsame, Hslashes, Hspan. by rewrite !ThoughtFacts.append_assoc.
  - rewrite !ThoughtFacts.all_chars_app, Hchars. by rewrite Hrun.
  - by destruct scheme.
Qed.

Lemma url_ahead_app url rest :
  all_chars url_char url = true → url_ahead (String.length url) (url +:+ rest).
Proof.
  induction url as [|c url IH]; [done|]. cbn [all_chars].
  intros [Hc Hurl]%andb_true_iff. rewrite ThoughtFacts.append_cons. split; [done|].
  by apply IH.
Qed.

Lemma match_url_here_white previous w s :
  JS.is_white w = true → match_url_here previous (String w s) = None.
Proof.
  intros Hw. unfold match_url_here. case_bool_decide; [done|]. cbn [literal].
  destruct (Ascii.eqb_spec "h" w) as [<-|]; [by vm_compute in Hw | done].
Qed.

(** White space is part of no match: when the loop comes to it, it has
    pushed what it found before, and goes on afresh. *)
Lemma urlLinks_reaches_white front w s :
  JS.is_white w = true →
  ∀ previous skip links,
    url_ahead skip (front +:+ String w s) →
    ∃ more, urlLinks previous (front +:+ String w s) skip links =
            urlLinks (Some w) s 0 (links ++ more).
Proof.
  intros Hw. induction front as [|c front IH]; intros previous skip links Hskip.
  - rewrite ThoughtFacts.append_nil_l in *. destruct skip as [|skip].
    + cbn [urlLinks]. rewrite match_url_here_white by done.
      exists []. by rewrite app_nil_r.
    + destruct Hskip as [Hc _]. unfold url_char in Hc. by rewrite Hw in Hc.
  - rewrite ThoughtFacts.append_cons in *. destruct skip as [|skip].
    + cbn [urlLinks].
      destruct (match_url_here previous _) as [url|] eqn:Hmatch; [|by apply IH].
      apply match_url_here_prefix in Hmatch as (rest & Hs & Hchars & Hne).
      destruct url as [|u url]; [done|]. rewrite ThoughtFacts.append_cons in Hs.
      injection Hs as <- Hs. cbn [all_chars] in Hchars.
      apply andb_true_iff in Hchars as [_ Hchars].
      cbn [String.length]. rewrite Nat.sub_succ, Nat.sub_0_r.
      set (known := existsb _ links).
      destruct (IH (Some c) (String.length url)
                  (if known then links else links ++ [String c url])) as [more Hmore].
      { rewrite Hs. by apply url_ahead_app. }
      rewrite Hmore. destruct known; [by exists more|].
      exists (String c url :: more). by rewrite <- app_assoc.
    + cbn [urlLinks]. destruct Hskip as [_ Hskip]. by apply IH.
Qed.

Lemma match_url_here_url previous url after :
  previous ≠ Some "("%char → is_url url → ends_url after →
  match_url_here previous (url +:+ after) = Some url.
Proof.
  intros Hprevious (run & Hurl & Hrun & Hchars) Hafter. unfold match_url_here.
  rewrite bool_decide_false by done.
  destruct Hurl as [-> | ->];
    rewrite ThoughtFacts.append_assoc;
    rewrite !ThoughtFacts.append_cons, !ThoughtFacts.append_nil_l;
    cbn [literal]; simpl Ascii.eqb; cbv iota; cbn [literal];
    rewrite span_app by done; by destruct run.
Qed.

(** A URL at a place where the loop is outside a match is pushed, unless an
    entry holds it already. *)
Lemma urlLinks_lists previous url after links :
  previous ≠ Some "("%char → is_url url → ends_url after →
  ∃ link, link ∈ urlLinks previous (url +:+ after) 0 links ∧
          JSText.includes link url = true.
Proof.
  intros Hprevious Hurl Hafter.
  pose proof (match_url_here_url previous url after Hprevious Hurl Hafter) as Hmatch.
  destruct url as [|c url]; [by destruct Hurl as (run & [?|?] & _)|].
  rewrite ThoughtFacts.append_cons in *. cbn [urlLinks]. rewrite Hmatch.
  set (links' := if existsb _ links then links else links ++ [String c url]).
  destruct (urlLinks_pushed (url +:+ after) (Some c)
              (String.length (String c url) - 1) links') as (urls & -> & _).
  assert (∃ link, link ∈ links' ∧ JSText.includes link (String c url) = true)
    as (link & Hin & Hincl).
  { subst links'.
    destruct (existsb (λ link, JSText.includes link (String c url)) links) eqn:Hknown.
    - apply existsb_exists in Hknown as (link & Hin & Hincl).
      exists link. split; [by apply list_elem_of_In | done].
    - exists (String c url). split; [|apply includes_refl].
      apply elem_of_app. right. apply list_elem_of_here. }
  exists link. split; [|done]. apply elem_of_app. by left.
Qed.

Lemma extractLinks_lists before url after :
  ends_white before → is_url url → ends_url after →
  ∃ link, link ∈ extractLinks (before +:+ url +:+ after) ∧
          JSText.includes link url = true.
Proof.
  intros Hbefore Hurl Hafter. unfold extractLinks.
  generalize (markdownLinks (before +:+ url +:+ after) 0). intros links.
  destruct Hbefore as [->|(front & w & -> & Hw)].
  - rewrite ThoughtFacts.append_nil_l. by apply urlLinks_lists.
  - rewrite ThoughtFacts.append_assoc, ThoughtFacts.append_cons, ThoughtFacts.append_nil_l.
    destruct (urlLinks_reaches_white front w (url +:+ after) Hw None 0 links I)
      as [more ->].
    apply urlLinks_lists; [|done..]. intros [= ->]. by vm_compute in Hw.
Qed.

End LinkFacts.

(** X23.  The links read from a text.  [extractLinks] returns first the
    entries [label: target] that its first loop makes of markdown links,
    with a label free of [\]] and a target free of [)], neither of them
    empty, and then URLs, each of which starts with [http].  A URL is
    listed only if it is part of no entry in front of it: of no markdown
    entry and of no URL listed before; in particular no URL is listed
    twice.  No markdown link is left out: in a text written as stretches
    that hold no [\[], each followed by a link [\[label\](target)] with a
    label free of [\]] and a target free of [)], neither of them empty,
    the first loop makes an entry of every link, in the order of the text,
    and nothing else, and every one of them is returned.  And no URL that
    stands apart is left out: in ASCII text, a URL of one of the schemes
    [http] and [https] that starts the text or follows white space, and
    ends with the text or in front of white space or [)], is itself an
    entry or is part of one. *)
Theorem links_are_listed_once :
  (∀ content,
     ∃ urls,
       extractLinks content = markdownLinks content 0 ++ urls ∧
       Forall (λ link, ∃ label target,
                 link = label +:+ ": " +:+ target ∧ label ≠ "" ∧ target ≠ "" ∧
                 free_of "]" label ∧ free_of ")" target)
         (markdownLinks content 0) ∧
       NoDup urls ∧
       ∀ i url, urls !! i = Some url →
         Text.startsWith url "http" = true ∧
         Forall (λ link, JSText.includes link url = false)
           (markdownLinks content 0 ++ take i urls)) ∧
  (∀ parts rest,
     Forall well_linked parts → free_of "[" rest →
     markdownLinks (linkedText parts rest) 0 = linkEntry <$> parts ∧
     ∀ part, part ∈ parts → linkEntry part ∈ extractLinks (linkedText parts rest)) ∧
  (∀ before url after,
     ascii_text (before +:+ url +:+ after) →
     ends_white before → is_url url → ends_url after →
     ∃ link, link ∈ extractLinks (before +:+ url +:+ after) ∧
             JSText.includes link url = true).
Proof.
  assert (∀ content, ∃ urls,
            extractLinks content = markdownLinks content 0 ++ urls ∧
            pushed (markdownLinks content 0) urls) as Hpushed.
  { intros content. apply LinkFacts.urlLinks_pushed. }
  split_and!.
  - intros content. destruct (Hpushed content) as (urls & Hrun & Hurls).
    exists urls. split_and!.
    + done.
    + apply LinkFacts.markdownLinks_entries.
    + by eapply LinkFacts.pushed_NoDup.
    + intros i url. by apply LinkFacts.pushed_lookup.
  - intros parts rest Hparts Hrest.
    pose proof (LinkFacts.markdownLinks_linkedText parts rest Hparts Hrest) as Hread.
    split; [done|]. intros part Hin.
    destruct (Hpushed (linkedText parts rest)) as (urls & -> & _).
    rewrite Hread. apply elem_of_app. left. by apply list_elem_of_fmap_2.
  - intros before url after _. apply LinkFacts.extractLinks_lists.
Qed.

Lemma links_are_listed_once_witness :
  markdownLinks
    (linkedText
       [("see ", "Docs", "https://docs.example/a"); (" or ", "the FAQ", "faq.html")]
       ", https://docs.example/a and http://z.w/q") 0 =
    ["Docs: https://docs.example/a"; "the FAQ: faq.html"] ∧
  ∃ link,
    link ∈ extractLinks
             ("see [Docs](https://docs.example/a), https://docs.example/a and " +:+
              "http://z.w/q" +:+ "") ∧
    JSText.includes link "http://z.w/q" = true.
Proof.
  destruct links_are_listed_once as (_ & Hmarkdown & Hurl). split.
  - apply (Hmarkdown [("see ", "Docs", "https://docs.example/a");
                      (" or ", "the FAQ", "faq.html")]).
    + by repeat constructor.
    + done.
  - apply Hurl.
    + done.
    + right.
      by exists "see [Docs](https://docs.example/a), https://docs.example/a and", " "%char.
    + exists "z.w/q". split; [by left | done].
    + done.
Defined.

Example extractLinks_sample :
  extractLinks "see [Docs](https://docs.example/a), https://docs.example/a and http://z.w/q" =
  ["Docs: https://docs.example/a"; "http://z.w/q"].
Proof. by vm_compute. Qed.

(** ** Adding from the interfaces *)

Section Adding.

Variable clock : nat → Timestamp.

(** X24.  Both interfaces refuse only the empty title.  The add form of
    the terminal interface answers an empty title with a message and does
    nothing else, and the prompt of the command line does not accept it.
    Every other title is accepted, blank ones included: the item is stored
    as the last row of the quadrant of the priority and urgency chosen,
    with the title trimmed, so that a title of white space is stored as the
    empty title. *)
Theorem only_the_empty_title_is_refused uuid title0 highChecked urgentChecked
    priority0 urgency0 tagsValue description0 w :
  (validateTitle title0 = None ↔ title0 ≠ "") ∧
  (title0 = "" →
   submitAddForm clock uuid title0 highChecked urgentChecked tagsValue w =
   (Returned (Refused "Title is required"), w)) ∧
  (title0 ≠ "" →
   ∃ todo matrix w' todo' matrix' w'',
     submitAddForm clock uuid title0 highChecked urgentChecked tagsValue w =
       (Returned (Added matrix), w') ∧
     last (getQ matrix (getQuadrantKey todo)) = Some todo ∧
     title todo = JS.trim title0 ∧
     priority todo = (if highChecked then "high" else "low") ∧
     urgency todo = (if urgentChecked then "urgent" else "not-urgent") ∧
     commandAdd clock uuid title0 priority0 urgency0 tagsValue description0 w =
       (Returned matrix', w'') ∧
     last (getQ matrix' (getQuadrantKey todo')) = Some todo' ∧
     title todo' = JS.trim title0 ∧
     tags todo' = tags todo ∧
     (JS.skip_white title0 = "" → title todo = "" ∧ title todo' = "")).
Proof.
  split_and!.
  - unfold validateTitle. destruct (String.eqb_spec title0 ""); split; try done.
  - intros ->. done.
  - intros Hfull. unfold submitAddForm, commandAdd.
    destruct (String.eqb_spec title0 ""); [done|].
    rewrite !bind_run.
    change (now clock w)
      with (Returned (clock (ticks w)),
            mkWorld (todoFile w) (console w) (S (ticks w)) (writes w)).
    cbv iota beta zeta. rewrite bind_run.
    set (w1 := mkWorld (todoFile w) (console w) (S (ticks w)) (writes w)).
    set (todo := createTodo (clock (ticks w)) uuid title0 (mkOptions None None _ _ _ _ _ _ _ _)).
    set (todo' := createTodo (clock (ticks w)) uuid title0 (mkOptions None (Some _) _ _ _ _ _ _ _ _)).
    destruct (addTodo_returns clock todo w1) as (matrix & w' & -> & _ & Hlast).
    destruct (addTodo_returns clock todo' w1) as (matrix' & w'' & -> & _ & Hlast').
    exists todo, matrix, w', todo', matrix', w''.
    split_and!; try done.
    + unfold todo. cbn [priority createTodo opt_priority]. by destruct highChecked.
    + unfold todo. cbn [urgency createTodo opt_urgency]. by destruct urgentChecked.
    + intros Hblank. unfold todo, todo'. cbn [title createTodo].
      by rewrite (DescriptionFacts.trim_blank title0 Hblank).
Qed.

End Adding.

Lemma only_the_empty_title_is_refused_witness :
  validateTitle "   " = None ∧
  ∃ todo matrix w',
    submitAddForm Sample.clock "u-6" "   " true false "" Sample.world =
      (Returned (Added matrix), w') ∧
    last (getQ matrix (getQuadrantKey todo)) = Some todo ∧
    title todo = "".
Proof.
  destruct (only_the_empty_title_is_refused Sample.clock "u-6" "   " true false
              "high" "not-urgent" "" "" Sample.world) as (Hvalid & _ & Hadd).
  split; [by apply Hvalid|].
  destruct Hadd as (todo & matrix & w' & todo' & matrix' & w'' & Hrun & Hlast & _ & _ & _
                    & _ & _ & _ & _ & Hblank); [done|].
  exists todo, matrix, w'. split_and!; [done|done|]. by apply Hblank.
Defined.

(** ** Toggling as an update *)

Section ToggleAsUpdate.

Variable clock : nat → Timestamp.

Lemma spread_completion_patch flag todo :
  spread todo (completion_patch flag) = set_completed flag todo.
Proof. by destruct todo. Qed.

(** In the quadrant that holds the item, the pass of an update that flips
    the flag is the pass of a toggle. *)
Lemma updateInQuadrant_flip uuid quadrant matrix found index todo w :
  findIndex uuid (getQ matrix quadrant) = Some (index, todo) →
  getQuadrantKey todo = quadrant →
  updateInQuadrant clock uuid (completion_patch (negb (completed todo))) quadrant
    (matrix, found) w =
  toggleInQuadrant clock uuid quadrant (matrix, found) w.
Proof.
  intros Hfind Hkey. unfold updateInQuadrant, toggleInQuadrant. rewrite Hfind.
  rewrite spread_completion_patch. unfold becomes_completed.
  assert (getQuadrantKey (set_completedAt None (set_completed false todo)) = quadrant)
    as Hkey1 by done.
  assert (∀ ts, getQuadrantKey (set_completedAt (Some ts) (set_completed true todo)) =
                quadrant) as Hkey2 by done.
  destruct (completed todo) eqn:Hdone; cbn [negb completion_patch upd_completed andb];
    rewrite !bind_run.
  - rewrite bool_decide_eq_false_2 by done. rewrite bool_decide_eq_true_2 by done.
    cbn [completed set_completed andb]. cbv iota.
    change ((mret (set_completedAt None (set_completed false todo)) : M TodoItem) w)
      with (Returned (set_completedAt None (set_completed false todo)), w).
    cbv iota beta. rewrite Hkey1. by rewrite decide_False by (by intros ?).
  - rewrite bool_decide_eq_true_2 by done.
    cbn [completed set_completed andb]. cbv iota. rewrite !bind_run.
    change (now clock w)
      with (Returned (clock (ticks w)),
            mkWorld (todoFile w) (console w) (S (ticks w)) (writes w)).
    cbv iota beta. unfold mret, M_ret. cbv iota beta.
    rewrite Hkey2. by rewrite decide_False by (by intros ?).
Qed.

Lemma togglePass_found ts uuid quadrant matrix found index todo :
  findIndex uuid (getQ matrix quadrant) = Some (index, todo) →
  togglePass ts uuid quadrant (matrix, found) =
  (setQ matrix quadrant (<[index:=toggleItem ts todo]> (getQ matrix quadrant)), true).
Proof. intros Hfind. unfold togglePass. by rewrite Hfind. Qed.

Lemma findIndex_after_toggle uuid matrix quadrant l other :
  other ≠ quadrant →
  findIndex uuid (getQ matrix other) = None →
  findIndex uuid (getQ (setQ matrix quadrant l) other) = None.
Proof. intros Hother Hnone. by rewrite getQ_setQ_ne. Qed.

(** X25.  Toggling is updating the completion flag.  In a stored matrix,
    for an item that sits in the quadrant computed from its fields and whose
    identifier no other quadrant holds, [updateTodo] with the patch that
    sets [completed] to the opposite of what it is does exactly what
    [toggleTodo] does: the same result, the same file, the same readings of
    the clock. *)
Theorem toggle_is_an_update w matrix todoId uuid quadrant index todo :
  todoFile w = Stored matrix →
  resolveIfFriendly matrix todoId = Returned uuid →
  findIndex uuid (getQ matrix quadrant) = Some (index, todo) →
  getQuadrantKey todo = quadrant →
  (∀ other, other ≠ quadrant → findIndex uuid (getQ matrix other) = None) →
  updateTodo clock todoId (completion_patch (negb (completed todo))) w =
  toggleTodo clock todoId w.
Proof.
  intros Hfile Hres Hfind Hkey Hothers.
  unfold updateTodo, toggleTodo.
  rewrite !bind_run, (load_stored clock w matrix Hfile). rewrite !bind_run.
  unfold call. rewrite Hres.
  set (w1 := mkWorld (Stored matrix) (console w) (S (ticks w)) (writes w)).
  destruct (toggleInQuadrant_run clock uuid quadrant (matrix, false) w1)
    as (w2 & Htoggle & _).
  rewrite (togglePass_found _ uuid quadrant matrix false index todo Hfind) in Htoggle.
  pose proof (updateInQuadrant_flip uuid quadrant matrix false index todo w1 Hfind Hkey)
    as Hflip.
  rewrite Htoggle in Hflip.
  set (matrix' := setQ matrix quadrant _) in *.
  assert (∀ other, other ≠ quadrant → findIndex uuid (getQ matrix' other) = None)
    as Hothers'.
  { intros other Hother. unfold matrix'. by apply findIndex_after_toggle, Hothers. }
  destruct quadrant;
    repeat first
      [ rewrite bind_run, Hflip
      | rewrite bind_run, Htoggle
      | rewrite bind_run, updateInQuadrant_none by (by apply Hothers || by apply Hothers')
      | rewrite bind_run, toggleInQuadrant_none by (by apply Hothers || by apply Hothers') ];
    reflexivity.
Qed.

End ToggleAsUpdate.

Lemma toggle_is_an_update_witness :
  updateTodo Sample.clock "C1" (completion_patch false) Sample.world =
  toggleTodo Sample.clock "C1" Sample.world.
Proof.
  apply (toggle_is_an_update Sample.clock Sample.world Sample.matrix "C1" "delta"
           key_not_important_urgent 0 Sample.delta eq_refl eq_refl eq_refl eq_refl).
  by intros [] ?.
Defined.

(** ** The stores that runs lead to *)

Section Reachable.

Variable clock : nat → Timestamp.

Lemma loaded_unique w matrix w1 :
  world_unique w → loaded clock w matrix w1 →
  unique_ids matrix ∧ world_unique w1 ∧ stored_ids w = id <$> allTodos matrix.
Proof.
  intros Hw (Hrun & Hfile & _).
  assert (unique_ids matrix ∧ stored_ids w = id <$> allTodos matrix) as [H Hids].
  { unfold stored_ids. destruct (todoFile w) as [|raw|stored] eqn:Hw0.
    - rewrite (load_absent clock w Hw0) in Hrun. injection Hrun as <- _.
      split; [apply NoDup_nil_2 | done].
    - rewrite (load_unparsable clock w raw Hw0) in Hrun. injection Hrun as <- _.
      split; [apply NoDup_nil_2 | done].
    - rewrite (load_stored clock w stored Hw0) in Hrun. injection Hrun as <- _.
      split; [by apply Hw | done]. }
  split_and!; [done| |done]. intros matrix'. rewrite Hfile. by intros [= <-].
Qed.

Lemma loaded_functional w matrix w1 matrix' w1' :
  loaded clock w matrix w1 → loaded clock w matrix' w1' → matrix' = matrix ∧ w1' = w1.
Proof. intros [H _] [H' _]. rewrite H in H'. by injection H' as <- <-. Qed.

Lemma finish_unique uuid st w :
  unique_ids st.1 → world_unique w → world_unique (finish clock uuid st w).2.
Proof.
  intros H Hw. rewrite finish_run. destruct st as [content []]; simpl; [|done].
  intros ? [= <-]. unfold unique_ids. by rewrite allTodos_set_stats.
Qed.

Lemma only_ticked_unique w w' : only_ticked w w' → world_unique w → world_unique w'.
Proof. intros (Hfile & _) Hw matrix. rewrite Hfile. apply Hw. Qed.

(** Every step of such a run keeps the identifiers of the file unique,
    whether the operation returns or throws. *)
Lemma perform_unique op rest w :
  world_unique w → apart_run clock (op :: rest) w →
  world_unique (perform clock op w).2.
Proof.
  intros Hw [Hop _].
  destruct op as [todo|todoId updates|todoId|todoId]; cbn [perform].
  - destruct (addTodo_run clock todo w) as (matrix & w1 & Hloaded & ->).
    destruct (loaded_unique w matrix w1 Hw Hloaded) as (Huniq & _ & Hids).
    rewrite save_run. intros ? [= <-]. unfold unique_ids.
    rewrite allTodos_set_stats, allTodos_push, fmap_cons.
    apply NoDup_cons. split; [by rewrite <- Hids | done].
  - destruct (updateTodo_run clock todoId updates w) as (matrix & w1 & Hloaded & Hrun).
    destruct (loaded_unique w matrix w1 Hw Hloaded) as (Huniq & Hw1 & _).
    destruct (resolveIfFriendly matrix todoId) as [uuid|e]; [|by rewrite Hrun].
    destruct Hrun as (ts & w2 & _ & Hticked & ->).
    apply finish_unique; [|by eapply only_ticked_unique].
    unfold unique_ids. by rewrite updatePasses_ids.
  - destruct (toggleTodo_run clock todoId w) as (matrix & w1 & Hloaded & Hrun).
    destruct (loaded_unique w matrix w1 Hw Hloaded) as (Huniq & Hw1 & _).
    destruct (resolveIfFriendly matrix todoId) as [uuid|e]; [|by rewrite Hrun].
    destruct Hrun as (ts & w2 & _ & Hticked & ->).
    apply finish_unique; [|by eapply only_ticked_unique].
    unfold unique_ids.
    by rewrite (allTodos_fmap_ext id matrix _ (togglePasses_ids ts uuid matrix)).
  - destruct (deleteTodo_run clock todoId w) as (matrix & w1 & Hloaded & Hrun).
    destruct (loaded_unique w matrix w1 Hw Hloaded) as (Huniq & Hw1 & _).
    destruct (resolveIfFriendly matrix todoId) as [uuid|e]; [|by rewrite Hrun].
    rewrite Hrun. apply finish_unique; [|done].
    eapply sublist_NoDup; [done|]. apply fmap_sublist, deletePasses_sublist.
Qed.

Lemma run_unique ops w :
  world_unique w → apart_run clock ops w → world_unique (run clock ops w).
Proof.
  revert w. induction ops as [|op rest IH]; intros w Hw Hrun; [done|].
  cbn [run]. apply IH; [by eapply perform_unique | by destruct Hrun].
Qed.

(** X26.  On the stores that the interfaces lead to, display identifiers
    work.  Start with no file or with an empty matrix, and run any
    operations in which the additions bring new identifiers and the updates
    do not patch the identifier, whether they return or throw.  The matrix
    in the file is then quadrant-consistent, its identifiers are unique and
    its statistics count its items; and for every item of it with an [id]
    that is not empty, the display identifier generated for the item passes
    the shape test, resolves to the [id] of the item, and makes [getTodoById]
    return the item. *)
Theorem display_ids_work_on_reachable_stores ops w0 matrix :
  (todoFile w0 = Absent ∨ ∃ ts, todoFile w0 = Stored (emptyMatrix ts)) →
  apart_run clock ops w0 →
  todoFile (run clock ops w0) = Stored matrix →
  quadrant_consistent matrix ∧ unique_ids matrix ∧ stats_agree matrix ∧
  ∀ todo, todo ∈ allTodos matrix → id todo ≠ "" →
    isUserFriendlyId (generateDisplayId matrix todo) = true ∧
    resolveUserFriendlyId matrix (generateDisplayId matrix todo) =
      Returned (Some (id todo)) ∧
    ∃ w', getTodoById clock (generateDisplayId matrix todo) (run clock ops w0) =
          (Returned (Some todo), w').
Proof.
  intros Hstart Hrun Hfile.
  assert (world_consistent w0 ∧ world_unique w0 ∧ world_counted w0) as (Hc & Hu & Hs).
  { destruct Hstart as [Habsent|[ts Hempty]].
    - split_and!; intros ?; by rewrite Habsent.
    - split_and!; intros ?; rewrite Hempty; intros [= <-];
        [apply consistent_empty | apply NoDup_nil_2 | done]. }
  pose proof (run_consistent clock ops w0 Hc matrix Hfile) as Hcons.
  pose proof (run_unique ops w0 Hu Hrun matrix Hfile) as Huniq.
  pose proof (run_counted clock ops w0 Hs matrix Hfile) as Hstats.
  split_and!; try done.
  intros todo Hin Hid.
  destruct (displayId_is_row matrix todo Hcons Huniq Hin)
    as (quadrant & index & Hlookup & Hrow).
  destruct (rowDisplayId_resolves matrix quadrant index todo Hlookup) as [Hshape Hres].
  rewrite Hrow. split_and!; [done|done|].
  destruct (getTodoById_run clock (rowDisplayId quadrant index) (run clock ops w0))
    as (matrix' & w' & Hloaded & ->).
  destruct (loaded_stored clock _ matrix' w' matrix Hloaded Hfile) as [-> ->].
  eexists. unfold lookup_key. rewrite Hshape, Hres. cbn [or_null].
  destruct (String.eqb_spec (id todo) ""); [done|].
  change (default (rowDisplayId quadrant index) (Some (id todo))) with (id todo).
  by rewrite (findFirst_unique matrix todo).
Qed.

End Reachable.

Lemma display_ids_work_on_reachable_stores_witness :
  ∃ matrix,
    todoFile (run Sample.clock
                [OpAdd Sample.alpha; OpAdd Sample.delta; OpToggle "A1";
                 OpDelete "nothing"; OpAdd Sample.omega] Sample.fresh) = Stored matrix ∧
    resolveUserFriendlyId matrix (generateDisplayId matrix Sample.omega) =
      Returned (Some "omega").
Proof.
  eexists. split; [reflexivity|].
  apply (display_ids_work_on_reachable_stores Sample.clock
           [OpAdd Sample.alpha; OpAdd Sample.delta; OpToggle "A1";
            OpDelete "nothing"; OpAdd Sample.omega] Sample.fresh).
  - by left.
  - cbn [apart_run]. split_and!; try done;
      apply (bool_decide_unpack _); by vm_compute.
  - reflexivity.
  - apply (bool_decide_unpack _). by vm_compute.
  - discriminate.
Defined.
